(** * DradisMD: the export side of dradismd.py, embedded and verified

    The development follows src/dradismd.py.  Python [str] values are
    lists of characters, the remote records (JSON objects) are finite maps
    from field names to scalars, and the methods of class [DradisMD] are
    state-passing computations over the session (its caches, the requests
    sent through [self.api], the local files and the log) that either
    return or raise.

    Characters are 8-bit ([ascii]); [str.lower] is the ASCII lowering.
    Files are kept as the text that [read_text] returns and [write_text]
    takes; byte encoding and newline translation sit below the model. *)

From Stdlib Require Import Ascii String ZArith Lia DecimalString.
From stdpp Require Import gmap strings list.

Set Default Proof Using "Type".

(** ** Python strings *)

Abbreviation str := (list ascii).

Inductive str_literal : Set :=
  | LNil
  | LCons (c : ascii) (s : str_literal).

Fixpoint literal_of_bytes (l : list Byte.byte) : str_literal :=
  match l with
  | [] => LNil
  | b :: l => LCons (ascii_of_byte b) (literal_of_bytes l)
  end.

Fixpoint bytes_of_literal (s : str_literal) : list Byte.byte :=
  match s with
  | LNil => []
  | LCons c s => byte_of_ascii c :: bytes_of_literal s
  end.

(** String literals denote lists of characters. *)
Definition literal := list ascii.
Definition snil : list ascii := [].
Definition scons (c : ascii) (s : list ascii) : list ascii := c :: s.
Arguments snil /.
Arguments scons _ _ /.

Declare Scope str_scope.
Delimit Scope str_scope with str.
Set Warnings "-via-type-remapping,-via-type-mismatch".
String Notation literal literal_of_bytes bytes_of_literal
  (via str_literal mapping [snil => LNil, scons => LCons]) : str_scope.
Set Warnings "via-type-remapping,via-type-mismatch".
Open Scope str_scope.

Definition LF : ascii := "010"%char.
Definition CR : ascii := "013"%char.

(** [f"{n}"] for an [int]. *)
Definition str_of_Z (z : Z) : str :=
  list_ascii_of_string (NilZero.string_of_int (Z.to_int z)).

(** [str.lower], on ASCII letters. *)
Definition lower_char (c : ascii) : ascii :=
  let n := nat_of_ascii c in
  if (65 <=? n)%nat && (n <=? 90)%nat then ascii_of_nat (n + 32) else c.

Definition lower (s : str) : str := map lower_char s.

(** [s.replace(char, "")] for a one-character [char]. *)
Definition remove_char (c : ascii) (s : str) : str :=
  filter (λ x, x ≠ c) s.

(** [s.startswith(p)], and the rest of [s] after the prefix [p]. *)
Fixpoint strip_prefix (p s : str) : option str :=
  match p, s with
  | [], _ => Some s
  | _ :: _, [] => None
  | a :: p', b :: s' => if decide (a = b) then strip_prefix p' s' else None
  end.

Definition startswith (s p : str) : bool := bool_decide (is_Some (strip_prefix p s)).

(** [p in s]: [p] occurs in [s] as a run of consecutive characters. *)
Fixpoint contains (p s : str) : bool :=
  match strip_prefix p s with
  | Some _ => true
  | None =>
      match s with
      | [] => false
      | _ :: s' => contains p s'
      end
  end.

Definition occurs_in (p s : str) : Prop := ∃ a b, s = a ++ p ++ b.

(** Longest prefix of [s] whose characters satisfy [p], and the rest. *)
Fixpoint span (p : ascii → bool) (s : str) : str * str :=
  match s with
  | [] => ([], [])
  | c :: s' => if p c then let '(a, b) := span p s' in (c :: a, b) else ([], s)
  end.

(** ** Exceptions and results *)

Inductive exception :=
  | AttributeError
  | TypeError
  | KeyError
  | FileNotFoundError
  | ValueError
  | re_error
  | ConfigParserError
  | RemoteError (code : Z).

Inductive result (A : Type) :=
  | Ok (a : A)
  | Raise (e : exception).
Arguments Ok {A} a.
Arguments Raise {A} e.

(** ** Remote records *)

(** The values found under the keys the exporter reads. *)
Inductive scalar :=
  | VNone
  | VInt (z : Z)
  | VStr (s : str).

Global Instance scalar_eq_dec : EqDecision scalar.
Proof. solve_decision. Defined.

(** [f"{v}"]. *)
Definition format (v : scalar) : str :=
  match v with
  | VNone => "None"
  | VInt z => str_of_Z z
  | VStr s => s
  end.

Abbreviation dict := (gmap str scalar).

(** ** Generic functions (dradismd.py, lines 956-987) *)

Definition DQUOTE : ascii := "034"%char.
Definition illegal_chars : str := "<>:]" ++ [DQUOTE] ++ "/\|?*.".

(** [clean_filename]: one [replace] per character of the literal. *)
Definition clean_filename (filename : str) : str :=
  fold_left (λ name char, remove_char char name) illegal_chars filename.

(** The pattern [#\[Name]#+[\r\n]+([^\r\n]+)] of [TITLE_REGEX] and
    [EVIDENCE_ID_REGEX], anchored at the head of [s]: group 1 and the text
    after the match.  [marker] is the literal part with the first [#] of
    [#+].  The three repetitions are greedy and each is followed by a class
    disjoint from its own, so giving back characters never helps and the
    greedy choice is the only match. *)
Definition is_hash (c : ascii) : bool := bool_decide (c = "#"%char).
Definition is_eol (c : ascii) : bool := bool_decide (c = CR ∨ c = LF).
Definition not_eol (c : ascii) : bool := negb (is_eol c).

Definition field_match (marker s : str) : option (str * str) :=
  match strip_prefix marker s with
  | None => None
  | Some r0 =>
      let '(_, r1) := span is_hash r0 in
      let '(eols, r2) := span is_eol r1 in
      match eols with
      | [] => None
      | _ :: _ =>
          let '(value, r3) := span not_eol r2 in
          match value with
          | [] => None
          | _ :: _ => Some (value, r3)
          end
      end
  end.

(** [re.search(REGEX, s)]: the leftmost match; [None] is Python's [None],
    [Some g] a match object whose [group(1)] is [g]. *)
Fixpoint field_search (marker s : str) : option str :=
  match field_match marker s with
  | Some (value, _) => Some value
  | None =>
      match s with
      | [] => None
      | _ :: s' => field_search marker s'
      end
  end.

(** [re.sub(REGEX, "", s)]: every match is cut out, from the left and
    without overlap.  The counter starts above the length of [s]. *)
Fixpoint field_erase_from (n : nat) (marker s : str) : str :=
  match n with
  | O => s
  | S n =>
      match field_match marker s with
      | Some (_, rest) => field_erase_from n marker rest
      | None =>
          match s with
          | [] => []
          | c :: s' => c :: field_erase_from n marker s'
          end
      end
  end.

Definition field_erase (marker s : str) : str :=
  field_erase_from (S (length s)) marker s.

Definition TITLE_MARKER : str := "#[Title]#".
Definition EVIDENCE_ID_MARKER : str := "#[EvidenceID]#".

(** [get_title]: [match.group(1)] is evaluated before [match] is tested, so
    a failed search raises on [None.group]. *)
Definition get_title (content : str) : result str :=
  match field_search TITLE_MARKER content with
  | None => Raise AttributeError
  | Some title => if startswith title "#[" then Ok "" else Ok title
  end.

(** [get_item_from_dict_list]: [next] over the generator, [None] when it is
    exhausted.  [dict[key_to_check]] raises on a missing key, and
    [clean_filename] on a value that is not a [str]. *)
Fixpoint get_item_from_dict_list (dict_list : list dict) (key_to_check matching_string : str)
    : result (option dict) :=
  match dict_list with
  | [] => Ok None
  | d :: rest =>
      match d !! key_to_check with
      | None => Raise KeyError
      | Some (VStr s) =>
          if decide (lower (clean_filename s) = lower (clean_filename matching_string))
          then Ok (Some d)
          else get_item_from_dict_list rest key_to_check matching_string
      | Some _ => Raise AttributeError
      end
  end.

(** [s.replace(old, new)]: the occurrences of [old] are replaced from the
    left, without overlap.  The recursion restarts after each occurrence; the
    counter starts above the length of [s] and never runs out. *)
Fixpoint replace_from (n : nat) (old new s : str) : str :=
  match n with
  | O => s
  | S n =>
      match strip_prefix old s with
      | Some rest => new ++ replace_from n old new rest
      | None =>
          match s with
          | [] => []
          | c :: s' => c :: replace_from n old new s'
          end
      end
  end.

Definition replace (old new s : str) : str :=
  match old with
  | [] => new ++ flat_map (λ c, c :: new) s
  | _ :: _ => replace_from (S (length s)) old new s
  end.

(** [s.split(sep)] for a one-character separator. *)
Fixpoint split_on (sep : ascii) (s : str) : list str :=
  match s with
  | [] => [[]]
  | c :: s' =>
      if decide (c = sep) then [] :: split_on sep s'
      else match split_on sep s' with
           | [] => [[c]]
           | w :: ws => (c :: w) :: ws
           end
  end.

(** [s.rfind(c)]. *)
Fixpoint rfind (c : ascii) (s : str) : option nat :=
  match s with
  | [] => None
  | x :: s' =>
      match rfind c s' with
      | Some i => Some (S i)
      | None => if decide (x = c) then Some O else None
      end
  end.

(** [s.rstrip(c)]. *)
Definition rstrip (c : ascii) (s : str) : str :=
  reverse (snd (span (λ x, bool_decide (x = c)) (reverse s))).

(** [sep.join(ws)]. *)
Fixpoint join (sep : str) (ws : list str) : str :=
  match ws with
  | [] => []
  | [w] => w
  | w :: ws' => w ++ sep ++ join sep ws'
  end.

(** ** Paths (pathlib, POSIX flavour) *)

(** A path is its anchor (empty, one slash or two) and its components;
    empty components and [.] are dropped when a path is built. *)
Record Path := mkPath { anchor : str; parts : list str }.

Global Instance Path_eq_dec : EqDecision Path.
Proof. solve_decision. Defined.

Global Instance Path_countable : Countable Path.
Proof.
  refine (inj_countable' (λ p, (anchor p, parts p)) (λ x, mkPath x.1 x.2) _).
  by intros [].
Defined.

Definition is_slash (c : ascii) : bool := bool_decide (c = "/"%char).

Definition Path_of_str (s : str) : Path :=
  let '(slashes, _) := span is_slash s in
  let root : str :=
    match slashes with
    | [] => ""
    | [_; _] => "//"
    | _ => "/"
    end in
  mkPath root (filter (λ x, x ≠ [] ∧ x ≠ ".") (split_on "/" s)).

(** [str(p)] and [p.as_posix()]. *)
Definition path_str (p : Path) : str :=
  match anchor p, parts p with
  | [], [] => "."
  | a, ps => a ++ join "/" ps
  end.

(** [p.name]. *)
Definition path_name (p : Path) : str := List.last (parts p) [].

(** [p.parent]. *)
Definition path_parent (p : Path) : Path := mkPath (anchor p) (removelast (parts p)).

(** [p.suffix]. *)
Definition path_suffix (p : Path) : str :=
  let name := path_name p in
  match rfind "." name with
  | Some i => if (0 <? i)%nat && (i <? length name - 1)%nat then drop i name else []
  | None => []
  end.

(** [Path.joinpath(p, s)] for a [str] argument. *)
Definition path_join (p : Path) (s : str) : Path :=
  let q := Path_of_str s in
  match anchor q with
  | [] => mkPath (anchor p) (parts p ++ parts q)
  | _ :: _ => q
  end.

(** [Path(f"{p}/{s}")]. *)
Definition path_child (p : Path) (s : str) : Path :=
  Path_of_str (path_str p ++ "/" ++ s).

(** ** Attachment references (handle_attachments, line 359) *)

(** One match of [(?P<match>!(?P<path>.*?)(?P<caption>\(.*?)?!)]. *)
Record attachment := mkAttachment {
  a_match : str;
  a_path : str;
  a_caption : option str;
}.

(** The text up to the next [!] on the current line, and the text after
    that [!]; [.] does not match a line feed. *)
Fixpoint until_bang (s : str) : option (str * str) :=
  match s with
  | [] => None
  | c :: s' =>
      if decide (c = "!"%char) then Some ([], s')
      else if decide (c = LF) then None
      else match until_bang s' with
           | Some (inner, rest) => Some (c :: inner, rest)
           | None => None
           end
  end.

(** The groups of a match whose text between the two [!] is [inner]: the
    lazy [path] stops at the first [(], from where the caption runs to the
    closing [!]; without a [(] the caption group does not take part. *)
Definition attachment_of (inner : str) : attachment :=
  let '(path, caption) := span (λ c, bool_decide (c ≠ "("%char)) inner in
  mkAttachment ("!" ++ inner ++ "!") path
    (match caption with [] => None | _ :: _ => Some caption end).

(** [[m.groupdict() for m in r.finditer(content)]]: the scan restarts
    after each match, and one character further where none starts. *)
Fixpoint finditer_from (n : nat) (s : str) : list attachment :=
  match n, s with
  | S n, c :: s' =>
      if decide (c = "!"%char) then
        match until_bang s' with
        | Some (inner, rest) => attachment_of inner :: finditer_from n rest
        | None => finditer_from n s'
        end
      else finditer_from n s'
  | _, _ => []
  end.

Definition finditer (content : str) : list attachment :=
  finditer_from (length content) content.

(** ** The remote client *)

(** The requests the exporter sends through [self.api] (the [Dradis]
    wrapper), with their arguments. *)
Inductive call :=
  | get_project (project_id : str)
  | get_all_attachments (project_id : str) (node_id : scalar)
  | create_attachment (project_id : str) (node_id : scalar) (files : list Path)
  | get_all_contentblocks (project_id : str)
  | create_contentblock (project_id : str) (content title : str)
  | update_contentblock (project_id : str) (block_id : scalar) (content : str)
  | update_docprop (project_id : str) (key value : str)
  | get_all_issues (project_id : str)
  | create_issue (project_id : str) (content : str)
  | update_issue (project_id : str) (issue_id : scalar) (content : str)
  | get_all_nodes (project_id : str)
  | create_node (project_id : str) (label : str) (type_id : Z)
  | create_evidence (project_id : str) (node_id issue_id : scalar) (content : str)
  | update_evidence (project_id : str) (node_id issue_id : scalar) (evidence_id content : str).

Global Instance call_eq_dec : EqDecision call.
Proof. solve_decision. Defined.

(** What lies outside dradismd.py: the remote platform behind [self.api],
    pandoc, the directory tree, path resolution, and the expansion of a
    [re.sub] replacement template.  A reply of the platform may depend on
    the requests that came before. *)
Class Environment := {
  (** the reply to a listing request: a list of records, or an error *)
  reply_list : list call → call → result (list dict);
  (** the reply to any other request: one record, or an error *)
  reply_item : list call → call → result dict;
  (** [convert(content, input_format, output_format)]: the converted
      text, [None], or an exception *)
  convert : str → str → str → result (option str);
  (** [Path(p).iterdir()] as a list, [None] where [p] is no directory *)
  iterdir : Path → option (list Path);
  (** [Path.resolve] *)
  resolve : Path → Path;
  (** the text [re.sub] puts in for a match of a literal pattern, from the
      replacement template and the matched text *)
  expand_template : str → str → result str;
  (** [f"{e}"] of a caught exception *)
  exception_text : exception → str;
  (** [BasicInterpolation] of an option value within its section *)
  interpolate : list (str * str) → str → result str;
}.

(** A template without a backslash is taken as it stands. *)
Definition literal_templates `{Environment} : Prop :=
  ∀ template matched : str, "\"%char ∉ template → expand_template template matched = Ok template.

(** ** The properties file (configparser, with its defaults) *)

(** Whitespace of [str.strip]. *)
Definition is_space (c : ascii) : bool :=
  let n := nat_of_ascii c in
  ((9 <=? n)%nat && (n <=? 13)%nat) || ((28 <=? n)%nat && (n <=? 32)%nat).

Definition lstrip_ws (s : str) : str := snd (span is_space s).
Definition rstrip_ws (s : str) : str := reverse (lstrip_ws (reverse s)).
Definition strip_ws (s : str) : str := rstrip_ws (lstrip_ws s).

(** One option as the parser collects it: its section, its name as
    spelled in the file (right-stripped), and the lines of its value. *)
Record ini_option := mkOption {
  o_section : str;
  o_spelled : str;
  o_lines : list str;
}.

(** The state of [RawConfigParser._read]; [ini_options] holds the most
    recent option first. *)
Record ini_state := mkIni {
  cursect : option str;
  optname : bool;
  indent_level : nat;
  ini_headers : list str;
  ini_options : list ini_option;
}.

(** [SECTCRE]: [\[(?P<header>.+)\]] at the head of the stripped line. *)
Definition section_header (value : str) : option str :=
  match value with
  | c :: rest =>
      if decide (c = "["%char) then
        match rfind "]" rest with
        | Some (S i) => Some (take (S i) rest)
        | _ => None
        end
      else None
  | [] => None
  end.

(** [_OPT_TMPL] with the delimiters [=] and [:]: the option name before
    the first delimiter, and the value after it. *)
Definition option_line (value : str) : option (str * str) :=
  let '(name, rest) := span (λ c, bool_decide (c ≠ "="%char ∧ c ≠ ":"%char)) value in
  match rest with
  | [] => None
  | _ :: v => Some (rstrip_ws name, strip_ws v)
  end.

Definition DEFAULTSECT : str := "DEFAULT".

(** A line that does not continue a value: a section header or an option;
    [optionxform] is [str.lower] and the parser is strict.  A line that the
    parser reports, at once or at the end of the file, raises here. *)
Definition ini_entry (st : ini_state) (cur_indent_level : nat) (value : str) : result ini_state :=
  match section_header value with
  | Some sectname =>
      if bool_decide (sectname ∈ ini_headers st) && bool_decide (sectname ≠ DEFAULTSECT)
      then Raise ConfigParserError
      else Ok (mkIni (Some sectname) false cur_indent_level
                 (sectname :: ini_headers st) (ini_options st))
  | None =>
      match cursect st, option_line value with
      | Some sect, Some (name, v) =>
          if bool_decide (name = []) then Raise ConfigParserError
          else if bool_decide (Exists (λ o, o_section o = sect
                         ∧ lower (o_spelled o) = lower name) (ini_options st))
          then Raise ConfigParserError
          else Ok (mkIni (cursect st) true cur_indent_level (ini_headers st)
                     (mkOption sect name [v] :: ini_options st))
      | _, _ => Raise ConfigParserError
      end
  end.

(** The value lines of the most recent option gain [value]. *)
Definition ini_append (st : ini_state) (value : str) : ini_state :=
  match ini_options st with
  | o :: os =>
      mkIni (cursect st) (optname st) (indent_level st) (ini_headers st)
        (mkOption (o_section o) (o_spelled o) (o_lines o ++ [value]) :: os)
  | [] => st
  end.

(** One line of the file, as in the loop of [RawConfigParser._read]. *)
Definition ini_line (st : ini_state) (line : str) : result ini_state :=
  let stripped := strip_ws line in
  let comment := startswith stripped "#" || startswith stripped ";" in
  let value : str := if comment then [] else stripped in
  let in_option := bool_decide (is_Some (cursect st)) && optname st in
  match value with
  | [] => if negb comment && in_option then Ok (ini_append st []) else Ok st
  | _ :: _ =>
      let cur_indent_level := length (fst (span is_space line)) in
      if in_option && (indent_level st <? cur_indent_level)%nat
      then Ok (ini_append st value)
      else ini_entry st cur_indent_level value
  end.

Fixpoint ini_lines (st : ini_state) (lines : list str) : result ini_state :=
  match lines with
  | [] => Ok st
  | line :: rest =>
      match ini_line st line with
      | Ok st' => ini_lines st' rest
      | Raise e => Raise e
      end
  end.

(** The lines a text file yields. *)
Definition file_lines (text : str) : list str :=
  match reverse (split_on LF text) with
  | [] :: r => reverse r
  | _ => split_on LF text
  end.

(** A parsed file: the section names, and the options in file order, each
    with its section, the name spelled in the file and its joined value. *)
Record ini_file := mkIniFile {
  sections : list str;
  options : list (str * str * str);
}.

(** [parser.read(path)] on the text of the file. *)
Definition ini_read (text : str) : result ini_file :=
  match ini_lines (mkIni None false 0 [] []) (file_lines text) with
  | Ok st =>
      Ok (mkIniFile (ini_headers st)
            (map (λ o, (o_section o, o_spelled o, rstrip_ws (join [LF] (o_lines o))))
               (reverse (ini_options st))))
  | Raise e => Raise e
  end.

(** [name] is spelled on one of [lines], before the first [=] or [:] of
    that line. *)
Definition spelled_on (lines : list str) (name : str) : Prop :=
  ∃ line v, line ∈ lines ∧ option_line (strip_ws line) = Some (name, v).

(** The options of one section as [(name as spelled, value)]. *)
Definition section_options (sect : str) (opts : list (str * str * str)) : list (str * str) :=
  omap (λ o, if decide (o.1.1 = sect) then Some (o.1.2, o.2) else None) opts.

(** [parser[sect]] as the mapping that [dict()] walks: the options of the
    section, then the defaults it does not set, names as spelled. *)
Definition section_items (sect : str) (opts : list (str * str * str)) : list (str * str) :=
  let own := section_options sect opts in
  own ++ filter (λ d, lower d.1 ∉ map (λ o, lower o.1) own) (section_options DEFAULTSECT opts).

(** ** The session *)

Inductive level := WARNING | ERROR.

Global Instance level_eq_dec : EqDecision level.
Proof. solve_decision. Defined.

(** An instance of class [DradisMD] with what its methods act on: the
    requests sent through [self.api] so far, the two cached listings (empty
    until fetched), the local files, and the records logged at level
    WARNING and above (DEBUG and INFO records decide nothing and are left
    out). *)
Record session := mkSession {
  api_calls : list call;
  issue_list : list dict;
  dradis_nodes : list dict;
  files : gmap Path str;
  log : list (level * str);
}.

(** A method: from a session to a returned value or a raised exception,
    and the session it leaves. *)
Definition M (A : Type) : Type := session → result A * session.

Global Instance M_ret : MRet M := λ A a σ, (Ok a, σ).

Global Instance M_bind : MBind M := λ A B k m σ,
  match m σ with
  | (Ok a, σ') => k a σ'
  | (Raise e, σ') => (Raise e, σ')
  end.

(** A pure computation that may raise. *)
Definition lift {A} (r : result A) : M A := λ σ, (r, σ).

(** [try: m  except: handler]. *)
Definition try_except {A} (m : M A) (handler : exception → M A) : M A := λ σ,
  match m σ with
  | (Ok a, σ') => (Ok a, σ')
  | (Raise e, σ') => handler e σ'
  end.

(** [for x in xs: body]. *)
Fixpoint for_each {A} (xs : list A) (body : A → M ()) : M () :=
  match xs with
  | [] => mret ()
  | x :: xs' => body x ≫= λ _, for_each xs' body
  end.

(** A loop that carries local variables. *)
Fixpoint for_fold {A S} (xs : list A) (body : S → A → M S) (s : S) : M S :=
  match xs with
  | [] => mret s
  | x :: xs' => body s x ≫= for_fold xs' body
  end.

Definition log_record (l : level) (msg : str) : M () := λ σ,
  (Ok (), mkSession (api_calls σ) (issue_list σ) (dradis_nodes σ) (files σ) (log σ ++ [(l, msg)])).

Definition get_issue_list : M (list dict) := λ σ, (Ok (issue_list σ), σ).
Definition set_issue_list (l : list dict) : M () := λ σ,
  (Ok (), mkSession (api_calls σ) l (dradis_nodes σ) (files σ) (log σ)).

Definition get_dradis_nodes : M (list dict) := λ σ, (Ok (dradis_nodes σ), σ).
Definition set_dradis_nodes (l : list dict) : M () := λ σ,
  (Ok (), mkSession (api_calls σ) (issue_list σ) l (files σ) (log σ)).

(** [p.is_file()]. *)
Definition is_file (p : Path) : M bool := λ σ, (Ok (bool_decide (is_Some (files σ !! p))), σ).

(** [p.read_text(...)]. *)
Definition read_text (p : Path) : M str := λ σ,
  match files σ !! p with
  | Some text => (Ok text, σ)
  | None => (Raise FileNotFoundError, σ)
  end.

(** [p.write_text(text, ...)]. *)
Definition write_text (p : Path) (text : str) : M () := λ σ,
  (Ok (), mkSession (api_calls σ) (issue_list σ) (dradis_nodes σ) (<[p := text]> (files σ)) (log σ)).

(** [d[key]]. *)
Definition getitem (d : dict) (key : str) : result scalar :=
  match d !! key with
  | Some v => Ok v
  | None => Raise KeyError
  end.

(** [d[key]] where [d] may be [None]. *)
Definition subscript (d : option dict) (key : str) : result scalar :=
  match d with
  | Some d => getitem d key
  | None => Raise TypeError
  end.

Section DradisMD.
Context `{Environment}.

(** A request through [self.api]: it is sent, and the platform replies or
    the wrapper raises. *)
Definition api_list (c : call) : M (list dict) := λ σ,
  (reply_list (api_calls σ) c,
   mkSession (api_calls σ ++ [c]) (issue_list σ) (dradis_nodes σ) (files σ) (log σ)).

Definition api_item (c : call) : M dict := λ σ,
  (reply_item (api_calls σ) c,
   mkSession (api_calls σ ++ [c]) (issue_list σ) (dradis_nodes σ) (files σ) (log σ)).

(** The statement [if not self.issue_list: self.issue_list =
    self.api.get_all_issues(project_id)] that opens every use of the issue
    cache, and its twin for the node cache. *)
Definition fetch_issue_list (project_id : str) : M () :=
  cached ← get_issue_list;
  match cached with
  | [] => l ← api_list (get_all_issues project_id); set_issue_list l
  | _ :: _ => mret ()
  end.

Definition fetch_dradis_nodes (project_id : str) : M () :=
  cached ← get_dradis_nodes;
  match cached with
  | [] => l ← api_list (get_all_nodes project_id); set_dradis_nodes l
  | _ :: _ => mret ()
  end.

Definition SUPPORTED_INPUT : list str := [".textile"; ".md"].
Definition SUPPORTED_FORMAT : list (str * str) :=
  [("textile", ".textile"); ("markdown", ".md"); ("pdf", ".pdf"); ("word", ".docx")].

(** [guess_format]: [list.index] raises when the extension is not there. *)
Definition guess_format (extension : str) : result str :=
  match filter (λ kv, kv.2 = extension) SUPPORTED_FORMAT with
  | kv :: _ => Ok kv.1
  | [] => Raise ValueError
  end.

(** [get_textile_content]; the result is [None] when [convert] gave up. *)
Definition get_textile_content (file : Path) : M (option str) :=
  let extension := path_suffix file in
  if decide (extension ≠ ".textile") then
    if decide (extension ∈ SUPPORTED_INPUT) then
      try_except
        (input_format ← lift (guess_format extension);
         content ← read_text file;
         lift (convert content input_format "textile"))
        (λ e,
           log_record ERROR ("Error with get_textile_content from " ++ path_str file
                              ++ " :" ++ exception_text e);;
           mret (Some ""))
    else
      log_record WARNING (path_name file ++ " was not a valid markup format, skipping Dradis export");;
      mret (Some "")
  else content ← read_text file; mret (Some content).

(** [any(d["filename"] == name for d in existing)]. *)
Fixpoint any_filename (existing : list dict) (name : str) : result bool :=
  match existing with
  | [] => Ok false
  | d :: rest =>
      match d !! ("filename" : str) with
      | None => Raise KeyError
      | Some v => if decide (v = VStr name) then Ok true else any_filename rest name
      end
  end.

(** The reference that takes the place of [a] in the content:
    [f"!{dradis_dir}/{attachment_path.name}{caption}!"], without the
    caption when the group is [None]. *)
Definition dradis_reference (dradis_dir : str) (a : attachment) : str :=
  "!" ++ dradis_dir ++ "/" ++ path_name (Path_of_str (a_path a))
      ++ default [] (a_caption a) ++ "!".

(** The body of the loop of [handle_attachments] for one reference; the
    local variables [content] and [files] are threaded through. *)
Definition handle_attachment (dradis_dir : str) (existing : list dict) (file_path : Path)
    (vars : str * list Path) (a : attachment) : M (str * list Path) :=
  let '(content, upload) := vars in
  let attachment_path := Path_of_str (a_path a) in
  listed ← lift (any_filename existing (replace "%20" " " (path_name attachment_path)));
  let rewrite (upload : list Path) : M (str * list Path) :=
    new ← lift (expand_template (dradis_reference dradis_dir a) (a_match a));
    mret (replace (a_match a) new content, upload) in
  if listed : bool then rewrite upload
  else
    let full_attachments_path :=
      resolve (path_join file_path (replace "%20" " " (path_str attachment_path))) in
    on_disk ← is_file full_attachments_path;
    if on_disk : bool then rewrite (upload ++ [full_attachments_path])
    else
      log_record WARNING (path_str full_attachments_path ++ " was not found. File missing? Skipping");;
      mret (content, upload).

(** [handle_attachments]. *)
Definition handle_attachments (project_id : str) (node_id : scalar) (content : str)
    (file_path : Path) : M str :=
  existing_nodes_attachments ← api_list (get_all_attachments project_id node_id);
  let attachments := finditer content in
  match attachments with
  | [] => mret content
  | _ :: _ =>
      let dradis_dir := "/pro/projects/" ++ project_id ++ "/nodes/" ++ format node_id
                          ++ "/attachments" in
      '(content, upload) ← for_fold attachments
          (handle_attachment dradis_dir existing_nodes_attachments file_path) (content, []);
      match upload with
      | [] => mret content
      | _ :: _ => api_item (create_attachment project_id node_id upload);; mret content
      end
  end.

(** [get_node_id_from_file]; the result is a [str], or [None]. *)
Definition get_node_id_from_file (project_id : str) (file_path : Path) : M scalar :=
  fetch_dradis_nodes project_id;;
  nodes ← get_dradis_nodes;
  if decide (path_name (path_parent file_path) = "Content Blocks") then
    uploaded_files_node ← lift (get_item_from_dict_list nodes "label" "Uploaded files");
    id ← lift (subscript uploaded_files_node "id");
    match id with
    | VInt z => mret (VStr (str_of_Z (z - 1)))
    | _ => lift (Raise TypeError)
    end
  else if decide (path_name (path_parent (path_parent file_path)) = "Evidences") then
    evidence_node ← lift (get_item_from_dict_list nodes "label"
                            (path_name (path_parent (path_parent (path_parent file_path)))));
    id ← lift (subscript evidence_node "id");
    mret (VStr (format id))
  else
    log_record ERROR ("Could not find node id for " ++ path_str file_path ++ " ");;
    mret VNone.

(** [export_content_block]. *)
Definition export_content_block (project_id : str) (file : Path) : M () :=
  content ← get_textile_content file;
  match content with
  | Some ((_ :: _) as content) =>
      title ← lift (get_title content);
      match title with
      | [] => log_record WARNING (path_name file ++ " does not have a #[Title]# field, skipping ")
      | _ :: _ =>
          node_id ← get_node_id_from_file project_id file;
          content ← handle_attachments project_id node_id content (path_parent file);
          dradis_content_blocks ← api_list (get_all_contentblocks project_id);
          title_found ← lift (get_item_from_dict_list dradis_content_blocks "title" title);
          match title_found with
          | None => api_item (create_contentblock project_id content title);; mret ()
          | Some block =>
              block_id ← lift (getitem block "id");
              api_item (update_contentblock project_id block_id content);; mret ()
          end
      end
  | _ => mret ()
  end.

(** [export_issue]. *)
Definition export_issue (project_id : str) (file : Path) : M () :=
  content ← get_textile_content file;
  match content with
  | Some ((_ :: _) as content) =>
      title ← lift (get_title content);
      match title with
      | [] => log_record WARNING (path_name file ++ " does not have a #[Title]# field, skipping")
      | _ :: _ =>
          fetch_issue_list project_id;;
          issues ← get_issue_list;
          issue_found ← lift (get_item_from_dict_list issues "title" title);
          match issue_found with
          | None => api_item (create_issue project_id content);; mret ()
          | Some issue =>
              issue_id ← lift (getitem issue "id");
              api_item (update_issue project_id issue_id content);; mret ()
          end
      end
  | _ => mret ()
  end.

(** [new_evidence]. *)
Definition new_evidence (project_id : str) (node_id issue_id : scalar)
    (dradis_evidence_content : str) (evidence : Path) (erase_previous_id : bool) : M () :=
  result ← api_item (create_evidence project_id node_id issue_id dradis_evidence_content);
  let evidence_id := default VNone (result !! ("id" : str)) in
  evidence_content ← read_text evidence;
  let evidence_content :=
    if erase_previous_id then field_erase EVIDENCE_ID_MARKER evidence_content
    else evidence_content in
  write_text evidence
    (evidence_content ++ [LF] ++ "#[EvidenceID]#" ++ [LF; LF] ++ format evidence_id ++ [LF]).

(** [export_evidence]. *)
Definition export_evidence (project_id : str) (node_id : scalar) (local_issue_name : str)
    (evidence_file : Path) : M () :=
  content ← get_textile_content evidence_file;
  match content with
  | Some ((_ :: _) as dradis_evidence_content) =>
      fetch_issue_list project_id;;
      issues ← get_issue_list;
      issue_found ← lift (get_item_from_dict_list issues "title" local_issue_name);
      match issue_found with
      | None =>
          log_record WARNING ("The issue " ++ local_issue_name
                               ++ " was not found on Dradis, skipping evidence export")
      | Some issue =>
          dradis_evidence_content ←
            handle_attachments project_id node_id dradis_evidence_content (path_parent evidence_file);
          match field_search EVIDENCE_ID_MARKER dradis_evidence_content with
          | Some evidence_id =>
              try_except
                (issue_id ← lift (getitem issue "id");
                 api_item (update_evidence project_id node_id issue_id evidence_id
                             dradis_evidence_content);;
                 mret ())
                (λ _,
                   log_record WARNING ("Could not update " ++ evidence_id
                                        ++ ", creating new evidenceID");;
                   issue_id ← lift (getitem issue "id");
                   new_evidence project_id node_id issue_id dradis_evidence_content
                     evidence_file true)
          | None =>
              issue_id ← lift (getitem issue "id");
              new_evidence project_id node_id issue_id dradis_evidence_content evidence_file false
          end
      end
  | _ => mret ()
  end.

(** [get_files_in_folder] and [get_folders_in_folder]. *)
Definition get_files_in_folder (folder : Path) : M (list Path) := λ σ,
  match iterdir folder with
  | Some entries => (Ok (filter (λ f, is_Some (files σ !! f)) entries), σ)
  | None => (Raise FileNotFoundError, σ)
  end.

Definition is_dir (p : Path) : bool := bool_decide (is_Some (iterdir p)).

Definition get_folders_in_folder (folder : Path) : M (list Path) :=
  match iterdir folder with
  | Some entries => mret (filter (λ f, is_dir f = true) entries)
  | None => lift (Raise FileNotFoundError)
  end.

(** [export_node]. *)
Definition export_node (project_id : str) (node_folder : Path) : M () :=
  fetch_dradis_nodes project_id;;
  nodes ← get_dradis_nodes;
  node_found ← lift (get_item_from_dict_list nodes "label" (path_name node_folder));
  node_id ←
    match node_found with
    | None =>
        result ← api_item (create_node project_id (path_name node_folder) 1);
        lift (getitem result "id")
    | Some node => lift (getitem node "id")
    end;
  let evidence_path := path_child node_folder "Evidences" in
  if is_dir evidence_path then
    evidence_issue_folders ← get_folders_in_folder evidence_path;
    for_each evidence_issue_folders (λ issue_folder,
      evidence_list_for_issue ← get_files_in_folder issue_folder;
      for_each evidence_list_for_issue (λ file,
        export_evidence project_id node_id (path_name issue_folder) file))
  else mret ().

(** [export_document_properties]. *)
Definition export_document_properties (project_id : str) (path : Path) : M () :=
  text ← (λ σ, (Ok (files σ !! path), σ));
  properties_file ← lift (match text with
                          | Some text => ini_read text
                          | None => Ok (mkIniFile [] [])
                          end);
  if decide (("DOCUMENT_PROPERTIES" : str) ∈ sections properties_file) then
    let items := map (λ kv, (lower kv.1, kv.2))
                     (section_items "DOCUMENT_PROPERTIES" (options properties_file)) in
    properties ← lift (foldr (λ kv acc,
                         match interpolate items kv.2, acc with
                         | Ok v, Ok l => Ok ((kv.1, v) :: l)
                         | Raise e, _ => Raise e
                         | _, Raise e => Raise e
                         end) (Ok []) items);
    for_each properties (λ kv,
      try_except
        (api_item (update_docprop project_id kv.1 kv.2);; mret ())
        (λ _, log_record ERROR ("Property " ++ kv.1 ++ " failed to update")))
  else lift (Raise KeyError).

(** [update_item]. *)
Definition update_item (project_id : str) (path : Path) : M () :=
  if decide (path_name path = "document_properties.ini") then
    export_document_properties project_id path
  else if decide (path_name (path_parent path) = "Content Blocks") then
    export_content_block project_id path
  else if decide (path_name (path_parent path) = "Issues") then
    export_issue project_id path
  else if decide (path_name (path_parent (path_parent path)) = "Evidences") then
    node_id ← get_node_id_from_file project_id path;
    export_evidence project_id node_id (path_name (path_parent path)) path
  else mret ().

Definition NO_RESULT : str := "ActiveRecord::RecordNotFound".

(** [update_project]. *)
Definition update_project (project_id : str) (path : str) : M () :=
  project ← api_item (get_project project_id);
  if decide (project !! ("message" : str) = Some (VStr NO_RESULT)) then
    log_record ERROR ("Project " ++ project_id ++ " doesn't exist or you don't have access.")
  else
    let path := Path_of_str (rstrip DQUOTE path) in
    path_is_file ← is_file path;
    if path_is_file : bool then update_item project_id path
    else if is_dir path then
      lift (getitem project "name");;
      let content_block_path := path_child path "Content Blocks" in
      (if is_dir content_block_path then
         content_blocks_files ← get_files_in_folder content_block_path;
         for_each content_blocks_files (export_content_block project_id)
       else log_record WARNING "No Content Blocks folder found.");;
      let document_properties_path := path_child path "document_properties.ini" in
      document_properties_is_file ← is_file document_properties_path;
      (if document_properties_is_file : bool
       then export_document_properties project_id document_properties_path
       else log_record WARNING "No document properties found.");;
      let issues_path := path_child path "Issues" in
      (if is_dir issues_path then
         local_issues ← get_files_in_folder issues_path;
         for_each local_issues (export_issue project_id)
       else log_record WARNING "No Issues folder found.");;
      let nodes_path := path_child path "Nodes" in
      (if is_dir nodes_path then
         local_nodes ← get_folders_in_folder nodes_path;
         for_each local_nodes (export_node project_id)
       else log_record WARNING "No Nodes folder found.")
    else log_record ERROR (path_str path ++ " does not exist").

End DradisMD.

(** ** Names that denote the same entity (spec, section 4.1) *)

(** Two names match when their sanitized forms are equal without regard
    to case. *)
Definition names_match (a b : str) : Prop :=
  lower (clean_filename a) = lower (clean_filename b).

(** ** Scripted environments *)

(** An environment with given remote replies and directory tree: pandoc
    returns its input, paths resolve to themselves, a replacement template
    is literal unless it holds a backslash, and option values have no
    interpolation. *)
Definition scripted (rl : list call → call → result (list dict))
    (ri : list call → call → result dict) (dirs : Path → option (list Path)) : Environment :=
  {| reply_list := rl;
     reply_item := ri;
     convert := λ content _ _, Ok (Some content);
     iterdir := dirs;
     resolve := λ p, p;
     expand_template := λ template _,
       if bool_decide ("\"%char ∈ template) then Raise re_error else Ok template;
     exception_text := λ _, "error";
     interpolate := λ _ v, Ok v |}.

(** A fresh session over the given files. *)
Definition session_of (l : list (str * str)) : session :=
  mkSession [] [] [] (list_to_map (map (λ kv, (Path_of_str kv.1, kv.2)) l)) [].

(** A platform without records that accepts every request. *)
Definition empty_remote : Environment :=
  scripted (λ _ _, Ok []) (λ _ _, Ok ∅) (λ _, None).


(** ** Scenarios *)

(** The text of an issue file that holds only its title. *)
Definition issue_text (title : str) : str := "#[Title]#" ++ [LF] ++ title ++ [LF].

(** A project folder with three issue files. *)
Definition batch_tree (p : Path) : option (list Path) :=
  if decide (p = Path_of_str "proj") then Some [Path_of_str "proj/Issues"]
  else if decide (p = Path_of_str "proj/Issues") then
    Some [Path_of_str "proj/Issues/a.textile"; Path_of_str "proj/Issues/b.textile";
          Path_of_str "proj/Issues/c.textile"]
  else None.

Definition batch_session : session :=
  session_of [("proj/Issues/a.textile", issue_text "A");
              ("proj/Issues/b.textile", issue_text "B");
              ("proj/Issues/c.textile", issue_text "C")].

(** A platform that holds no issue yet and rejects the creation of B. *)
Definition batch_remote : Environment :=
  scripted (λ _ _, Ok [])
    (λ _ c,
       match c with
       | get_project _ => Ok {[ "name" := VStr "P" ]}
       | create_issue _ content =>
           if decide (content = issue_text "B") then Raise (RemoteError 500)
           else Ok {[ "id" := VInt 1 ]}
       | _ => Ok ∅
       end)
    batch_tree.

(** ** The cached listings *)

Inductive entity := Issues | Nodes.

(** The cache of an entity type, and the request that lists it in full. *)
Definition cached (e : entity) (σ : session) : list dict :=
  match e with
  | Issues => issue_list σ
  | Nodes => dradis_nodes σ
  end.

Definition is_listing (e : entity) (c : call) : bool :=
  match e, c with
  | Issues, get_all_issues _ => true
  | Nodes, get_all_nodes _ => true
  | _, _ => false
  end.

(** A computation that keeps a filled cache of [e] and sends no request
    that lists [e]. *)
Definition steady {A} (e : entity) (m : M A) : Prop :=
  ∀ σ, cached e σ ≠ [] →
    cached e (m σ).2 = cached e σ ∧
    ∃ new, api_calls (m σ).2 = api_calls σ ++ new ∧ Forall (λ c, is_listing e c = false) new.

(** The requests that write an evidence record. *)
Definition is_evidence_call (c : call) : bool :=
  match c with
  | create_evidence _ _ _ _ | update_evidence _ _ _ _ _ => true
  | _ => false
  end.

(** A computation that leaves the files and the caches alone and writes no
    evidence record. *)
Definition quiet {A} (m : M A) : Prop :=
  ∀ σ, files (m σ).2 = files σ ∧ issue_list (m σ).2 = issue_list σ ∧
       dradis_nodes (m σ).2 = dradis_nodes σ ∧
       ∃ new, api_calls (m σ).2 = api_calls σ ++ new
              ∧ Forall (λ c, is_evidence_call c = false) new.

(** The block that [new_evidence] appends for the id [evidence_id]. *)
Definition evidence_id_block (evidence_id : str) : str :=
  [LF] ++ "#[EvidenceID]#" ++ [LF; LF] ++ evidence_id ++ [LF].

(** The export operations of a session. *)
Inductive operation :=
  | Export_content_block (file : Path)
  | Export_document_properties (path : Path)
  | Export_issue (file : Path)
  | Export_node (node_folder : Path)
  | Export_evidence (node_id : scalar) (local_issue_name : str) (evidence_file : Path)
  | Get_node_id_from_file (file_path : Path)
  | Update_item (path : Path)
  | Update_project (path : str).

Definition run `{Environment} (project_id : str) (op : operation) : M () :=
  match op with
  | Export_content_block file => export_content_block project_id file
  | Export_document_properties path => export_document_properties project_id path
  | Export_issue file => export_issue project_id file
  | Export_node node_folder => export_node project_id node_folder
  | Export_evidence node_id name file => export_evidence project_id node_id name file
  | Get_node_id_from_file file_path => get_node_id_from_file project_id file_path;; mret ()
  | Update_item path => update_item project_id path
  | Update_project path => update_project project_id path
  end.

(** A platform with two nodes and one issue. *)
Definition web01 : dict := {[ "label" := VStr "Web01: DMZ"; "id" := VInt 12 ]}.
Definition uploaded_files : dict := {[ "label" := VStr "Uploaded files"; "id" := VInt 5 ]}.
Definition sql_injection : dict := {[ "title" := VStr "SQL: Injection?"; "id" := VInt 7 ]}.

Definition small_remote : Environment :=
  scripted
    (λ _ c,
       match c with
       | get_all_nodes _ => Ok [web01; uploaded_files]
       | get_all_issues _ => Ok [sql_injection]
       | _ => Ok []
       end)
    (λ _ _, Ok ∅) (λ _, None).

(** A platform whose node list lacks the "Uploaded files" node. *)
Definition bare_remote : Environment :=
  scripted (λ _ c, match c with get_all_nodes _ => Ok [web01] | _ => Ok [] end)
    (λ _ _, Ok ∅) (λ _, None).

(** A properties file as [import_document_properties] writes it. *)
Definition properties_text : str :=
  "[DOCUMENT_PROPERTIES]" ++ [LF] ++ "Dradis.Client=ACME" ++ [LF]
    ++ "dradis.version=1.0" ++ [LF].

(** ** What becomes of an attachment reference *)

(** A reference is already present on the platform, or its file is on disk
    and goes up, or its file is missing. *)
Inductive fate := Present | Upload | Missing.

Global Instance fate_eq_dec : EqDecision fate.
Proof. solve_decision. Defined.

(** The file name the platform is asked about, and the local file. *)
Definition remote_name (a : attachment) : str :=
  replace "%20" " " (path_name (Path_of_str (a_path a))).

Definition local_file `{Environment} (file_path : Path) (a : attachment) : Path :=
  resolve (path_join file_path (replace "%20" " " (path_str (Path_of_str (a_path a))))).

Definition fate_of `{Environment} (existing : list dict) (file_path : Path)
    (disk : gmap Path str) (a : attachment) : fate :=
  if bool_decide (Exists (λ d, d !! ("filename" : str) = Some (VStr (remote_name a))) existing)
  then Present
  else if bool_decide (is_Some (disk !! local_file file_path a)) then Upload
  else Missing.

(** [/pro/projects/{project_id}/nodes/{node_id}/attachments]. *)
Definition attachments_dir (project_id : str) (node_id : scalar) : str :=
  "/pro/projects/" ++ project_id ++ "/nodes/" ++ format node_id ++ "/attachments".

(** The content after the references that are present or go up have been
    rewritten, one after the other, wherever their text occurs. *)
Definition rewritten (dradis_dir : str) (fates : attachment → fate)
    (attachments : list attachment) (content : str) : str :=
  fold_left (λ c a, match fates a with
                    | Missing => c
                    | _ => replace (a_match a) (dradis_reference dradis_dir a) c
                    end) attachments content.

(** The files that go up, in the order of their references. *)
Definition queued `{Environment} (file_path : Path) (fates : attachment → fate)
    (attachments : list attachment) : list Path :=
  map (local_file file_path) (filter (λ a, fates a = Upload) attachments).

(** The warnings for the missing files. *)
Definition missing_warnings `{Environment} (file_path : Path) (fates : attachment → fate)
    (attachments : list attachment) : list (level * str) :=
  map (λ a, (WARNING, path_str (local_file file_path a)
                        ++ " was not found. File missing? Skipping"))
      (filter (λ a, fates a = Missing) attachments).

(** A platform that knows the issue, rejects every update of an evidence
    and assigns the id 42 to a new one. *)
Definition stale_remote : Environment :=
  scripted
    (λ _ c, match c with get_all_issues _ => Ok [sql_injection] | _ => Ok [] end)
    (λ _ c,
       match c with
       | update_evidence _ _ _ _ _ => Raise (RemoteError 404)
       | create_evidence _ _ _ _ => Ok {[ "id" := VInt 42 ]}
       | _ => Ok ∅
       end)
    (λ _, None).

(** An evidence file that carries the id 41. *)
Definition evidence_path : Path :=
  Path_of_str "proj/Nodes/web01 dmz/Evidences/SQL Injection/e1.textile".

Definition stale_evidence : str := "Details" ++ evidence_id_block "41".

(** A node that already holds [a.png]. *)
Definition attachment_remote : Environment :=
  scripted
    (λ _ c,
       match c with
       | get_all_attachments _ _ => Ok [ {[ "filename" := VStr "a.png" ]} ]
       | get_all_issues _ => Ok [sql_injection]
       | _ => Ok []
       end)
    (λ _ _, Ok ∅) (λ _, None).

(** A content with three references: one listed remotely, one new and on
    disk, one whose file is missing. *)
Definition three_references : str :=
  "See !img/a.png! then !img/new%20shot.png(Login)! and !img/gone.png!".

Definition three_references_rewritten : str :=
  "See !/pro/projects/1/nodes/12/attachments/a.png! then "
    ++ "!/pro/projects/1/nodes/12/attachments/new%20shot.png(Login)! and !img/gone.png!".

(** ** The replacement as a relation *)

(** [replaced old new s r]: [r] is [s] with the occurrences of [old], taken
    from the left without overlap, replaced by [new]. *)
Inductive replaced (old new : str) : str → str → Prop :=
  | replaced_nil : replaced old new [] []
  | replaced_here rest r :
      replaced old new rest r → replaced old new (old ++ rest) (new ++ r)
  | replaced_skip c s r :
      strip_prefix old (c :: s) = None → replaced old new s r →
      replaced old new (c :: s) (c :: r).

(** A platform that knows the issue, lists [a.png] on the node, assigns
    the id 42 to a new evidence and accepts its update. *)
Definition assigning_remote : Environment :=
  scripted
    (λ _ c,
       match c with
       | get_all_issues _ => Ok [sql_injection]
       | get_all_attachments _ _ => Ok [ {[ "filename" := VStr "a.png" ]} ]
       | _ => Ok []
       end)
    (λ _ c,
       match c with
       | create_evidence _ _ _ _ => Ok {[ "id" := VInt 42 ]}
       | _ => Ok ∅
       end)
    (λ _, None).

(** An evidence without an id that shows a screenshot, and its content
    once the reference is rewritten. *)
Definition new_evidence_text : str := "Shot: !img/a.png!" ++ [LF] ++ "Observed on login.".

Definition new_evidence_content : str :=
  "Shot: !/pro/projects/1/nodes/12/attachments/a.png!" ++ [LF] ++ "Observed on login.".

(** An evidence whose EvidenceID field is empty. *)
Definition empty_field_text : str := "Steps" ++ [LF] ++ "#[EvidenceID]#" ++ [LF].


(** ** Outcomes of a request whose reply is not used *)

(** The outcome of a statement that drops the value of [r]. *)
Definition discard {A} (r : result A) : result () :=
  match r with
  | Ok _ => Ok ()
  | Raise e => Raise e
  end.

(** ** Conversion (dradismd.py, lines 779-947) *)

(** [replace_unecessary_escape]: eleven replacements, one after the other.
    In the Python literals a backslash before a character that opens no
    escape sequence stands for itself, and two backslashes for one. *)
Definition replace_unecessary_escape (text : str) : str :=
  let text := replace "\<" "<" text in
  let text := replace "\>" ">" text in
  let text := replace "\\" "\" text in
  let text := replace "\*" "*" text in
  let text := replace "\_" "_" text in
  let text := replace "\[" "[" text in
  let text := replace "\]" "]" text in
  let text := replace "\#" "#" text in
  let text := replace "\|" "|" text in
  let text := replace "\~" "~" text in
  let text := replace "\.\." ".." text in
  text.

(** The characters whose escape is taken back one by one. *)
Definition escaped_chars : str := "<>*_[]#|~".

(** A text given with a mark on the characters that are written with a
    backslash before them; a mark on a character outside [escaped_chars]
    has no effect. *)
Definition plain (marked : list (ascii * bool)) : str := map fst marked.

Definition escape_in (chars : str) (marked : list (ascii * bool)) : str :=
  flat_map (λ cb : ascii * bool,
              if cb.2 && bool_decide (cb.1 ∈ chars) then ["\"%char; cb.1] else [cb.1]) marked.

Definition escape (marked : list (ascii * bool)) : str := escape_in escaped_chars marked.

(** [p.stem]. *)
Definition path_stem (p : Path) : str :=
  let name := path_name p in
  match rfind "." name with
  | Some i => if (0 <? i)%nat && (i <? length name - 1)%nat then take i name else name
  | None => name
  end.

(** [p.unlink()]. *)
Definition unlink (p : Path) : M () := λ σ,
  match files σ !! p with
  | Some _ =>
      (Ok (), mkSession (api_calls σ) (issue_list σ) (dradis_nodes σ) (delete p (files σ)) (log σ))
  | None => (Raise FileNotFoundError, σ)
  end.

(** [p.write_text(data, ...)] where [data] may be [None]: the type of
    [data] is tested before the file is opened. *)
Definition write_text_value (p : Path) (data : option str) : M () :=
  match data with
  | Some text => write_text p text
  | None => lift (Raise TypeError)
  end.

(** [d[key]] for a dictionary given by its items. *)
Fixpoint item {A} (d : list (str * A)) (key : str) : result A :=
  match d with
  | [] => Raise KeyError
  | (k, v) :: rest => if decide (k = key) then Ok v else item rest key
  end.

(** What the conversion functions reach outside dradismd.py: pypandoc,
    the dialogue that offers to install pandoc, [re.sub] with [FIELD_REGEX],
    [html.unescape], and the recursive listing of a directory. *)
Class Converter := {
  (** [pypandoc.get_pandoc_version()], [get_pandoc_path()] and
      [get_pandoc_formats()], as the text a debug record shows *)
  get_pandoc_version : result str;
  get_pandoc_path : result str;
  get_pandoc_formats : result str;
  (** [get_pandoc()]: the question on the console, and the download *)
  get_pandoc : M ();
  (** [re.sub(FIELD_REGEX, "\g<1>\r\n\r\n\g<2>", content)] *)
  sub_fields : str → result str;
  (** [pypandoc.convert_text(content, to, format=..., extra_args=["--wrap=none"])] *)
  convert_text : str → str → str → result str;
  (** [html.unescape] *)
  html_unescape : str → str;
  (** [Path(p).rglob("*")] as a list *)
  rglob : Path → list Path;
}.

Module Conversion.
Section Conversion.
Context `{Environment} `{Converter}.

(** [pandoc_installed]. *)
Definition pandoc_installed : M bool :=
  match get_pandoc_version with
  | Ok _ => mret true
  | Raise _ =>
      log_record WARNING "Pandoc is not installed or not detected in PATH";;
      mret false
  end.

Definition disabled_pandoc_plugins : list str := ["autolink_bare_uris"; "gfm_auto_identifiers"].

(** [convert]; the result is [None] where the function falls off its
    end. *)
Definition convert (content input_format output_format : str) : M (option str) :=
  installed ← pandoc_installed;
  if negb installed then get_pandoc;; mret None
  else
    let output_format : str :=
      if decide (output_format = "markdown") then "gfm" else output_format in
    let input_format : str :=
      if decide (input_format = "markdown")
      then fold_left (λ input_format plugin, input_format ++ "-" ++ plugin)
             disabled_pandoc_plugins "gfm"
      else input_format in
    if decide (input_format ≠ output_format) then
      try_except
        (content ← lift (sub_fields content);
         output ← lift (convert_text content output_format input_format);
         let output := replace_unecessary_escape output in
         let output :=
           if decide (output_format = "textile") then html_unescape output else output in
         mret (Some output))
        (λ _,
           log_record ERROR
             "Content could not be converted. Is this a valid file markup file (md/textile)?";;
           mret None)
    else mret None.

(** [convert_file]. *)
Definition convert_file (file_path : Path) (input_format output_format : str)
    (delete_input_file : bool) : M () :=
  output_extension ← lift (item SUPPORTED_FORMAT output_format);
  let new_file :=
    Path_of_str (path_str (path_join (path_parent file_path) (path_stem file_path))
                   ++ output_extension) in
  content ← read_text file_path;
  new_content ← convert content input_format output_format;
  write_text_value new_file new_content;;
  if delete_input_file then unlink file_path else mret ().

(** [convert_files]. *)
Definition convert_files (path : str) (output_format : str) : M () :=
  let path := Path_of_str (rstrip DQUOTE path) in
  lift get_pandoc_version;;
  lift get_pandoc_path;;
  lift get_pandoc_formats;;
  if decide (output_format ∉ map fst SUPPORTED_FORMAT) then
    log_record ERROR ("The format '" ++ output_format ++ "' is not supported.")
  else if is_dir path then
    for_each (rglob path) (λ file,
      let extension := path_suffix file in
      if decide (extension ∈ SUPPORTED_INPUT) then
        input_format ← lift (guess_format extension);
        convert_file file input_format output_format false
      else mret ())
  else
    path_is_file ← is_file path;
    if path_is_file : bool then
      let extension := path_suffix path in
      if decide (extension ∈ SUPPORTED_INPUT) then
        input_format ← lift (guess_format extension);
        convert_file path input_format output_format false
      else
        log_record WARNING ("Extension " ++ extension
                             ++ " not supported. Expecting ['.textile', '.md']")
    else
      log_record ERROR (path_str path
                         ++ " is not a folder or file. Please provide a valid folder or file").

End Conversion.
End Conversion.

(** ** Well-formed paths *)

(** A path component as pathlib keeps it: not empty, not [.], without a
    slash. *)
Definition simple_name (x : str) : Prop := x ≠ [] ∧ x ≠ "." ∧ "/"%char ∉ x.

(** The paths that pathlib builds on POSIX. *)
Definition wf_path (p : Path) : Prop :=
  anchor p ∈ [[]; "/"; "//"] ∧ Forall simple_name (parts p).

(** A computation that sends no request, keeps the caches and removes no
    file. *)
Definition additive {A} (m : M A) : Prop :=
  ∀ σ, api_calls (m σ).2 = api_calls σ ∧ issue_list (m σ).2 = issue_list σ ∧
       dradis_nodes (m σ).2 = dradis_nodes σ ∧
       ∀ p, is_Some (files σ !! p) → is_Some (files (m σ).2 !! p).

(** The record that [convert] logs when the conversion raised. *)
Definition CONVERSION_FAILED : level * str :=
  (ERROR, "Content could not be converted. Is this a valid file markup file (md/textile)?").

(** A converter with pandoc at hand, given what pandoc returns and the
    recursive listings; the fields of a text are left as they are and no
    HTML entity is decoded. *)
Definition scripted_converter (ct : str → str → str → result str) (tree : Path → list Path)
    : Converter :=
  {| get_pandoc_version := Ok "3.1.9";
     get_pandoc_path := Ok "/usr/bin/pandoc";
     get_pandoc_formats := Ok "(['gfm', 'textile'], ['gfm', 'textile'])";
     get_pandoc := mret ();
     sub_fields := λ content, Ok content;
     convert_text := ct;
     html_unescape := λ text, text;
     rglob := tree |}.

(** A pandoc that renders every text as a one-line heading. *)
Definition heading_pandoc : Converter :=
  scripted_converter (λ _ _ _, Ok "h1. Report") (λ _, []).

(** A machine without pandoc. *)
Definition no_pandoc : Converter :=
  {| get_pandoc_version := Raise FileNotFoundError;
     get_pandoc_path := Raise FileNotFoundError;
     get_pandoc_formats := Raise FileNotFoundError;
     get_pandoc := mret ();
     sub_fields := λ content, Ok content;
     convert_text := λ _ _ _, Raise FileNotFoundError;
     html_unescape := λ text, text;
     rglob := λ _, [] |}.

(** ** The import side (dradismd.py, lines 254-287) *)

(** What the import functions reach besides the requests of the exporter:
    the listing of the document properties, whose records are kept with
    their keys in the order of the reply, and the creation of a directory.
    The listing is a request like the others; what it does to the session is
    left to the instance. *)
Class Importer := {
  (** [self.api.get_all_docprops(project_id)] *)
  get_all_docprops : str → M (list (list (str * scalar)));
  (** [p.mkdir(exist_ok=True)] *)
  mkdir : Path → result ();
}.

Definition DRADIS_FORMAT : str := "textile".

(** The line that [import_document_properties] writes for one property. *)
Definition property_line (kv : str * scalar) : str := kv.1 ++ "=" ++ format kv.2 ++ [LF].

Section Import_side.
Context `{Environment} `{Converter} `{Importer}.

(** [import_document_properties]. *)
Definition import_document_properties (project_path : Path) (project_id : str) : M () :=
  document_properties ← get_all_docprops project_id;
  let file := path_child project_path "document_properties.ini" in
  let file_content :=
    fold_left (λ file_content document_property,
                 fold_left (λ file_content kv, file_content ++ property_line kv)
                   document_property file_content)
      document_properties ("[DOCUMENT_PROPERTIES]" ++ [LF]) in
  write_text file file_content.

(** [issue[key]] where a [str] is needed: [clean_filename] and [len]
    raise on another value. *)
Definition str_of (v : scalar) (e : exception) : result str :=
  match v with
  | VStr s => Ok s
  | _ => Raise e
  end.

(** [import_issues]. *)
Definition import_issues (path : Path) (project_id : str) (format : str) : M () :=
  let path := path_child path "Issues" in
  lift (mkdir path);;
  fetch_issue_list project_id;;
  issues ← get_issue_list;
  for_each issues (λ issue,
    title ← lift (getitem issue "title");
    issue_content ← lift (getitem issue "text");
    title ← lift (str_of title AttributeError);
    let filename := clean_filename title ++ ".textile" in
    issue_content ← lift (str_of issue_content TypeError);
    let file := path_child path filename in
    write_text file issue_content;;
    if decide (format ≠ DRADIS_FORMAT)
    then Conversion.convert_file file "textile" format true
    else mret ()).

End Import_side.

(** The keys and values that a properties file gives back as they are: a
    key is not empty, has no space at either end, holds none of [=], [:] and
    the line ends, and does not open a comment or a section; a value has no
    space at either end and no line end. *)
Definition plain_key (k : str) : Prop :=
  k ≠ [] ∧ lstrip_ws k = k ∧ rstrip_ws k = k ∧
  Forall (λ c, c ≠ "="%char ∧ c ≠ ":"%char ∧ c ≠ LF ∧ c ≠ CR) k ∧
  startswith k "#" = false ∧ startswith k ";" = false ∧ startswith k "[" = false.

Definition plain_value (v : str) : Prop :=
  lstrip_ws v = v ∧ rstrip_ws v = v ∧ (LF ∉ v) ∧ (CR ∉ v).

(** Option values pass [BasicInterpolation] unchanged when they hold no
    percent sign. *)
Definition plain_interpolation `{Environment} : Prop :=
  ∀ (items : list (str * str)) (v : str), "%"%char ∉ v → interpolate items v = Ok v.

(** The text of a properties file with the given properties. *)
Definition properties_file (kvs : list (str * scalar)) : str :=
  "[DOCUMENT_PROPERTIES]" ++ [LF] ++ flat_map property_line kvs.

(** A platform that lists two document properties. *)
Definition docprops_importer : Importer :=
  {| get_all_docprops := λ _, mret [[("dradis.client", VStr "ACME")];
                                     [("Dradis.Version", VInt 2)]];
     mkdir := λ _, Ok () |}.

Global Instance plain_key_dec (k : str) : Decision (plain_key k).
Proof. unfold plain_key. apply _. Defined.

Global Instance plain_value_dec (v : str) : Decision (plain_value v).
Proof. unfold plain_value. apply _. Defined.

(** The file that [import_issues] writes for an issue titled [title], in
    the folder [Issues] of [path]. *)
Definition issue_file (path : Path) (title : str) : Path :=
  path_child (path_child path "Issues") (clean_filename title ++ ".textile").

(** The files after the issues of a listing were written one by one. *)
Definition issues_written (path : Path) (issues : list dict) (disk : gmap Path str)
    : gmap Path str :=
  fold_left (λ disk issue,
               match issue !! ("title" : str), issue !! ("text" : str) with
               | Some (VStr title), Some (VStr text) => <[issue_file path title := text]> disk
               | _, _ => disk
               end) issues disk.

(** An issue record as the listing gives it. *)
Definition issue_record (id : Z) (title text : str) : dict :=
  {[ "id" := VInt id; "title" := VStr title; "text" := VStr text ]}.

(** A platform with two issues whose titles differ in a character that
    file names cannot hold. *)
Definition colliding_remote : Environment :=
  scripted
    (λ _ c,
       match c with
       | get_all_issues _ =>
           Ok [issue_record 3 "XSS: stored" (issue_text "XSS: stored");
               issue_record 4 "XSS stored" (issue_text "XSS stored")]
       | _ => Ok []
       end)
    (λ _ _, Ok ∅) (λ _, None).

(** A platform with two issues of different names. *)
Definition two_issues_remote : Environment :=
  scripted
    (λ _ c,
       match c with
       | get_all_issues _ =>
           Ok [issue_record 3 "XSS: stored" (issue_text "XSS: stored");
               issue_record 4 "Weak TLS" (issue_text "Weak TLS")]
       | _ => Ok []
       end)
    (λ _ _, Ok ∅) (λ _, None).

(** Directories are created on request. *)
Definition plain_importer : Importer :=
  {| get_all_docprops := λ _, mret []; mkdir := λ _, Ok () |}.

(** A computation after which the local files are the ones there were
    before: none is created and none is removed. *)
Definition keeps_names {A} (m : M A) : Prop :=
  ∀ σ, dom (files (m σ).2) = dom (files σ).
(** * Properties *)

(** ** The state-passing layer *)

Lemma bind_run {A B} (m : M A) (k : A → M B) (σ : session) :
  (m ≫= k) σ =
  match m σ with
  | (Ok a, σ') => k a σ'
  | (Raise e, σ') => (Raise e, σ')
  end.
Proof. reflexivity. Qed.

Lemma bind_ok {A B} (m : M A) (k : A → M B) σ a σ' :
  m σ = (Ok a, σ') → (m ≫= k) σ = k a σ'.
Proof. intros Hm. by rewrite bind_run, Hm. Qed.

Lemma bind_raise {A B} (m : M A) (k : A → M B) σ e σ' :
  m σ = (Raise e, σ') → (m ≫= k) σ = (Raise e, σ').
Proof. intros Hm. by rewrite bind_run, Hm. Qed.

Lemma ret_run {A} (a : A) σ : (mret a : M A) σ = (Ok a, σ).
Proof. reflexivity. Qed.

Lemma lift_run {A} (r : result A) σ : lift r σ = (r, σ).
Proof. reflexivity. Qed.

(** A loop stops at the first item whose body raises: the items after it
    are not visited. *)
Lemma for_each_raise {A} (body : A → M ()) (done : list A) (x : A) (rest : list A) σ σ1 σ2 e :
  for_each done body σ = (Ok (), σ1) →
  body x σ1 = (Raise e, σ2) →
  for_each (done ++ x :: rest) body σ = (Raise e, σ2).
Proof.
  revert σ. induction done as [|y done IH]; intros σ Hdone Hx; simpl in *.
  - injection Hdone as <-. by rewrite bind_run, Hx.
  - rewrite bind_run in Hdone |- *. destruct (body y σ) as [[[]|e'] σ']; [|done].
    by apply IH.
Qed.

(** ** Sanitized names *)

Lemma clean_filename_filter (s : str) :
  clean_filename s = filter (λ x, x ∉ illegal_chars) s.
Proof.
  unfold clean_filename. generalize illegal_chars as cs. intros cs.
  revert s. induction cs as [|c cs IH]; intros s; cbn [fold_left].
  - induction s as [|x s IHs]; [done|].
    rewrite filter_cons_True by apply not_elem_of_nil. by f_equal.
  - rewrite IH. unfold remove_char. rewrite list_filter_filter.
    apply list_filter_iff. intros x. rewrite not_elem_of_cons. tauto.
Qed.

Lemma clean_filename_idempotent (x : str) :
  clean_filename (clean_filename x) = clean_filename x.
Proof.
  rewrite !clean_filename_filter, list_filter_filter.
  apply list_filter_iff. tauto.
Qed.

Lemma clean_filename_legal (x : str) (c : ascii) :
  c ∈ clean_filename x → c ∉ illegal_chars.
Proof. rewrite clean_filename_filter, list_elem_of_filter. tauto. Qed.

Lemma get_item_from_dict_list_found (dict_list : list dict) (key m : str) (d : dict) :
  get_item_from_dict_list dict_list key m = Ok (Some d) ↔
  ∃ before after s,
    dict_list = before ++ d :: after ∧ d !! key = Some (VStr s) ∧ names_match s m ∧
    Forall (λ d', ∃ s', d' !! key = Some (VStr s') ∧ ¬ names_match s' m) before.
Proof.
  unfold names_match. induction dict_list as [|d0 l IH]; simpl.
  - split; [done|]. intros (before & after & s & Hl & _). by destruct before.
  - assert (Hhead : ∀ before after s,
      d0 :: l = before ++ d :: after → d !! key = Some (VStr s) →
      Forall (λ d', ∃ s', d' !! key = Some (VStr s')
                ∧ lower (clean_filename s') ≠ lower (clean_filename m)) before →
      ∃ s0, d0 !! key = Some (VStr s0)).
    { intros [|d1 before] after s Hl Hs Hb; simplify_eq/=; [by exists s|].
      apply Forall_cons in Hb as [(s' & Hs' & _) _]. by exists s'. }
    destruct (d0 !! key) as [[| |s0]|] eqn:Hd0;
      try (split; [done|]; intros (before & after & s & Hl & Hs & Hm & Hb);
           destruct (Hhead _ _ _ Hl Hs Hb) as [? ?]; congruence).
    case_decide as Hm0.
    + split.
      * intros [= <-]. exists [], l, s0. by repeat split.
      * intros ([|d1 before] & after & s & Hl & Hs & Hm & Hb); simplify_eq/=; [done|].
        apply Forall_cons in Hb as [(s' & Hs' & Hn) _]. congruence.
    + rewrite IH. split.
      * intros (before & after & s & -> & Hs & Hm & Hb).
        exists (d0 :: before), after, s. repeat split; [done..|].
        apply Forall_cons. split; [|done]. by exists s0.
      * intros ([|d1 before] & after & s & Hl & Hs & Hm & Hb); simplify_eq/=.
        apply Forall_cons in Hb as [_ Hb]. by exists before, after, s.
Qed.

Lemma get_item_from_dict_list_absent (dict_list : list dict) (key m : str) :
  get_item_from_dict_list dict_list key m = Ok None ↔
  Forall (λ d', ∃ s', d' !! key = Some (VStr s') ∧ ¬ names_match s' m) dict_list.
Proof.
  unfold names_match. induction dict_list as [|d0 l IH]; simpl.
  - split; [by constructor|done].
  - destruct (d0 !! key) as [[| |s0]|] eqn:Hd0;
      try (split; [done|]; intros [(s' & Hs' & _) _]%Forall_cons; congruence).
    case_decide as Hm0.
    + split; [done|]. intros [(s' & Hs' & Hn) _]%Forall_cons. congruence.
    + rewrite IH. split.
      * intros Hl. apply Forall_cons. split; [by exists s0|done].
      * by intros [_ Hl]%Forall_cons.
Qed.

Lemma get_item_from_dict_list_names (dict_list : list dict) (key m m' : str) :
  names_match m m' →
  get_item_from_dict_list dict_list key m' = get_item_from_dict_list dict_list key m.
Proof.
  unfold names_match. intros Hm. induction dict_list as [|d0 l IH]; simpl; [done|].
  destruct (d0 !! key) as [[| |s0]|]; [done..| |done].
  rewrite IH. repeat case_decide; congruence.
Qed.



(** ** Fields *)

Lemma strip_prefix_Some (p s r : str) : strip_prefix p s = Some r ↔ s = p ++ r.
Proof.
  revert s. induction p as [|a p IH]; intros [|b s]; simpl; try (split; congruence).
  case_decide as Hab.
  - subst b. rewrite IH. split; congruence.
  - split; congruence.
Qed.

Lemma contains_occurs_in (p s : str) : contains p s = true ↔ occurs_in p s.
Proof.
  unfold occurs_in. induction s as [|c s IH]; simpl.
  - destruct (strip_prefix p []) as [r|] eqn:Hp.
    + apply strip_prefix_Some in Hp. split; [|done]. intros _. by exists [], r.
    + split; [done|]. intros (a & b & Hs). destruct a; [|done].
      simpl in Hs. apply strip_prefix_Some in Hs. congruence.
  - destruct (strip_prefix p (c :: s)) as [r|] eqn:Hp.
    + apply strip_prefix_Some in Hp. split; [|done]. intros _. by exists [], r.
    + rewrite IH. split.
      * intros (a & b & ->). by exists (c :: a), b.
      * intros ([|c' a] & b & Hs).
        -- simpl in Hs. apply strip_prefix_Some in Hs. congruence.
        -- injection Hs as -> ->. by exists a, b.
Qed.

Lemma contains_false (p s : str) : contains p s = false ↔ ¬ occurs_in p s.
Proof. rewrite <-contains_occurs_in. by destruct (contains p s). Qed.

Lemma span_app (p : ascii → bool) (s : str) : (span p s).1 ++ (span p s).2 = s.
Proof.
  induction s as [|c s IH]; simpl; [done|].
  destruct (p c); [|done]. destruct (span p s); simpl in *. by f_equal.
Qed.

Lemma span_all (p : ascii → bool) (s : str) : Forall (λ c, p c = true) (span p s).1.
Proof.
  induction s as [|c s IH]; simpl; [by constructor|].
  destruct (p c) eqn:Hc; [|by constructor]. destruct (span p s); simpl in *. by constructor.
Qed.

Lemma span_stop (p : ascii → bool) (s : str) :
  match (span p s).2 with
  | [] => True
  | c :: _ => p c = false
  end.
Proof.
  induction s as [|c s IH]; simpl; [done|].
  destruct (p c) eqn:Hc; [|done]. by destruct (span p s).
Qed.

Lemma field_match_occurs (marker s value rest : str) :
  field_match marker s = Some (value, rest) → ∃ b, s = marker ++ b.
Proof.
  unfold field_match. destruct (strip_prefix marker s) as [r0|] eqn:Hp; [|done].
  intros _. exists r0. by apply strip_prefix_Some.
Qed.

Lemma field_search_occurs (marker s value : str) :
  field_search marker s = Some value → occurs_in marker s.
Proof.
  induction s as [|c s IH]; simpl.
  - destruct (field_match marker []) as [[v r]|] eqn:Hm; [|done].
    intros _. apply field_match_occurs in Hm as [b Hb]. by exists [], b.
  - destruct (field_match marker (c :: s)) as [[v r]|] eqn:Hm.
    + intros _. apply field_match_occurs in Hm as [b Hb]. by exists [], b.
    + intros (a & b & ->)%IH. by exists (c :: a), b.
Qed.

Lemma field_search_absent (marker s : str) :
  ¬ occurs_in marker s → field_search marker s = None.
Proof.
  intros Hno. destruct (field_search marker s) as [v|] eqn:Hs; [|done].
  by apply field_search_occurs in Hs.
Qed.

Lemma span_exact (p : ascii → bool) (a b : str) :
  Forall (λ c, p c = true) a →
  match b with [] => True | c :: _ => p c = false end →
  span p (a ++ b) = (a, b).
Proof.
  intros Ha Hb. induction Ha as [|c a Hc _ IH]; simpl.
  - destruct b as [|c b]; [done|]. simpl. by rewrite Hb.
  - by rewrite Hc, IH.
Qed.

(** The shape of a field: the marker, further [#], line ends, and a value
    that runs to the end of its line. *)
Lemma field_match_field (marker hashes eols value rest : str) :
  Forall (λ c, is_hash c = true) hashes →
  eols ≠ [] → Forall (λ c, is_eol c = true) eols →
  value ≠ [] → Forall (λ c, not_eol c = true) value →
  match rest with [] => True | c :: _ => is_eol c = true end →
  field_match marker (marker ++ hashes ++ eols ++ value ++ rest) = Some (value, rest).
Proof.
  intros Hhashes Hne Heols Hnv Hvalue Hrest. unfold field_match.
  assert (Hp : strip_prefix marker (marker ++ hashes ++ eols ++ value ++ rest)
               = Some (hashes ++ eols ++ value ++ rest)) by by apply strip_prefix_Some.
  rewrite Hp. rewrite (span_exact is_hash hashes); [|done|].
  - rewrite (span_exact is_eol eols); [|done|].
    + destruct eols as [|e eols]; [done|].
      rewrite (span_exact not_eol value); [|done|].
      * by destruct value.
      * destruct rest as [|c rest]; [done|]. unfold not_eol. by rewrite Hrest.
    + destruct value as [|c value]; [done|]. apply Forall_cons in Hvalue as [Hc _].
      simpl. unfold not_eol in Hc. by destruct (is_eol c).
  - destruct eols as [|e eols]; [done|]. apply Forall_cons in Heols as [He _].
    simpl. unfold is_eol, is_hash in *. apply bool_decide_eq_true in He.
    apply bool_decide_eq_false. by destruct He as [-> | ->].
Qed.

Lemma field_match_head (m0 : ascii) (marker : str) (c : ascii) (s : str) :
  c ≠ m0 → field_match (m0 :: marker) (c :: s) = None.
Proof. intros Hc. unfold field_match. simpl. by case_decide. Qed.

Lemma field_search_skip (m0 : ascii) (marker before s : str) :
  m0 ∉ before → field_search (m0 :: marker) (before ++ s) = field_search (m0 :: marker) s.
Proof.
  intros Hbefore. induction before as [|c before IH]; [done|].
  apply not_elem_of_cons in Hbefore as [Hc Hbefore].
  cbn [app field_search]. rewrite field_match_head by done. by apply IH.
Qed.

Lemma field_search_here (marker s value rest : str) :
  field_match marker s = Some (value, rest) → field_search marker s = Some value.
Proof. intros Hm. destruct s; simpl; by rewrite Hm. Qed.

Lemma not_eol_span (s : str) : Forall (λ c, not_eol c = true) (span not_eol s).1.
Proof. apply span_all. Qed.

(** A value line that is itself a marker yields the empty title. *)
Lemma get_title_next_marker (content title : str) :
  field_search TITLE_MARKER content = Some ("#[" ++ title) → get_title content = Ok "".
Proof. unfold get_title. by intros ->. Qed.

Lemma get_title_found (content title : str) :
  field_search TITLE_MARKER content = Some title → startswith title "#[" = false →
  get_title content = Ok title.
Proof. unfold get_title. by intros -> ->. Qed.

Section Export_properties.
Context `{Environment}.

Lemma get_textile_content_textile (file : Path) (text : str) (σ : session) :
  path_suffix file = ".textile" → files σ !! file = Some text →
  get_textile_content file σ = (Ok (Some text), σ).
Proof.
  intros Hsuffix Hfile. unfold get_textile_content. rewrite Hsuffix.
  case_decide as Hne; [done|]. unfold read_text. by rewrite bind_run, Hfile.
Qed.

(** C1: on a non-empty textile file without the marker [#[Title]#],
    [get_title] raises [AttributeError] out of [None.group(1)], and
    [export_issue] and [export_content_block] end with that exception,
    without a warning and without a request; where the line after the
    marker is itself a marker, [get_title] returns the empty string. *)
Theorem export_without_title_raises (project_id : str) (file : Path) (content : str)
    (σ : session) :
  path_suffix file = ".textile" → files σ !! file = Some content → content ≠ [] →
  contains TITLE_MARKER content = false →
  get_title content = Raise AttributeError ∧
  export_issue project_id file σ = (Raise AttributeError, σ) ∧
  export_content_block project_id file σ = (Raise AttributeError, σ) ∧
  (∀ before after : str, "#"%char ∉ before →
     get_title (before ++ TITLE_MARKER ++ [LF] ++ "#[" ++ after) = Ok "").
Proof.
  intros Hsuffix Hfile Hne Hno%contains_false.
  assert (Htitle : get_title content = Raise AttributeError).
  { unfold get_title. by rewrite field_search_absent. }
  split_and!; [done| | |].
  - unfold export_issue. rewrite bind_run, (get_textile_content_textile _ content) by done.
    destruct content as [|c content]; [done|]. by rewrite bind_run, lift_run, Htitle.
  - unfold export_content_block.
    rewrite bind_run, (get_textile_content_textile _ content) by done.
    destruct content as [|c content]; [done|]. by rewrite bind_run, lift_run, Htitle.
  - intros before after Hbefore.
    apply (get_title_next_marker _ (span not_eol after).1).
    unfold TITLE_MARKER. cbn [scons snil]. rewrite field_search_skip by done.
    apply (field_search_here _ _ _ (span not_eol after).2).
    rewrite <-(span_app not_eol after) at 1.
    apply (field_match_field ("#[Title]#") [] [LF] ("#[" ++ (span not_eol after).1)
             (span not_eol after).2); try done.
    + by repeat constructor.
    + repeat (apply Forall_cons; split; [done|]). apply span_all.
    + pose proof (span_stop not_eol after) as Hstop.
      destruct (span not_eol after).2 as [|c r]; [done|].
      unfold not_eol in Hstop. by destruct (is_eol c).
Qed.

End Export_properties.

Lemma export_without_title_raises_witness :
  let σ := session_of [("Issues/note.textile", "Just a note")] in
  @export_issue empty_remote "7" (Path_of_str "Issues/note.textile") σ
  = (Raise AttributeError, σ).
Proof.
  intros σ.
  apply (@export_without_title_raises empty_remote "7" (Path_of_str "Issues/note.textile")
           "Just a note" σ); [reflexivity | reflexivity | discriminate | reflexivity].
Defined.

(** ** A failed request ends the batch *)

Section Batch.
Context `{Environment}.

(** C2: the loop over the issue files stops at the first file whose
    [create_issue] raises.  When the files before it were exported and the
    file is a valid new issue whose creation the platform rejects with [e],
    the loop ends with [e] right after that request: the files after it are
    not read and no request is sent for them. *)
Theorem issue_batch_stops_at_failed_create (project_id : str) (before after : list Path)
    (file : Path) (raw title : str) (σ σ1 σ2 : session) (e : exception) :
  for_each before (export_issue project_id) σ = (Ok (), σ1) →
  path_suffix file = ".textile" → files σ1 !! file = Some raw → raw ≠ [] →
  get_title raw = Ok title → title ≠ [] →
  fetch_issue_list project_id σ1 = (Ok (), σ2) →
  get_item_from_dict_list (issue_list σ2) "title" title = Ok None →
  reply_item (api_calls σ2) (create_issue project_id raw) = Raise e →
  for_each (before ++ file :: after) (export_issue project_id) σ
  = (Raise e,
     mkSession (api_calls σ2 ++ [create_issue project_id raw])
       (issue_list σ2) (dradis_nodes σ2) (files σ2) (log σ2)).
Proof.
  intros Hbefore Hsuffix Hfile Hraw Htitle Hne Hfetch Habsent Hreply.
  apply (for_each_raise _ _ _ _ _ σ1); [done|].
  unfold export_issue. rewrite bind_run, (get_textile_content_textile _ raw) by done.
  destruct raw as [|c raw]; [done|]. rewrite bind_run, lift_run, Htitle.
  destruct title as [|t title]; [done|].
  rewrite bind_run, Hfetch. rewrite bind_run. unfold get_issue_list at 1.
  rewrite bind_run, lift_run, Habsent. rewrite bind_run. unfold api_item at 1.
  by rewrite Hreply.
Qed.

End Batch.

Lemma issue_batch_stops_at_failed_create_witness :
  api_calls
    (for_each [Path_of_str "proj/Issues/a.textile"; Path_of_str "proj/Issues/b.textile";
               Path_of_str "proj/Issues/c.textile"]
       (@export_issue batch_remote "1") batch_session).2
  = [get_all_issues "1"; create_issue "1" (issue_text "A");
     get_all_issues "1"; create_issue "1" (issue_text "B")].
Proof.
  pose (σ1 := (@export_issue batch_remote "1" (Path_of_str "proj/Issues/a.textile")
                 batch_session).2).
  pose (σ2 := (@fetch_issue_list batch_remote "1" σ1).2).
  pose proof (@issue_batch_stops_at_failed_create batch_remote "1"
                [Path_of_str "proj/Issues/a.textile"] [Path_of_str "proj/Issues/c.textile"]
                (Path_of_str "proj/Issues/b.textile") (issue_text "B") "B"
                batch_session σ1 σ2 (RemoteError 500)) as Hrun.
  cbn [app] in Hrun. rewrite Hrun;
    [reflexivity | reflexivity | reflexivity | reflexivity | discriminate | reflexivity
    | discriminate | reflexivity | reflexivity | reflexivity].
Defined.

(** The whole of [update_project] on that folder: it ends with the
    exception of the second file, and sends nothing for the third. *)
Lemma update_project_stops_at_failed_issue :
  (@update_project batch_remote "1" "proj" batch_session).1 = Raise (RemoteError 500) ∧
  api_calls (@update_project batch_remote "1" "proj" batch_session).2
  = [get_project "1"; get_all_issues "1"; create_issue "1" (issue_text "A");
     get_all_issues "1"; create_issue "1" (issue_text "B")].
Proof. vm_compute. split; reflexivity. Qed.

(** ** The cached listings *)

Section Caches.
Context `{Environment}.

Lemma steady_pure {A} e (m : M A) : (∀ σ, (m σ).2 = σ) → steady e m.
Proof.
  intros Hm σ _. rewrite Hm. split; [done|]. exists []. by rewrite app_nil_r.
Qed.

Lemma steady_ret {A} e (a : A) : steady e (mret a).
Proof. by apply steady_pure. Qed.

Lemma steady_lift {A} e (r : result A) : steady e (lift r).
Proof. by apply steady_pure. Qed.

Lemma steady_bind {A B} e (m : M A) (k : A → M B) :
  steady e m → (∀ a, steady e (k a)) → steady e (m ≫= k).
Proof.
  intros Hm Hk σ Hσ. rewrite bind_run. destruct (Hm σ Hσ) as (Hc & new & Hcalls & Hnew).
  destruct (m σ) as [[a|x] σ1]; simpl in *; [|eauto].
  destruct (Hk a σ1) as (Hc' & new' & Hcalls' & Hnew'); [congruence|].
  split; [congruence|]. exists (new ++ new'). split.
  - by rewrite Hcalls', Hcalls, app_assoc.
  - by apply Forall_app.
Qed.

Lemma steady_try_except {A} e (m : M A) (handler : exception → M A) :
  steady e m → (∀ x, steady e (handler x)) → steady e (try_except m handler).
Proof.
  intros Hm Hk σ Hσ. unfold try_except. destruct (Hm σ Hσ) as (Hc & new & Hcalls & Hnew).
  destruct (m σ) as [[a|x] σ1]; simpl in *; [eauto|].
  destruct (Hk x σ1) as (Hc' & new' & Hcalls' & Hnew'); [congruence|].
  split; [congruence|]. exists (new ++ new'). split.
  - by rewrite Hcalls', Hcalls, app_assoc.
  - by apply Forall_app.
Qed.

Lemma steady_for_each {A} e (xs : list A) (body : A → M ()) :
  (∀ x, steady e (body x)) → steady e (for_each xs body).
Proof.
  intros Hbody. induction xs as [|x xs IH]; simpl.
  - apply steady_ret.
  - by apply steady_bind.
Qed.

Lemma steady_for_fold {A S} e (xs : list A) (body : S → A → M S) (s : S) :
  (∀ s x, steady e (body s x)) → steady e (for_fold xs body s).
Proof.
  intros Hbody. revert s. induction xs as [|x xs IH]; intros s; simpl.
  - apply steady_ret.
  - by apply steady_bind.
Qed.

Lemma steady_log_record e l msg : steady e (log_record l msg).
Proof.
  intros σ _. split; [by destruct e|]. exists []. by rewrite app_nil_r.
Qed.

Lemma steady_write_text e p text : steady e (write_text p text).
Proof.
  intros σ _. split; [by destruct e|]. exists []. by rewrite app_nil_r.
Qed.

Lemma steady_read_text e p : steady e (read_text p).
Proof. apply steady_pure. intros σ. unfold read_text. by destruct (files σ !! p). Qed.

Lemma steady_is_file e p : steady e (is_file p).
Proof. by apply steady_pure. Qed.

Lemma steady_get_files_in_folder e p : steady e (get_files_in_folder p).
Proof.
  apply steady_pure. intros σ. unfold get_files_in_folder. by destruct (iterdir p).
Qed.

Lemma steady_get_folders_in_folder e p : steady e (get_folders_in_folder p).
Proof.
  unfold get_folders_in_folder. destruct (iterdir p); [apply steady_ret|apply steady_lift].
Qed.

Lemma steady_get_issue_list e : steady e get_issue_list.
Proof. by apply steady_pure. Qed.

Lemma steady_get_dradis_nodes e : steady e get_dradis_nodes.
Proof. by apply steady_pure. Qed.

Lemma steady_api_list e c : is_listing e c = false → steady e (api_list c).
Proof.
  intros Hc σ _. split; [by destruct e|]. exists [c]. split; [done|]. by constructor.
Qed.

Lemma steady_api_item e c : is_listing e c = false → steady e (api_item c).
Proof.
  intros Hc σ _. split; [by destruct e|]. exists [c]. split; [done|]. by constructor.
Qed.

Lemma steady_fetch_issue_list e project_id : steady e (fetch_issue_list project_id).
Proof.
  intros σ Hσ. unfold fetch_issue_list. rewrite bind_run. simpl.
  destruct (issue_list σ) as [|d l] eqn:Hl.
  - destruct e; simpl in *; [congruence|].
    rewrite bind_run. unfold api_list. destruct (reply_list _ _); simpl.
    + split; [done|]. exists [get_all_issues project_id]. by repeat constructor.
    + split; [done|]. exists [get_all_issues project_id]. by repeat constructor.
  - simpl. split; [done|]. exists []. by rewrite app_nil_r.
Qed.

Lemma steady_fetch_dradis_nodes e project_id : steady e (fetch_dradis_nodes project_id).
Proof.
  intros σ Hσ. unfold fetch_dradis_nodes. rewrite bind_run. simpl.
  destruct (dradis_nodes σ) as [|d l] eqn:Hl.
  - destruct e; simpl in *; [|congruence].
    rewrite bind_run. unfold api_list. destruct (reply_list _ _); simpl.
    + split; [done|]. exists [get_all_nodes project_id]. by repeat constructor.
    + split; [done|]. exists [get_all_nodes project_id]. by repeat constructor.
  - simpl. split; [done|]. exists []. by rewrite app_nil_r.
Qed.

Create HintDb steady.

#[local] Hint Resolve steady_ret steady_lift steady_log_record steady_write_text
  steady_read_text steady_is_file steady_get_files_in_folder steady_get_folders_in_folder
  steady_get_issue_list steady_get_dradis_nodes steady_fetch_issue_list
  steady_fetch_dradis_nodes : steady.

Ltac steady_step :=
  first
    [ solve [auto 1 with steady nocore]
    | simple apply steady_api_list; by destruct_all entity
    | simple apply steady_api_item; by destruct_all entity
    | simple apply steady_bind; [|intros ?]
    | simple apply steady_try_except; [|intros ?]
    | simple apply steady_for_each; intros ?
    | simple apply steady_for_fold; intros ? ?
    | match goal with
      | |- steady _ (match ?x with _ => _ end) => destruct x
      | |- steady _ (let '(_, _) := ?x in _) => destruct x
      end ].

Ltac steady := repeat steady_step.

Lemma steady_get_textile_content e file : steady e (get_textile_content file).
Proof. unfold get_textile_content. steady. Qed.
#[local] Hint Resolve steady_get_textile_content : steady.

Lemma steady_handle_attachments e project_id node_id content file_path :
  steady e (handle_attachments project_id node_id content file_path).
Proof. unfold handle_attachments, handle_attachment. steady. Qed.
#[local] Hint Resolve steady_handle_attachments : steady.

Lemma steady_get_node_id_from_file e project_id file_path :
  steady e (get_node_id_from_file project_id file_path).
Proof. unfold get_node_id_from_file. steady. Qed.
#[local] Hint Resolve steady_get_node_id_from_file : steady.

Lemma steady_export_content_block e project_id file :
  steady e (export_content_block project_id file).
Proof. unfold export_content_block. steady. Qed.
#[local] Hint Resolve steady_export_content_block : steady.

Lemma steady_export_issue e project_id file : steady e (export_issue project_id file).
Proof. unfold export_issue. steady. Qed.
#[local] Hint Resolve steady_export_issue : steady.

Lemma steady_new_evidence e project_id node_id issue_id content evidence erase :
  steady e (new_evidence project_id node_id issue_id content evidence erase).
Proof. unfold new_evidence. steady. Qed.
#[local] Hint Resolve steady_new_evidence : steady.

Lemma steady_export_evidence e project_id node_id name file :
  steady e (export_evidence project_id node_id name file).
Proof. unfold export_evidence. steady. Qed.
#[local] Hint Resolve steady_export_evidence : steady.

Lemma steady_export_node e project_id node_folder :
  steady e (export_node project_id node_folder).
Proof. unfold export_node. steady. Qed.
#[local] Hint Resolve steady_export_node : steady.

Lemma steady_export_document_properties e project_id path :
  steady e (export_document_properties project_id path).
Proof. unfold export_document_properties. steady. by apply steady_pure. Qed.
#[local] Hint Resolve steady_export_document_properties : steady.

Lemma steady_update_item e project_id path : steady e (update_item project_id path).
Proof. unfold update_item. steady. Qed.
#[local] Hint Resolve steady_update_item : steady.

Lemma steady_update_project e project_id path : steady e (update_project project_id path).
Proof. unfold update_project. steady. Qed.


End Caches.



(** ** Node resolution *)

Section Node_resolution.
Context `{Environment}.

Lemma get_node_id_from_file_run (project_id : str) (file_path : Path) (σ σ1 : session) :
  fetch_dradis_nodes project_id σ = (Ok (), σ1) →
  get_node_id_from_file project_id file_path σ =
  (let nodes := dradis_nodes σ1 in
   if decide (path_name (path_parent file_path) = "Content Blocks") then
     uploaded_files_node ← lift (get_item_from_dict_list nodes "label" "Uploaded files");
     id ← lift (subscript uploaded_files_node "id");
     match id with
     | VInt z => mret (VStr (str_of_Z (z - 1)))
     | _ => lift (Raise TypeError)
     end
   else if decide (path_name (path_parent (path_parent file_path)) = "Evidences") then
     evidence_node ← lift (get_item_from_dict_list nodes "label"
                             (path_name (path_parent (path_parent (path_parent file_path)))));
     id ← lift (subscript evidence_node "id");
     mret (VStr (format id))
   else
     log_record ERROR ("Could not find node id for " ++ path_str file_path ++ " ");;
     mret VNone) σ1.
Proof. intros Hfetch. unfold get_node_id_from_file. by rewrite bind_run, Hfetch. Qed.


(** C9: when no node of the list matches "Uploaded files", a file
    directly under [Content Blocks] makes [get_node_id_from_file] raise
    [TypeError] (the subscript of [None]); and whenever the function returns
    [None], the path has neither the content-block nor the evidence shape. *)
Theorem get_node_id_from_file_without_uploaded_files (project_id : str) (file_path : Path)
    (σ σ1 : session) :
  fetch_dradis_nodes project_id σ = (Ok (), σ1) →
  (path_name (path_parent file_path) = "Content Blocks" →
   Forall (λ node, ∃ label, node !! ("label" : str) = Some (VStr label)
                            ∧ ¬ names_match label "Uploaded files") (dradis_nodes σ1) →
   get_node_id_from_file project_id file_path σ = (Raise TypeError, σ1)) ∧
  (∀ σ2, get_node_id_from_file project_id file_path σ = (Ok VNone, σ2) →
     path_name (path_parent file_path) ≠ "Content Blocks" ∧
     path_name (path_parent (path_parent file_path)) ≠ "Evidences").
Proof.
  intros Hfetch. rewrite (get_node_id_from_file_run _ _ _ _ Hfetch). cbv zeta. split.
  - intros Hparent Hnone%get_item_from_dict_list_absent.
    rewrite decide_True by done. by rewrite bind_run, lift_run, Hnone.
  - intros σ2. case_decide as Hparent.
    + rewrite bind_run, lift_run.
      destruct (get_item_from_dict_list _ _ _) as [node|]; [|done].
      rewrite bind_run, lift_run.
      destruct (subscript node "id") as [[]|]; done.
    + case_decide as Hgrand; [|done].
      rewrite bind_run, lift_run.
      destruct (get_item_from_dict_list _ _ _) as [node|]; [|done].
      rewrite bind_run, lift_run.
      destruct (subscript node "id") as [[]|]; done.
Qed.

End Node_resolution.


Lemma get_node_id_from_file_without_uploaded_files_witness :
  (@get_node_id_from_file bare_remote "1"
     (Path_of_str "proj/Content Blocks/intro.textile") (session_of [])).1 = Raise TypeError.
Proof.
  pose (σ1 := (@fetch_dradis_nodes bare_remote "1" (session_of [])).2).
  assert (Hfetch : @fetch_dradis_nodes bare_remote "1" (session_of []) = (Ok (), σ1))
    by reflexivity.
  rewrite (proj1 (@get_node_id_from_file_without_uploaded_files bare_remote "1"
             (Path_of_str "proj/Content Blocks/intro.textile") _ _ Hfetch));
    [reflexivity | reflexivity |].
  apply Forall_cons. split; [|constructor].
  exists "Web01: DMZ". split; [reflexivity|]. vm_compute. discriminate.
Defined.

(** ** Document properties *)

Section Document_properties.
Context `{Environment}.

(** Every option of the parser state was spelled on a line of the file. *)
Lemma ini_line_spelled (st st' : ini_state) (line : str) (o : ini_option) :
  ini_line st line = Ok st' → o ∈ ini_options st' →
  (∃ o0, o0 ∈ ini_options st ∧ o_spelled o0 = o_spelled o)
  ∨ ∃ v, option_line (strip_ws line) = Some (o_spelled o, v).
Proof.
  assert (Happend : ∀ value, o ∈ ini_options (ini_append st value) →
            ∃ o0, o0 ∈ ini_options st ∧ o_spelled o0 = o_spelled o).
  { intros value. unfold ini_append. destruct (ini_options st) as [|o1 os] eqn:Hos.
    - rewrite Hos. by intros ?%elem_of_nil.
    - cbn [ini_options]. intros [->|Ho]%elem_of_cons.
      + exists o1. split; [by left|done].
      + exists o. split; [by right|done]. }
  unfold ini_line.
  destruct (startswith (strip_ws line) "#" || startswith (strip_ws line) ";") eqn:Hcomment.
  - cbn [negb andb]. intros [= <-] Ho. left. by exists o.
  - destruct (strip_ws line) as [|c value] eqn:Hvalue.
    + destruct (negb false && _).
      * intros [= <-] Ho. left. by apply (Happend []).
      * intros [= <-] Ho. left. by exists o.
    + destruct (_ && (indent_level st <? _)%nat).
      * intros [= <-] Ho. left. by apply (Happend (c :: value)).
      * unfold ini_entry. destruct (section_header (c :: value)) as [sectname|].
        { destruct (_ && _); [done|]. intros [= <-] Ho. left. by exists o. }
        destruct (cursect st) as [sect|]; [|done].
        destruct (option_line (c :: value)) as [[name v]|] eqn:Hline; [|done].
        destruct (bool_decide (name = [])); [done|].
        destruct (bool_decide (Exists _ _)); [done|].
        intros [= <-]. cbn [ini_options]. intros [->|Ho]%elem_of_cons.
        -- right. by exists v.
        -- left. by exists o.
Qed.

Lemma ini_lines_spelled (st st' : ini_state) (lines : list str) (o : ini_option) :
  ini_lines st lines = Ok st' → o ∈ ini_options st' →
  (∃ o0, o0 ∈ ini_options st ∧ o_spelled o0 = o_spelled o) ∨ spelled_on lines (o_spelled o).
Proof.
  revert st. induction lines as [|line lines IH]; intros st; cbn [ini_lines].
  - intros [= <-] Ho. left. by exists o.
  - destruct (ini_line st line) as [st1|] eqn:Hline; [|done].
    intros Hrest Ho. destruct (IH _ Hrest Ho) as [(o1 & Ho1 & Hname)|(l & v & Hl & Hv)].
    + destruct (ini_line_spelled _ _ _ _ Hline Ho1) as [(o0 & Ho0 & Hname0)|[v Hv]].
      * left. exists o0. split; [done|congruence].
      * right. exists line, v. split; [by left|congruence].
    + right. exists l, v. split; [by right|done].
Qed.

(** The names that [ini_read] returns are the names spelled in the file. *)
Lemma ini_read_spelled (text : str) (parsed : ini_file) (sect name value : str) :
  ini_read text = Ok parsed → (sect, name, value) ∈ options parsed →
  spelled_on (file_lines text) name.
Proof.
  unfold ini_read. destruct (ini_lines _ (file_lines text)) as [st|] eqn:Hlines; [|done].
  intros [= <-]. cbn [options]. intros (o & [= _ -> _] & Ho)%list_elem_of_fmap.
  rewrite elem_of_reverse in Ho.
  destruct (ini_lines_spelled _ _ _ _ Hlines Ho) as [(o0 & Ho0 & _)|?]; [|done].
  by apply elem_of_nil in Ho0.
Qed.

Lemma interpolate_all (items : list (str * str)) (todo : list (str * str)) :
  Forall (λ kv, ∃ v, interpolate items kv.2 = Ok v) todo →
  ∃ properties,
    foldr (λ kv acc,
             match interpolate items kv.2, acc with
             | Ok v, Ok l => Ok ((kv.1, v) :: l)
             | Raise e, _ => Raise e
             | _, Raise e => Raise e
             end) (Ok []) todo = Ok properties
    ∧ map fst properties = map fst todo.
Proof.
  induction 1 as [|kv todo [v Hv] _ (properties & Hfold & IH)]; simpl.
  - by exists [].
  - rewrite Hv, Hfold. exists ((kv.1, v) :: properties). simpl. by rewrite IH.
Qed.

Lemma for_each_calls {A} (xs : list A) (body : A → M ()) (c : A → call) (σ : session) :
  (∀ x σ, ∃ σ', body x σ = (Ok (), σ') ∧ api_calls σ' = api_calls σ ++ [c x]) →
  ∃ σ', for_each xs body σ = (Ok (), σ') ∧ api_calls σ' = api_calls σ ++ map c xs.
Proof.
  intros Hbody. revert σ. induction xs as [|x xs IH]; intros σ; cbn [for_each map].
  - exists σ. by rewrite app_nil_r.
  - destruct (Hbody x σ) as (σ1 & Hx & Hcalls). rewrite bind_run, Hx.
    destruct (IH σ1) as (σ' & Hxs & Hcalls'). exists σ'. split; [done|].
    by rewrite Hcalls', Hcalls, <-app_assoc.
Qed.

Lemma update_docprop_loop (project_id : str) (properties : list (str * str)) (σ : session) :
  ∃ σ', for_each properties (λ kv,
          try_except (api_item (update_docprop project_id kv.1 kv.2);; mret ())
            (λ _, log_record ERROR ("Property " ++ kv.1 ++ " failed to update"))) σ
        = (Ok (), σ')
      ∧ api_calls σ' = api_calls σ ++ map (λ kv, update_docprop project_id kv.1 kv.2) properties.
Proof.
  apply for_each_calls. clear. intros kv σ.
  unfold try_except. rewrite bind_run. unfold api_item.
  destruct (reply_item (api_calls σ) _) as [r|x]; by eexists.
Qed.


End Document_properties.


(** ** Replacement *)

Lemma strip_prefix_shorter (old s rest : str) :
  old ≠ [] → strip_prefix old s = Some rest → length rest < length s.
Proof.
  intros Hold ->%strip_prefix_Some. destruct old; [done|].
  rewrite length_app. simpl. lia.
Qed.

Lemma replace_from_enough (old new : str) (n : nat) (s : str) :
  old ≠ [] → length s < n → replace_from (S n) old new s = replace_from n old new s.
Proof.
  intros Hold. revert s. induction n as [|n IH]; intros s Hn; [lia|].
  cbn [replace_from]. destruct (strip_prefix old s) as [rest|] eqn:Hp.
  - f_equal. apply IH. apply strip_prefix_shorter in Hp; [lia|done].
  - destruct s as [|c s]; [done|]. f_equal. apply IH. simpl in Hn. lia.
Qed.

Lemma replace_from_length (old new : str) (n : nat) (s : str) :
  old ≠ [] → length s < n → replace_from n old new s = replace_from (S (length s)) old new s.
Proof.
  intros Hold Hn. induction n as [|n IH]; [lia|].
  destruct (decide (length s < n)) as [Hlt|Hge].
  - rewrite replace_from_enough by done. by apply IH.
  - by replace n with (length s) by lia.
Qed.

Lemma replace_unfold (old new s : str) :
  old ≠ [] →
  replace old new s =
  match strip_prefix old s with
  | Some rest => new ++ replace old new rest
  | None =>
      match s with
      | [] => []
      | c :: s' => c :: replace old new s'
      end
  end.
Proof.
  intros Hold. unfold replace. destruct old as [|o old]; [done|].
  cbn [replace_from]. destruct (strip_prefix (o :: old) s) as [rest|] eqn:Hp.
  - f_equal. apply replace_from_length; [done|]. by eapply strip_prefix_shorter.
  - destruct s as [|c s]; [done|]. f_equal.
Qed.

Lemma replace_here (old new rest : str) :
  old ≠ [] → replace old new (old ++ rest) = new ++ replace old new rest.
Proof.
  intros Hold. rewrite replace_unfold by done.
  by rewrite (proj2 (strip_prefix_Some old (old ++ rest) rest)).
Qed.

Lemma strip_prefix_head (o : ascii) (old : str) (c : ascii) (s : str) :
  c ≠ o → strip_prefix (o :: old) (c :: s) = None.
Proof. intros Hc. simpl. case_decide; congruence. Qed.

Lemma replace_skip (o : ascii) (old new before s : str) :
  o ∉ before → replace (o :: old) new (before ++ s) = before ++ replace (o :: old) new s.
Proof.
  intros Hbefore. induction before as [|c before IH]; [done|].
  apply not_elem_of_cons in Hbefore as [Hc Hbefore].
  rewrite <-app_comm_cons, replace_unfold, strip_prefix_head by done.
  by rewrite IH.
Qed.

(** A text without the first character of [old] is left as it is. *)
Lemma replace_none (o : ascii) (old new s : str) :
  o ∉ s → replace (o :: old) new s = s.
Proof.
  intros Hs. rewrite <-(app_nil_r s) at 1. rewrite replace_skip by done.
  by rewrite replace_unfold, app_nil_r.
Qed.

(** ** Attachment references *)

Lemma until_bang_Some (s inner rest : str) :
  until_bang s = Some (inner, rest) →
  s = inner ++ "!" ++ rest ∧ ("!"%char ∉ inner) ∧ (LF ∉ inner).
Proof.
  revert inner. induction s as [|c s IH]; intros inner; simpl; [done|].
  case_decide as Hbang.
  - intros [= <- <-]. subst c. split_and!; [done|apply not_elem_of_nil..].
  - case_decide as Hlf; [done|].
    destruct (until_bang s) as [[inner' rest']|]; [|done].
    intros [= <- <-]. destruct (IH inner' eq_refl) as (-> & Hb & Hl).
    split_and!; [done|by apply not_elem_of_cons..].
Qed.

Lemma attachment_of_match (inner : str) : a_match (attachment_of inner) = "!" ++ inner ++ "!".
Proof. unfold attachment_of. by destruct (span _ inner). Qed.

Lemma attachment_of_groups (inner : str) :
  a_path (attachment_of inner) ++ default [] (a_caption (attachment_of inner)) = inner.
Proof.
  unfold attachment_of.
  pose proof (span_app (λ c, bool_decide (c ≠ "("%char)) inner) as Happ.
  destruct (span _ inner) as [path caption]. simpl in *.
  destruct caption; simpl; [by rewrite app_nil_r in *|done].
Qed.

(** Every reference that the scan finds stands in the content, between
    two [!] of one line. *)
Lemma finditer_from_elem (n : nat) (s : str) (a : attachment) :
  a ∈ finditer_from n s →
  ∃ inner, a = attachment_of inner ∧ ("!"%char ∉ inner) ∧ (LF ∉ inner)
           ∧ occurs_in ("!" ++ inner ++ "!") s.
Proof.
  revert s. induction n as [|n IH]; intros s; simpl; [by intros ?%elem_of_nil|].
  destruct s as [|c s]; [by intros ?%elem_of_nil|].
  assert (Hlater : a ∈ finditer_from n s →
    ∃ inner, a = attachment_of inner ∧ ("!"%char ∉ inner) ∧ (LF ∉ inner)
             ∧ occurs_in ("!" ++ inner ++ "!") (c :: s)).
  { intros (inner & ? & ? & ? & pre & post & ->)%IH.
    exists inner. split_and!; [done..|]. by exists (c :: pre), post. }
  case_decide as Hc; [|done]. subst c.
  destruct (until_bang s) as [[inner rest]|] eqn:Hu; [|done].
  apply until_bang_Some in Hu as (-> & Hb & Hl).
  intros [->|Hrest]%elem_of_cons.
  - exists inner. split_and!; [done..|]. exists [], rest. simpl.
    by rewrite <-!app_assoc.
  - apply IH in Hrest as (inner' & ? & ? & ? & pre & post & ->).
    exists inner'. split_and!; [done..|].
    exists ("!" ++ inner ++ "!" ++ pre), post. simpl. by rewrite <-!app_assoc.
Qed.

Lemma finditer_elem (s : str) (a : attachment) :
  a ∈ finditer s →
  ∃ inner, a = attachment_of inner ∧ ("!"%char ∉ inner) ∧ (LF ∉ inner)
           ∧ occurs_in ("!" ++ inner ++ "!") s.
Proof. apply finditer_from_elem. Qed.

Lemma occurs_in_elem (p s : str) (c : ascii) : occurs_in p s → c ∈ p → c ∈ s.
Proof. intros (a & b & ->) Hc. rewrite !elem_of_app. auto. Qed.

Lemma split_on_elem (sep : ascii) (s w : str) (c : ascii) :
  w ∈ split_on sep s → c ∈ w → c ∈ s.
Proof.
  revert w. induction s as [|x s IH]; intros w; simpl.
  - intros ->%list_elem_of_singleton. by intros ?%elem_of_nil.
  - case_decide as Hx.
    + intros [->|Hw]%elem_of_cons; [by intros ?%elem_of_nil|].
      intros Hc. apply elem_of_cons. right. by eapply IH.
    + destruct (split_on sep s) as [|w0 ws] eqn:Hs.
      * intros ->%list_elem_of_singleton. intros ->%list_elem_of_singleton. by left.
      * intros [->|Hw]%elem_of_cons.
        -- intros [->|Hc]%elem_of_cons; [by left|]. right. apply (IH w0); [by left|done].
        -- intros Hc. right. apply (IH w); [by right|done].
Qed.

Lemma last_elem {A} (l : list A) (d : A) : List.last l d = d ∨ List.last l d ∈ l.
Proof.
  destruct l as [|x l]; [by left|]. right. revert x.
  induction l as [|y l IH]; intros x; [by left|].
  right. apply IH.
Qed.

Lemma path_name_elem (s : str) (c : ascii) : c ∈ path_name (Path_of_str s) → c ∈ s.
Proof.
  unfold path_name, Path_of_str. destruct (span is_slash s) as [slashes rest]. simpl.
  match goal with
  | |- context [List.last ?l ?d] => destruct (last_elem l d) as [->|Hlast]
  end; [by intros ?%elem_of_nil|].
  apply list_elem_of_filter in Hlast as [_ Hlast]. intros Hc. by eapply split_on_elem.
Qed.

Lemma dradis_reference_elem (dradis_dir inner : str) (c : ascii) :
  c ∈ dradis_reference dradis_dir (attachment_of inner) →
  c = "!"%char ∨ c = "/"%char ∨ c ∈ dradis_dir ∨ c ∈ inner.
Proof.
  unfold dradis_reference. pose proof (attachment_of_groups inner) as Hgroups.
  rewrite !elem_of_app, !list_elem_of_singleton.
  intros [?|[?|[?|[Hname|[Hcaption|?]]]]]; auto.
  - apply path_name_elem in Hname. do 3 right. rewrite <-Hgroups, elem_of_app. auto.
  - do 3 right. rewrite <-Hgroups, elem_of_app. auto.
Qed.

Section Attachments.
Context `{Environment}.

Lemma any_filename_listed (existing : list dict) (name : str) :
  Forall (λ d, is_Some (d !! ("filename" : str))) existing →
  any_filename existing name
  = Ok (bool_decide (Exists (λ d, d !! ("filename" : str) = Some (VStr name)) existing)).
Proof.
  induction 1 as [|d existing [v Hv] _ IH]; cbn [any_filename].
  - reflexivity.
  - rewrite Hv. case_decide as Hname.
    + subst v. f_equal. symmetry. apply bool_decide_eq_true. by left.
    + rewrite IH. f_equal. apply bool_decide_ext. rewrite Exists_cons.
      split; [auto|]. intros [?|?]; [congruence|done].
Qed.

Lemma handle_attachment_run (dradis_dir : str) (existing : list dict) (file_path : Path)
    (content : str) (upload : list Path) (a : attachment) (σ : session) :
  literal_templates →
  ("\"%char ∉ dradis_reference dradis_dir a) →
  Forall (λ d, is_Some (d !! ("filename" : str))) existing →
  handle_attachment dradis_dir existing file_path (content, upload) a σ =
  match fate_of existing file_path (files σ) a with
  | Present => (Ok (replace (a_match a) (dradis_reference dradis_dir a) content, upload), σ)
  | Upload => (Ok (replace (a_match a) (dradis_reference dradis_dir a) content,
                   upload ++ [local_file file_path a]), σ)
  | Missing =>
      (Ok (content, upload),
       mkSession (api_calls σ) (issue_list σ) (dradis_nodes σ) (files σ)
         (log σ ++ [(WARNING, path_str (local_file file_path a)
                                ++ " was not found. File missing? Skipping")]))
  end.
Proof.
  intros Hliteral Hplain Hexisting. unfold handle_attachment, fate_of.
  rewrite bind_run, lift_run, (any_filename_listed _ _ Hexisting).
  fold (remote_name a). fold (local_file file_path a).
  destruct (bool_decide (Exists _ existing)).
  - by rewrite bind_run, lift_run, Hliteral.
  - rewrite bind_run. unfold is_file at 1.
    destruct (bool_decide (is_Some (files σ !! local_file file_path a))).
    + by rewrite bind_run, lift_run, Hliteral.
    + done.
Qed.

Lemma handle_attachment_loop (dradis_dir : str) (existing : list dict) (file_path : Path)
    (attachments : list attachment) (content : str) (upload : list Path) (σ : session) :
  literal_templates →
  Forall (λ a, "\"%char ∉ dradis_reference dradis_dir a) attachments →
  Forall (λ d, is_Some (d !! ("filename" : str))) existing →
  let fates := fate_of existing file_path (files σ) in
  for_fold attachments (handle_attachment dradis_dir existing file_path) (content, upload) σ
  = (Ok (rewritten dradis_dir fates attachments content,
         upload ++ queued file_path fates attachments),
     mkSession (api_calls σ) (issue_list σ) (dradis_nodes σ) (files σ)
       (log σ ++ missing_warnings file_path fates attachments)).
Proof.
  intros Hliteral Hplain Hexisting fates. revert content upload σ fates.
  induction Hplain as [|a attachments Ha _ IH]; intros content upload σ fates.
  - cbn. rewrite !app_nil_r. by destruct σ.
  - cbn [for_fold]. rewrite bind_run, handle_attachment_run by done.
    unfold rewritten, queued, missing_warnings. cbn [fold_left]. rewrite !filter_cons.
    fold fates. destruct (fates a) eqn:Hfate.
    + rewrite IH. by rewrite decide_False, decide_False by done.
    + rewrite IH. rewrite decide_True, decide_False by done.
      cbn [map]. by rewrite <-app_assoc.
    + rewrite IH. rewrite decide_False, decide_True by done.
      cbn [map files api_calls issue_list dradis_nodes log]. by rewrite <-app_assoc.
Qed.

Lemma finditer_plain (dradis_dir content : str) :
  ("\"%char ∉ dradis_dir) → ("\"%char ∉ content) →
  Forall (λ a, "\"%char ∉ dradis_reference dradis_dir a) (finditer content).
Proof.
  intros Hdir Hcontent. apply Forall_forall. intros a (inner & -> & _ & _ & Hocc)%finditer_elem.
  intros [?|[?|[?|Hinner]]]%dradis_reference_elem; [done..|].
  apply Hcontent. eapply occurs_in_elem; [done|]. rewrite !elem_of_app. auto.
Qed.

Lemma not_elem_of_literal (c : ascii) (s : str) : bool_decide (c ∉ s) = true → c ∉ s.
Proof. apply bool_decide_eq_true. Qed.

Lemma elem_of_literal (c : ascii) (s : str) : bool_decide (c ∈ s) = true → c ∈ s.
Proof. apply bool_decide_eq_true. Qed.

Lemma attachments_dir_plain (project_id : str) (node_id : scalar) :
  ("\"%char ∉ project_id) → ("\"%char ∉ format node_id) →
  "\"%char ∉ attachments_dir project_id node_id.
Proof.
  intros Hp Hn. unfold attachments_dir. rewrite !elem_of_app.
  intros [Hc|[?|[Hc|[?|Hc]]]]; [|done| |done|];
    by apply not_elem_of_literal in Hc.
Qed.


End Attachments.

(** ** Cutting and finding the EvidenceID field *)

(** A match is the marker, further [#], line ends, and the value. *)
Lemma field_match_Some (marker s value rest : str) :
  field_match marker s = Some (value, rest) →
  ∃ hashes eols, s = marker ++ hashes ++ eols ++ value ++ rest ∧ value ≠ [] ∧ eols ≠ [].
Proof.
  unfold field_match. destruct (strip_prefix marker s) as [r0|] eqn:Hp; [|done].
  apply strip_prefix_Some in Hp as ->.
  pose proof (span_app is_hash r0) as H0. destruct (span is_hash r0) as [hashes r1].
  pose proof (span_app is_eol r1) as H1. destruct (span is_eol r1) as [eols r2].
  destruct eols as [|e eols]; [done|].
  pose proof (span_app not_eol r2) as H2. destruct (span not_eol r2) as [v r3].
  destruct v as [|c v]; [done|]. intros [= <- <-]. simpl in *.
  exists hashes, (e :: eols). by subst.
Qed.

Lemma field_match_shorter (marker s value rest : str) :
  field_match marker s = Some (value, rest) → length rest < length s.
Proof.
  intros (hashes & eols & -> & Hvalue & _)%field_match_Some.
  rewrite !length_app. destruct value; [done|]. simpl. lia.
Qed.

Lemma field_erase_from_enough (marker : str) (n : nat) (s : str) :
  length s < n → field_erase_from (S n) marker s = field_erase_from n marker s.
Proof.
  revert s. induction n as [|n IH]; intros s Hn; [lia|].
  cbn [field_erase_from]. destruct (field_match marker s) as [[value rest]|] eqn:Hm.
  - apply IH. apply field_match_shorter in Hm. lia.
  - destruct s as [|c s]; [done|]. f_equal. apply IH. simpl in Hn. lia.
Qed.

Lemma field_erase_from_length (marker : str) (n : nat) (s : str) :
  length s < n → field_erase_from n marker s = field_erase marker s.
Proof.
  unfold field_erase. intros Hn. induction n as [|n IH]; [lia|].
  destruct (decide (length s < n)) as [Hlt|Hge].
  - rewrite field_erase_from_enough by done. by apply IH.
  - by replace n with (length s) by lia.
Qed.

Lemma field_erase_unfold (marker s : str) :
  field_erase marker s =
  match field_match marker s with
  | Some (_, rest) => field_erase marker rest
  | None =>
      match s with
      | [] => []
      | c :: s' => c :: field_erase marker s'
      end
  end.
Proof.
  unfold field_erase at 1. cbn [field_erase_from].
  destruct (field_match marker s) as [[value rest]|] eqn:Hm.
  - apply field_erase_from_length. by eapply field_match_shorter.
  - destruct s as [|c s]; [done|]. f_equal.
Qed.

(** The leftmost field, the one that [re.search] finds, is cut out where
    it stands: the text before it is kept, and the cutting goes on after its
    value. *)
Lemma field_erase_first (marker s value : str) :
  field_search marker s = Some value →
  ∃ before hashes eols rest,
    s = before ++ marker ++ hashes ++ eols ++ value ++ rest ∧
    field_erase marker s = before ++ field_erase marker rest.
Proof.
  induction s as [|c s IH]; cbn [field_search]; rewrite field_erase_unfold.
  - destruct (field_match marker []) as [[v r]|] eqn:Hm; [|done].
    intros [= ->]. pose proof Hm as (hashes & eols & Hs & _)%field_match_Some.
    by exists [], hashes, eols, r.
  - destruct (field_match marker (c :: s)) as [[v r]|] eqn:Hm.
    + intros [= ->]. pose proof Hm as (hashes & eols & Hs & _)%field_match_Some.
      by exists [], hashes, eols, r.
    + intros (before & hashes & eols & rest & -> & Herase)%IH.
      exists (c :: before), hashes, eols, rest. split; [done|]. by rewrite Herase.
Qed.

Lemma strip_prefix_before_eol (marker a b r : str) :
  LF ∉ marker → strip_prefix marker (a ++ LF :: b) = Some r →
  is_Some (strip_prefix marker a).
Proof.
  revert a. induction marker as [|m marker IH]; intros a Hlf; [by eexists|].
  apply not_elem_of_cons in Hlf as [Hm Hlf].
  destruct a as [|c a]; simpl.
  - case_decide; [congruence|done].
  - case_decide; [|done]. by apply IH.
Qed.

Lemma contains_cons_false (p : str) (c : ascii) (s : str) :
  contains p (c :: s) = false → strip_prefix p (c :: s) = None ∧ contains p s = false.
Proof. cbn [contains]. by destruct (strip_prefix p (c :: s)). Qed.

(** A text without the marker, then a line feed: the search goes on after
    the line feed. *)
Lemma field_search_appended (marker body tail : str) :
  marker ≠ [] → LF ∉ marker → contains marker body = false →
  field_search marker (body ++ LF :: tail) = field_search marker tail.
Proof.
  intros Hmarker Hlf. induction body as [|c body IH]; intros Hbody.
  - cbn [app field_search]. unfold field_match at 1.
    destruct marker as [|m marker]; [done|]. apply not_elem_of_cons in Hlf as [Hm _].
    by rewrite strip_prefix_head.
  - apply contains_cons_false in Hbody as [Hhere Hbody].
    cbn [app field_search]. unfold field_match at 1.
    destruct (strip_prefix marker (c :: body ++ LF :: tail)) as [r|] eqn:Hp; [|by apply IH].
    rewrite app_comm_cons in Hp. apply strip_prefix_before_eol in Hp as [r' Hr']; [|done].
    congruence.
Qed.

Lemma field_search_block (body evidence_id : str) :
  contains EVIDENCE_ID_MARKER body = false →
  evidence_id ≠ [] → Forall (λ c, not_eol c = true) evidence_id →
  field_search EVIDENCE_ID_MARKER (body ++ evidence_id_block evidence_id) = Some evidence_id.
Proof.
  intros Hbody Hne Hid. unfold evidence_id_block. cbn [app].
  rewrite field_search_appended; [|done|by apply not_elem_of_literal|done].
  apply (field_search_here _ _ _ [LF]).
  by apply (field_match_field EVIDENCE_ID_MARKER [] [LF; LF] evidence_id [LF]);
    repeat constructor.
Qed.

Lemma evidence_id_block_avoids (c : ascii) (evidence_id : str) :
  bool_decide (c ∉ LF :: EVIDENCE_ID_MARKER) = true → c ∉ evidence_id →
  c ∉ evidence_id_block evidence_id.
Proof.
  intros Hc%bool_decide_eq_true Hid. unfold evidence_id_block.
  assert (Hsub : ∀ l : str,
    bool_decide (Forall (λ x, x ∈ LF :: EVIDENCE_ID_MARKER) l) = true → c ∉ l).
  { intros l Hl%bool_decide_eq_true Hin. rewrite Forall_forall in Hl. by apply Hc, Hl. }
  rewrite !elem_of_app. intros [Hin|[Hin|[Hin|[Hin|Hin]]]]; [| | |done|]; by apply Hsub in Hin.
Qed.

(** ** Computations that write no evidence *)

Section Quiet.
Context `{Environment}.

Lemma quiet_pure {A} (m : M A) : (∀ σ, (m σ).2 = σ) → quiet m.
Proof.
  intros Hm σ. rewrite Hm. split_and!; [done..|]. exists []. by rewrite app_nil_r.
Qed.

Lemma quiet_bind {A B} (m : M A) (k : A → M B) :
  quiet m → (∀ a, quiet (k a)) → quiet (m ≫= k).
Proof.
  intros Hm Hk σ. rewrite bind_run.
  destruct (Hm σ) as (Hf & Hi & Hn & new & Hcalls & Hnew).
  destruct (m σ) as [[a|x] σ1]; simpl in *; [|eauto 10].
  destruct (Hk a σ1) as (Hf' & Hi' & Hn' & new' & Hcalls' & Hnew').
  split_and!; [congruence..|]. exists (new ++ new'). split.
  - by rewrite Hcalls', Hcalls, app_assoc.
  - by apply Forall_app.
Qed.

Lemma quiet_for_fold {A S} (xs : list A) (body : S → A → M S) (s : S) :
  (∀ s x, quiet (body s x)) → quiet (for_fold xs body s).
Proof.
  intros Hbody. revert s. induction xs as [|x xs IH]; intros s; cbn [for_fold].
  - by apply quiet_pure.
  - by apply quiet_bind.
Qed.

Lemma quiet_log_record l msg : quiet (log_record l msg).
Proof. intros σ. split_and!; [done..|]. exists []. by rewrite app_nil_r. Qed.

Lemma quiet_api_list c : is_evidence_call c = false → quiet (api_list c).
Proof. intros Hc σ. split_and!; [done..|]. exists [c]. split; [done|]. by constructor. Qed.

Lemma quiet_api_item c : is_evidence_call c = false → quiet (api_item c).
Proof. intros Hc σ. split_and!; [done..|]. exists [c]. split; [done|]. by constructor. Qed.

Lemma quiet_handle_attachments project_id node_id content file_path :
  quiet (handle_attachments project_id node_id content file_path).
Proof.
  unfold handle_attachments, handle_attachment.
  repeat first
    [ by apply quiet_pure | apply quiet_log_record
    | simple apply quiet_api_list; done | simple apply quiet_api_item; done
    | simple apply quiet_bind; [|intros ?]
    | simple apply quiet_for_fold; intros ? ?
    | match goal with
      | |- quiet (match ?x with _ => _ end) => destruct x
      | |- quiet (let '(_, _) := ?x in _) => destruct x
      end ].
Qed.

Lemma fetch_issue_list_frame (project_id : str) (σ σ1 : session) :
  fetch_issue_list project_id σ = (Ok (), σ1) →
  files σ1 = files σ ∧ log σ1 = log σ ∧
  ∃ new, api_calls σ1 = api_calls σ ++ new ∧ Forall (λ c, is_evidence_call c = false) new.
Proof.
  unfold fetch_issue_list. rewrite bind_run. cbn.
  destruct (issue_list σ) as [|d l].
  - rewrite bind_run. unfold api_list. destruct (reply_list _ _); [|done].
    intros [= <-]. split_and!; [done..|]. eexists. split; [done|]. by repeat constructor.
  - intros [= <-]. split_and!; [done..|]. exists []. by rewrite app_nil_r.
Qed.

Lemma fetch_issue_list_cached (project_id : str) (σ : session) :
  issue_list σ ≠ [] → fetch_issue_list project_id σ = (Ok (), σ).
Proof.
  intros Hσ. unfold fetch_issue_list. rewrite bind_run. cbn.
  by destruct (issue_list σ).
Qed.

Lemma get_item_from_dict_list_nonempty (dict_list : list dict) (key m : str) (d : dict) :
  get_item_from_dict_list dict_list key m = Ok (Some d) → dict_list ≠ [].
Proof. by destruct dict_list. Qed.

(** [export_evidence] up to the rewriting of the attachments. *)
Lemma export_evidence_run (project_id : str) (node_id : scalar) (local_issue_name : str)
    (evidence_file : Path) (raw : str) (σ σ1 : session) (issue : dict) :
  path_suffix evidence_file = ".textile" → files σ !! evidence_file = Some raw → raw ≠ [] →
  fetch_issue_list project_id σ = (Ok (), σ1) →
  get_item_from_dict_list (issue_list σ1) "title" local_issue_name = Ok (Some issue) →
  export_evidence project_id node_id local_issue_name evidence_file σ =
  (dradis_evidence_content ←
     handle_attachments project_id node_id raw (path_parent evidence_file);
   match field_search EVIDENCE_ID_MARKER dradis_evidence_content with
   | Some evidence_id =>
       try_except
         (issue_id ← lift (getitem issue "id");
          api_item (update_evidence project_id node_id issue_id evidence_id
                      dradis_evidence_content);;
          mret ())
         (λ _,
            log_record WARNING ("Could not update " ++ evidence_id
                                 ++ ", creating new evidenceID");;
            issue_id ← lift (getitem issue "id");
            new_evidence project_id node_id issue_id dradis_evidence_content
              evidence_file true)
   | None =>
       issue_id ← lift (getitem issue "id");
       new_evidence project_id node_id issue_id dradis_evidence_content evidence_file false
   end) σ1.
Proof.
  intros Hsuffix Hfile Hraw Hfetch Hissue. unfold export_evidence.
  rewrite bind_run, (get_textile_content_textile _ raw) by done.
  destruct raw as [|c raw]; [done|].
  rewrite bind_run, Hfetch. rewrite bind_run. unfold get_issue_list at 1.
  by rewrite bind_run, lift_run, Hissue.
Qed.

Lemma new_evidence_run (project_id : str) (node_id issue_id : scalar) (content : str)
    (evidence : Path) (erase : bool) (raw : str) (σ : session) (reply : dict) :
  files σ !! evidence = Some raw →
  reply_item (api_calls σ) (create_evidence project_id node_id issue_id content) = Ok reply →
  new_evidence project_id node_id issue_id content evidence erase σ =
  (Ok (),
   mkSession (api_calls σ ++ [create_evidence project_id node_id issue_id content])
     (issue_list σ) (dradis_nodes σ)
     (<[evidence := (if erase then field_erase EVIDENCE_ID_MARKER raw else raw)
                    ++ evidence_id_block (format (default VNone (reply !! ("id" : str))))]>
        (files σ))
     (log σ)).
Proof.
  intros Hfile Hreply. unfold new_evidence. rewrite bind_run. unfold api_item at 1.
  rewrite Hreply. rewrite bind_run. unfold read_text at 1. cbn [files]. by rewrite Hfile.
Qed.

End Quiet.

(** ** Evidence reconciliation *)

Section Evidence.
Context `{Environment}.

(** C4: an evidence file whose content carries an EvidenceID, the update
    with that id raises: the export ends normally; after the requests that
    prepare it (none of them for an evidence) it has sent the failed
    [update_evidence] and then exactly one [create_evidence]; the file holds
    its former text with every EvidenceID field cut out, followed by the block
    with the new id.  The leftmost field of the former text is cut where it
    stood, and when no marker is left in the cut text, the field that the next
    export reads is the new id. *)
Theorem export_evidence_falls_back_to_create (project_id : str) (node_id : scalar)
    (local_issue_name : str) (evidence_file : Path) (raw : str) (σ σ1 σ2 : session)
    (issue : dict) (issue_id : scalar) (content old_id : str) (e : exception) (reply : dict) :
  path_suffix evidence_file = ".textile" → files σ !! evidence_file = Some raw → raw ≠ [] →
  fetch_issue_list project_id σ = (Ok (), σ1) →
  get_item_from_dict_list (issue_list σ1) "title" local_issue_name = Ok (Some issue) →
  issue !! ("id" : str) = Some issue_id →
  handle_attachments project_id node_id raw (path_parent evidence_file) σ1 = (Ok content, σ2) →
  field_search EVIDENCE_ID_MARKER content = Some old_id →
  let update := update_evidence project_id node_id issue_id old_id content in
  let create := create_evidence project_id node_id issue_id content in
  reply_item (api_calls σ2) update = Raise e →
  reply_item (api_calls σ2 ++ [update]) create = Ok reply →
  let new_id := format (default VNone (reply !! ("id" : str))) in
  let text := field_erase EVIDENCE_ID_MARKER raw ++ evidence_id_block new_id in
  let out := export_evidence project_id node_id local_issue_name evidence_file σ in
  out.1 = Ok () ∧
  (∃ before, api_calls out.2 = api_calls σ ++ before ++ [update; create]
             ∧ Forall (λ c, is_evidence_call c = false) before) ∧
  files out.2 = <[evidence_file := text]> (files σ) ∧
  (∀ old, field_search EVIDENCE_ID_MARKER raw = Some old →
     ∃ before hashes eols rest,
       raw = before ++ EVIDENCE_ID_MARKER ++ hashes ++ eols ++ old ++ rest ∧
       text = before ++ field_erase EVIDENCE_ID_MARKER rest ++ evidence_id_block new_id) ∧
  (contains EVIDENCE_ID_MARKER (field_erase EVIDENCE_ID_MARKER raw) = false →
   new_id ≠ [] → Forall (λ c, not_eol c = true) new_id →
   field_search EVIDENCE_ID_MARKER text = Some new_id).
Proof.
  intros Hsuffix Hfile Hraw Hfetch Hissue Hid Hattach Hsearch update create Hupdate Hcreate.
  intros new_id text out.
  destruct (fetch_issue_list_frame _ _ _ Hfetch) as (Hf1 & _ & new1 & Hc1 & Hn1).
  destruct (quiet_handle_attachments project_id node_id raw (path_parent evidence_file) σ1)
    as (Hf2 & _ & _ & new2 & Hc2 & Hn2).
  rewrite Hattach in Hf2, Hc2. cbn [snd] in Hf2, Hc2.
  assert (Hout : out =
    (Ok (),
     mkSession (api_calls σ2 ++ [update; create]) (issue_list σ2) (dradis_nodes σ2)
       (<[evidence_file := text]> (files σ2))
       (log σ2 ++ [(WARNING, "Could not update " ++ old_id ++ ", creating new evidenceID")]))).
  { subst out. rewrite (export_evidence_run _ _ _ _ raw σ σ1 issue) by done.
    rewrite bind_run, Hattach, Hsearch. unfold try_except.
    rewrite bind_run, lift_run. unfold getitem at 1. rewrite Hid.
    rewrite bind_run. unfold api_item at 1. fold update. rewrite Hupdate.
    rewrite bind_run. unfold log_record at 1.
    rewrite bind_run, lift_run. unfold getitem at 1. rewrite Hid.
    rewrite (new_evidence_run _ _ _ _ _ _ raw _ reply).
    - cbn [api_calls issue_list dradis_nodes files log]. by rewrite <-app_assoc.
    - cbn [files]. congruence.
    - done. }
  rewrite Hout. cbn [fst snd api_calls files]. split_and!.
  - done.
  - exists (new1 ++ new2). split; [|by apply Forall_app].
    by rewrite Hc2, Hc1, <-!app_assoc.
  - congruence.
  - intros old (before & hashes & eols & rest & Hraw' & Herase)%field_erase_first.
    exists before, hashes, eols, rest. split; [done|].
    subst text. by rewrite Herase, <-app_assoc.
  - intros Hcut Hne Hline. by apply field_search_block.
Qed.

End Evidence.

Lemma scripted_literal_templates rl ri dirs : @literal_templates (scripted rl ri dirs).
Proof.
  intros template matched Hplain. cbn.
  by rewrite bool_decide_eq_false_2.
Qed.

Lemma export_evidence_falls_back_to_create_witness :
  let σ := session_of [("proj/Nodes/web01 dmz/Evidences/SQL Injection/e1.textile",
                        stale_evidence)] in
  let out := @export_evidence stale_remote "1" (VInt 12) "SQL Injection" evidence_path σ in
  out.1 = Ok () ∧
  (∃ before,
     api_calls out.2
     = api_calls σ ++ before
         ++ [update_evidence "1" (VInt 12) (VInt 7) "41" stale_evidence;
             create_evidence "1" (VInt 12) (VInt 7) stale_evidence]
     ∧ Forall (λ c, is_evidence_call c = false) before) ∧
  files out.2 !! evidence_path = Some ("Details" ++ [LF; LF] ++ evidence_id_block "42").
Proof.
  intros σ out.
  pose (σ1 := (@fetch_issue_list stale_remote "1" σ).2).
  pose (σ2 := (@handle_attachments stale_remote "1" (VInt 12) stale_evidence
                 (path_parent evidence_path) σ1).2).
  destruct (@export_evidence_falls_back_to_create stale_remote "1" (VInt 12) "SQL Injection"
              evidence_path stale_evidence σ σ1 σ2 sql_injection (VInt 7) stale_evidence "41"
              (RemoteError 404) {[ "id" := VInt 42 ]})
    as (Hres & Hcalls & Hfiles & _); try reflexivity; [discriminate|].
  split_and!; [exact Hres | exact Hcalls |].
  subst out. rewrite Hfiles. rewrite lookup_insert_eq. reflexivity.
Defined.


(** ** Rewriting keeps a marker-free text marker-free *)

Lemma replace_replaced (old new s : str) :
  old ≠ [] → replaced old new s (replace old new s).
Proof.
  intros Hold. remember (length s) as n eqn:Hn. revert s Hn.
  induction n as [n IH] using lt_wf_ind. intros s ->.
  rewrite replace_unfold by done.
  destruct (strip_prefix old s) as [rest|] eqn:Hp.
  - pose proof (strip_prefix_shorter _ _ _ Hold Hp) as Hlen.
    apply strip_prefix_Some in Hp as ->. constructor. by eapply IH.
  - destruct s as [|c s]; [constructor|].
    constructor; [done|]. eapply IH; [|done]. simpl. lia.
Qed.

Lemma occurs_in_app_l (p a b : str) : occurs_in p a → occurs_in p (a ++ b).
Proof. intros (x & y & ->). exists x, (y ++ b). by rewrite <-!app_assoc. Qed.

Lemma occurs_in_app_r (p a b : str) : occurs_in p b → occurs_in p (a ++ b).
Proof. intros (x & y & ->). exists (a ++ x), y. by rewrite <-!app_assoc. Qed.

Lemma occurs_in_trans (p q s : str) : occurs_in p q → occurs_in q s → occurs_in p s.
Proof.
  intros (x & y & ->) (x' & y' & ->). exists (x' ++ x), (y ++ y').
  by rewrite <-!app_assoc.
Qed.

Lemma occurs_in_prefix (p s r : str) : strip_prefix p s = Some r → occurs_in p s.
Proof. intros ->%strip_prefix_Some. by exists [], r. Qed.

(** A text that avoids the character [b] occurs on one side of [b]. *)
Lemma occurs_in_app_sep (m x y : str) (b : ascii) :
  b ∉ m → occurs_in m (x ++ b :: y) → occurs_in m x ∨ occurs_in m y.
Proof.
  intros Hb (a & z & Heq). symmetry in Heq.
  apply app_eq_inv in Heq as [(k & -> & Hk)|(k & -> & Hk)].
  - destruct k as [|c k]; simpl in Hk.
    + destruct m as [|c m]; [left; by exists x, []; rewrite app_nil_r|].
      injection Hk as -> _. exfalso. apply Hb. by left.
    + injection Hk as -> ->. right. by exists k, z.
  - apply app_eq_inv in Hk as [(k2 & -> & Hk2)|(k2 & -> & ->)].
    + destruct k2 as [|c k2]; simpl in Hk2.
      * left. exists a, []. by rewrite !app_nil_r.
      * injection Hk2 as -> _. exfalso. apply Hb. rewrite elem_of_app. right. by left.
    + left. by exists a, k2.
Qed.

Lemma contains_app_false_l (p a b : str) : contains p (a ++ b) = false → contains p a = false.
Proof. rewrite !contains_false. intros Hab Ha. by apply Hab, occurs_in_app_l. Qed.

(** A prefix of the result that avoids [b] is a prefix of the text, when
    [old] and [new] begin with [b]. *)
Lemma replaced_prefix (b : ascii) (old new s r m : str) :
  replaced (b :: old) (b :: new) s r → b ∉ m →
  is_Some (strip_prefix m r) → is_Some (strip_prefix m s).
Proof.
  intros Hr Hm. revert m Hm. induction Hr as [|rest r Hr IH|c s r Hc Hr IH]; intros m Hm.
  - done.
  - destruct m as [|x m]; [by eexists|]. apply not_elem_of_cons in Hm as [Hx _].
    cbn. case_decide; [congruence|]. by intros [? ?].
  - destruct m as [|x m]; [by eexists|]. apply not_elem_of_cons in Hm as [_ Hm].
    cbn. case_decide; [|by intros [? ?]]. by apply IH.
Qed.

Lemma occurs_in_cons (p : str) (c : ascii) (s : str) :
  occurs_in p (c :: s) → is_Some (strip_prefix p (c :: s)) ∨ occurs_in p s.
Proof.
  intros ([|x a] & z & Heq).
  - left. exists z. by apply strip_prefix_Some.
  - injection Heq as -> ->. right. by exists a, z.
Qed.

(** Replacing [!...!] by [!mid!] brings no marker in, when the marker has
    no [!] and does not occur in [mid]. *)
Lemma replaced_marker_free (marker old mid s r : str) :
  replaced ("!"%char :: old) ("!"%char :: mid ++ ["!"%char]) s r →
  ("!"%char ∉ marker) → ¬ occurs_in marker mid → ¬ occurs_in marker s →
  ¬ occurs_in marker r.
Proof.
  intros Hr Hbang Hmid.
  induction Hr as [|rest r Hr IH|c s r Hc Hr IH]; intros Hs.
  - done.
  - intros Hocc. rewrite <-app_comm_cons in Hocc.
    apply occurs_in_cons in Hocc as [[z Hz]|Hocc].
    + destruct marker as [|x marker]; [apply Hs; by exists [], (("!"%char :: old) ++ rest)|].
      apply not_elem_of_cons in Hbang as [Hx _]. cbn in Hz. by case_decide.
    + rewrite <-app_assoc in Hocc. apply occurs_in_app_sep in Hocc; [|done].
      destruct Hocc as [Hocc|Hocc]; [done|].
      apply IH; [|done]. intros Hrest. by apply Hs, occurs_in_app_r.
  - intros [Hhere|Hocc]%occurs_in_cons.
    + apply Hs. destruct (replaced_prefix "!" old (mid ++ ["!"%char]) (c :: s) (c :: r) marker)
        as [z Hz]; [by constructor|done|done|].
      by eapply occurs_in_prefix.
    + apply IH; [|done]. intros Hocc'. apply Hs.
      destruct Hocc' as (a & z & ->). by exists (c :: a), z.
Qed.

Lemma replaced_replace (old new s r : str) :
  old ≠ [] → replaced old new s r → r = replace old new s.
Proof.
  intros Hold. induction 1 as [|rest r Hr IH|c s r Hc Hr IH].
  - rewrite replace_unfold by done. by destruct old.
  - by rewrite replace_here, IH.
  - by rewrite replace_unfold, Hc, IH.
Qed.

Lemma replaced_same (b : ascii) (old new s : str) : b ∉ s → replaced (b :: old) new s s.
Proof.
  induction s as [|c s IH]; [constructor|].
  intros [Hc Hs]%not_elem_of_cons. constructor; [by apply strip_prefix_head|by apply IH].
Qed.

(** A tail that begins a new line and holds no [!] is out of reach of the
    replacement of a reference. *)
Lemma replaced_suffix (old new x r suffix : str) :
  LF ∉ ("!"%char :: old) → ("!"%char ∉ suffix) → (suffix = [] ∨ ∃ t, suffix = LF :: t) →
  replaced ("!"%char :: old) new x r →
  replaced ("!"%char :: old) new (x ++ suffix) (r ++ suffix).
Proof.
  intros Hlf Hbang Hsuffix. induction 1 as [|rest r Hr IH|c s r Hc Hr IH].
  - by apply replaced_same.
  - rewrite <-!app_assoc. by constructor.
  - rewrite <-!app_comm_cons. constructor; [|done].
    destruct (strip_prefix ("!"%char :: old) (c :: s ++ suffix)) as [z|] eqn:Hz; [|done].
    exfalso. apply strip_prefix_Some in Hz. rewrite app_comm_cons in Hz. symmetry in Hz.
    apply app_eq_inv in Hz as [(k & Hold & Hk)|(k & Hs & Hk)].
    + destruct k as [|y k].
      * rewrite app_nil_r in Hold. rewrite <-Hold in Hc.
        by rewrite (proj2 (strip_prefix_Some _ _ []) (eq_sym (app_nil_r _))) in Hc.
      * destruct Hsuffix as [->|[t ->]]; [done|]. injection Hk as <- _.
        apply Hlf. rewrite Hold, elem_of_app. right. by left.
    + rewrite Hs in Hc. by rewrite (proj2 (strip_prefix_Some _ _ k) eq_refl) in Hc.
Qed.

Lemma replace_suffix (inner new x suffix : str) :
  LF ∉ inner → ("!"%char ∉ suffix) → (suffix = [] ∨ ∃ t, suffix = LF :: t) →
  replace ("!"%char :: inner ++ ["!"%char]) new (x ++ suffix)
  = replace ("!"%char :: inner ++ ["!"%char]) new x ++ suffix.
Proof.
  intros Hlf Hbang Hsuffix. symmetry. apply replaced_replace; [done|].
  apply replaced_suffix; [|done|done|by apply replace_replaced].
  rewrite not_elem_of_cons, elem_of_app, list_elem_of_singleton.
  split; [done|]. by intros [?|?].
Qed.

(** A reference found in a text with such a tail stands before the tail. *)
Lemma occurs_in_before_suffix (inner body suffix : str) :
  LF ∉ inner → ("!"%char ∉ suffix) → (suffix = [] ∨ ∃ t, suffix = LF :: t) →
  occurs_in ("!"%char :: inner ++ ["!"%char]) (body ++ suffix) →
  occurs_in ("!"%char :: inner ++ ["!"%char]) body.
Proof.
  intros Hlf Hbang Hsuffix (a & z & Heq). symmetry in Heq.
  apply app_eq_inv in Heq as [(k & -> & Hk)|(k & -> & Hk)].
  - exfalso. apply Hbang. rewrite Hk, elem_of_app. right. by left.
  - apply app_eq_inv in Hk as [(k2 & Hm & Hk2)|(k2 & -> & _)].
    + destruct k2 as [|y k2].
      * rewrite app_nil_r in Hm. subst k. exists a, []. by rewrite app_nil_r.
      * exfalso. destruct Hsuffix as [->|[t ->]]; [done|]. injection Hk2 as <- _.
        assert (Hin : LF ∈ "!"%char :: inner ++ ["!"%char]).
        { rewrite Hm, elem_of_app. right. by left. }
        rewrite elem_of_cons, elem_of_app, list_elem_of_singleton in Hin.
        by destruct Hin as [?|[?|?]].
    + by exists a, k2.
Qed.

Lemma split_on_head (sep : ascii) (s w : str) (ws : list str) :
  split_on sep s = w :: ws → ∃ z, s = w ++ z.
Proof.
  revert w ws. induction s as [|x s IH]; intros w ws; simpl.
  - intros [= <- <-]. by exists [].
  - case_decide.
    + intros [= <- <-]. by eexists.
    + destruct (split_on sep s) as [|w0 ws0] eqn:Hs.
      * intros [= <- <-]. exists s. done.
      * intros [= <- <-]. destruct (IH w0 ws0 eq_refl) as [z ->]. by exists z.
Qed.

Lemma split_on_occurs (sep : ascii) (s w : str) : w ∈ split_on sep s → occurs_in w s.
Proof.
  revert w. induction s as [|x s IH]; intros w; simpl.
  - intros ->%list_elem_of_singleton. by exists [], [].
  - assert (Hlater : w ∈ split_on sep s → occurs_in w (x :: s)).
    { intros (a & z & ->)%IH. by exists (x :: a), z. }
    case_decide.
    + intros [->|Hw]%elem_of_cons; [by exists [], (x :: s)|by apply Hlater].
    + destruct (split_on sep s) as [|w0 ws0] eqn:Hs.
      * intros ->%list_elem_of_singleton. by exists [], s.
      * intros [->|Hw]%elem_of_cons.
        -- destruct (split_on_head _ _ _ _ Hs) as [z ->]. by exists [], z.
        -- apply Hlater. by right.
Qed.

Lemma path_name_occurs (s : str) : occurs_in (path_name (Path_of_str s)) s.
Proof.
  unfold path_name, Path_of_str. destruct (span is_slash s) as [slashes rest]. simpl.
  match goal with
  | |- context [List.last ?l ?d] => destruct (last_elem l d) as [->|Hlast]
  end; [by exists [], s|].
  apply list_elem_of_filter in Hlast as [_ Hlast]. by eapply split_on_occurs.
Qed.

Lemma attachment_of_shape (inner : str) :
  ∃ path caption,
    a_path (attachment_of inner) = path ∧
    default [] (a_caption (attachment_of inner)) = caption ∧
    inner = path ++ caption ∧ (caption = [] ∨ ∃ c, caption = "("%char :: c).
Proof.
  unfold attachment_of.
  pose proof (span_app (λ c, bool_decide (c ≠ "("%char)) inner) as Happ.
  pose proof (span_stop (λ c, bool_decide (c ≠ "("%char)) inner) as Hstop.
  destruct (span _ inner) as [path caption]. simpl in *.
  exists path, caption. destruct caption as [|c caption]; simpl; [by auto|].
  split_and!; [done..|]. right. exists caption. f_equal.
  apply bool_decide_eq_false in Hstop. by destruct (decide (c = "("%char)).
Qed.

Lemma dradis_reference_shape (dradis_dir inner : str) :
  dradis_reference dradis_dir (attachment_of inner) =
  "!"%char :: (dradis_dir ++ "/"%char :: path_name (Path_of_str (a_path (attachment_of inner)))
                 ++ default [] (a_caption (attachment_of inner))) ++ ["!"%char].
Proof.
  unfold dradis_reference. cbn [app scons snil]. f_equal.
  rewrite <-app_assoc. f_equal. cbn [app]. f_equal. by rewrite <-app_assoc.
Qed.

(** The text put between the two [!] holds no marker, when the directory
    and the reference hold none and the marker has none of [!], [/], [(]. *)
Lemma reference_marker_free (marker dradis_dir inner : str) :
  ("/"%char ∉ marker) → ("("%char ∉ marker) →
  ¬ occurs_in marker dradis_dir → ¬ occurs_in marker inner →
  ¬ occurs_in marker
      (dradis_dir ++ "/"%char :: path_name (Path_of_str (a_path (attachment_of inner)))
         ++ default [] (a_caption (attachment_of inner))).
Proof.
  intros Hslash Hparen Hdir Hinner.
  destruct (attachment_of_shape inner) as (path & caption & -> & -> & Hsplit & Hcaption).
  intros [Hocc|Hocc]%occurs_in_app_sep; [done| |done].
  assert (Hname : ¬ occurs_in marker (path_name (Path_of_str path))).
  { intros Hn. apply Hinner. rewrite Hsplit. apply occurs_in_app_l.
    eapply occurs_in_trans; [done|apply path_name_occurs]. }
  destruct Hcaption as [->|[c ->]].
  - by rewrite app_nil_r in Hocc.
  - apply occurs_in_app_sep in Hocc as [Hocc|Hocc]; [done| |done].
    apply Hinner. rewrite Hsplit. apply occurs_in_app_r.
    destruct Hocc as (a & z & ->). by exists ("("%char :: a), z.
Qed.

Lemma attachments_dir_avoids (c : ascii) (project_id : str) (node_id : scalar) :
  bool_decide (c ∉ ("/pro/projects/nodes/attachments" : str)) = true →
  c ∉ project_id → c ∉ format node_id → c ∉ attachments_dir project_id node_id.
Proof.
  intros Hc%bool_decide_eq_true Hp Hn. unfold attachments_dir. rewrite !elem_of_app.
  assert (Hsub : ∀ l : str,
    bool_decide (Forall (λ x, x ∈ ("/pro/projects/nodes/attachments" : str)) l) = true →
    c ∉ l).
  { intros l Hl%bool_decide_eq_true Hin. rewrite Forall_forall in Hl. by apply Hc, Hl. }
  intros [Hin|[?|[Hin|[?|Hin]]]]; [|done| |done|]; by apply Hsub in Hin.
Qed.

Lemma for_fold_invariant {A S} (P : S → Prop) (xs : list A) (body : S → A → M S)
    (s r : S) (σ σ' : session) :
  (∀ s x σ s' σ', x ∈ xs → P s → body s x σ = (Ok s', σ') → P s') →
  P s → for_fold xs body s σ = (Ok r, σ') → P r.
Proof.
  revert s σ. induction xs as [|x xs IH]; intros s σ Hbody Hs; cbn [for_fold].
  - by intros [= <- _].
  - rewrite bind_run. destruct (body s x σ) as [[s1|e] σ1] eqn:Hx; [|done].
    apply IH.
    + intros s0 x0 σ0 s' σ0' Hx0. apply Hbody. by right.
    + eapply Hbody; [by left|done..].
Qed.

Section Rewriting.
Context `{Environment}.

Lemma handle_attachment_content (dradis_dir : str) (existing : list dict) (file_path : Path)
    (content content' : str) (upload upload' : list Path) (a : attachment) (σ σ' : session) :
  literal_templates → ("\"%char ∉ dradis_reference dradis_dir a) →
  handle_attachment dradis_dir existing file_path (content, upload) a σ
  = (Ok (content', upload'), σ') →
  content' = content ∨ content' = replace (a_match a) (dradis_reference dradis_dir a) content.
Proof.
  intros Hliteral Hplain. unfold handle_attachment. rewrite bind_run, lift_run.
  destruct (any_filename existing _) as [[]|]; [| |done].
  - rewrite bind_run, lift_run, Hliteral by done. intros [= <- _ _]. by right.
  - rewrite bind_run. unfold is_file at 1.
    destruct (bool_decide _).
    + rewrite bind_run, lift_run, Hliteral by done. intros [= <- _ _]. by right.
    + rewrite bind_run. unfold log_record at 1. intros [= <- _ _]. by left.
Qed.

(** The rewriting of the attachments brings no EvidenceID marker into a
    text that has none, and leaves alone a tail that begins a new line and
    holds no [!]. *)
Lemma handle_attachments_marker_free (project_id : str) (node_id : scalar)
    (body suffix : str) (file_path : Path) (σ σ' : session) (content : str) :
  literal_templates →
  ("\"%char ∉ project_id) → ("\"%char ∉ format node_id) → ("\"%char ∉ body) →
  ("#"%char ∉ project_id) → ("#"%char ∉ format node_id) →
  contains EVIDENCE_ID_MARKER body = false →
  ("!"%char ∉ suffix) → (suffix = [] ∨ ∃ t, suffix = LF :: t) →
  handle_attachments project_id node_id (body ++ suffix) file_path σ = (Ok content, σ') →
  ∃ body', content = body' ++ suffix ∧ contains EVIDENCE_ID_MARKER body' = false.
Proof.
  intros Hliteral Hp1 Hn1 Hb1 Hp2 Hn2 Hbody Hbang Hsuffix.
  unfold handle_attachments. rewrite bind_run.
  destruct (api_list _ σ) as [[existing|?] σ1]; [|done].
  fold (attachments_dir project_id node_id).
  set (dradis_dir := attachments_dir project_id node_id).
  assert (Hstart : ∃ body', body ++ suffix = body' ++ suffix
                            ∧ contains EVIDENCE_ID_MARKER body' = false) by by exists body.
  destruct (finditer (body ++ suffix)) as [|a0 attachments] eqn:Hfind.
  { by intros [= <- _]. }
  rewrite <-Hfind. rewrite bind_run.
  destruct (for_fold _ _ _ σ1) as [[[content1 upload1]|?] σ2] eqn:Hloop; [|done].
  assert (Hinv : ∃ body', content1 = body' ++ suffix
                          ∧ contains EVIDENCE_ID_MARKER body' = false).
  { apply (for_fold_invariant
             (λ vars, ∃ body', vars.1 = body' ++ suffix
                               ∧ contains EVIDENCE_ID_MARKER body' = false)
             _ _ _ _ _ _) in Hloop; [done| |done].
    clear Hloop. intros [c up] a σa [c' up'] σa' Ha (body' & Hc & Hfree) Hstep.
    cbn [fst] in *. subst c.
    apply finditer_elem in Ha as (inner & -> & Hinner_bang & Hinner_lf & Hocc).
    change ("!" ++ inner ++ "!") with ("!"%char :: inner ++ ["!"%char]) in Hocc.
    apply occurs_in_before_suffix in Hocc; [|done..].
    assert (Hinner : occurs_in inner body).
    { eapply occurs_in_trans; [|done]. by exists ["!"%char], ["!"%char]. }
    assert (Hdir_plain : "\"%char ∉ dradis_dir) by by apply attachments_dir_avoids.
    assert (Hdir_hash : "#"%char ∉ dradis_dir) by by apply attachments_dir_avoids.
    apply handle_attachment_content in Hstep as [->| ->]; [by exists body'| |done|].
    - rewrite attachment_of_match.
      change ("!" ++ inner ++ "!") with ("!"%char :: inner ++ ["!"%char]).
      rewrite replace_suffix by done. eexists. split; [done|].
      apply contains_false. rewrite dradis_reference_shape.
      eapply replaced_marker_free; [by apply replace_replaced| | |].
      + by apply not_elem_of_literal.
      + apply reference_marker_free; [by apply not_elem_of_literal..| |].
        * intros Hd. apply Hdir_hash. eapply occurs_in_elem; [done|]. by apply elem_of_literal.
        * intros Hi. apply contains_false in Hbody. apply Hbody.
          by eapply occurs_in_trans.
      + by apply contains_false.
    - intros [?|[?|[?|Hin]]]%dradis_reference_elem; [done..|].
      apply Hb1. by eapply occurs_in_elem. }
  destruct upload1 as [|p upload1].
  - by intros [= <- _].
  - rewrite bind_run. destruct (api_item _ σ2) as [[?|?] ?]; [|done]. by intros [= <- _].
Qed.

End Rewriting.

Section Evidence_creation.
Context `{Environment}.


End Evidence_creation.



(** * Further properties of the exporter *)

Section Reading.
Context `{Environment}.


End Reading.

(** ** Issues and nodes: update, create, and the stale cache *)

Section Issues_and_nodes.
Context `{Environment}.

(** The session after the request [c] was sent from [σ]. *)
Lemma api_item_run (c : call) (σ : session) :
  (api_item c ≫= λ _, mret ()) σ
  = (discard (reply_item (api_calls σ) c),
     mkSession (api_calls σ ++ [c]) (issue_list σ) (dradis_nodes σ) (files σ) (log σ)).
Proof. rewrite bind_run. unfold api_item. by destruct (reply_item _ _). Qed.

Lemma fetch_dradis_nodes_cached (project_id : str) (σ : session) :
  dradis_nodes σ ≠ [] → fetch_dradis_nodes project_id σ = (Ok (), σ).
Proof.
  intros Hσ. unfold fetch_dradis_nodes. rewrite bind_run. cbn.
  by destruct (dradis_nodes σ).
Qed.

Lemma fetch_issue_list_files (project_id : str) (σ σ1 : session) :
  fetch_issue_list project_id σ = (Ok (), σ1) → files σ1 = files σ.
Proof. by intros (? & _)%fetch_issue_list_frame. Qed.

(** [export_issue] on a titled file, once the issue list is at hand. *)
Lemma export_issue_run (project_id : str) (file : Path) (raw title : str) (σ σ1 : session) :
  path_suffix file = ".textile" → files σ !! file = Some raw → raw ≠ [] →
  get_title raw = Ok title → title ≠ [] →
  fetch_issue_list project_id σ = (Ok (), σ1) →
  export_issue project_id file σ =
    match get_item_from_dict_list (issue_list σ1) "title" title with
    | Raise e => (Raise e, σ1)
    | Ok None => (api_item (create_issue project_id raw) ≫= λ _, mret ()) σ1
    | Ok (Some issue) =>
        match getitem issue "id" with
        | Ok issue_id => (api_item (update_issue project_id issue_id raw) ≫= λ _, mret ()) σ1
        | Raise e => (Raise e, σ1)
        end
    end.
Proof.
  intros Hsuffix Hfile Hraw Htitle Hne Hfetch.
  unfold export_issue. rewrite bind_run, (get_textile_content_textile _ raw) by done.
  destruct raw as [|c raw]; [done|]. rewrite bind_run, lift_run, Htitle.
  destruct title as [|t title]; [done|].
  rewrite bind_run, Hfetch. rewrite bind_run. unfold get_issue_list at 1.
  rewrite bind_run, lift_run.
  destruct (get_item_from_dict_list _ _ _) as [[issue|]|e]; [|done..].
  rewrite bind_run, lift_run. by destruct (getitem issue "id").
Qed.

(** A titled issue file is sent in one request after the listing:
    [update_issue] with the id of the remote issue whose title matches the
    file's title, [create_issue] when no remote issue matches; the content
    sent is the text of the file, and the outcome is that of the
    request. *)
Theorem export_issue_updates_or_creates (project_id : str) (file : Path) (raw title : str)
    (σ σ1 : session) :
  path_suffix file = ".textile" → files σ !! file = Some raw → raw ≠ [] →
  get_title raw = Ok title → title ≠ [] →
  fetch_issue_list project_id σ = (Ok (), σ1) →
  let sent (c : call) :=
    (discard (reply_item (api_calls σ1) c),
     mkSession (api_calls σ1 ++ [c]) (issue_list σ1) (dradis_nodes σ1) (files σ1) (log σ1)) in
  (∀ issue issue_id,
     get_item_from_dict_list (issue_list σ1) "title" title = Ok (Some issue) →
     issue !! ("id" : str) = Some issue_id →
     export_issue project_id file σ = sent (update_issue project_id issue_id raw)) ∧
  (get_item_from_dict_list (issue_list σ1) "title" title = Ok None →
     export_issue project_id file σ = sent (create_issue project_id raw)).
Proof.
  intros Hsuffix Hfile Hraw Htitle Hne Hfetch sent.
  pose proof (export_issue_run _ _ _ _ _ _ Hsuffix Hfile Hraw Htitle Hne Hfetch) as Hrun.
  split.
  - intros issue issue_id Hfound Hid. rewrite Hrun, Hfound. unfold getitem. rewrite Hid.
    apply api_item_run.
  - intros Habsent. rewrite Hrun, Habsent. apply api_item_run.
Qed.

(** An issue created during the session is not added to the cached list.
    With a filled cache that lacks the title, a second export of the same
    file finds no issue again and sends a second [create_issue]. *)
Theorem export_issue_twice_creates_twice (project_id : str) (file : Path) (raw title : str)
    (σ : session) (reply : dict) :
  path_suffix file = ".textile" → files σ !! file = Some raw → raw ≠ [] →
  get_title raw = Ok title → title ≠ [] →
  issue_list σ ≠ [] →
  get_item_from_dict_list (issue_list σ) "title" title = Ok None →
  reply_item (api_calls σ) (create_issue project_id raw) = Ok reply →
  (export_issue project_id file ≫= λ _, export_issue project_id file) σ
  = (discard (reply_item (api_calls σ ++ [create_issue project_id raw])
                (create_issue project_id raw)),
     mkSession (api_calls σ ++ [create_issue project_id raw; create_issue project_id raw])
       (issue_list σ) (dradis_nodes σ) (files σ) (log σ)).
Proof.
  intros Hsuffix Hfile Hraw Htitle Hne Hcache Habsent Hreply.
  rewrite bind_run.
  rewrite (export_issue_run _ _ raw title σ σ) by (done || by apply fetch_issue_list_cached).
  rewrite Habsent, api_item_run, Hreply. cbn [discard].
  set (σ' := mkSession _ _ _ _ _).
  rewrite (export_issue_run _ _ raw title σ' σ') by (done || by apply fetch_issue_list_cached).
  cbn [issue_list σ']. rewrite Habsent, api_item_run. subst σ'. cbn.
  by rewrite <-app_assoc.
Qed.

(** A node created during the session is not added to the cached list
    either.  With a filled cache that lacks the name of the folder,
    [export_node] sends [create_node] for it first, leaves the cache as it
    was, and sends [create_node] again when it is run once more. *)
Theorem export_node_creates_again (project_id : str) (node_folder : Path) (σ : session) :
  dradis_nodes σ ≠ [] →
  get_item_from_dict_list (dradis_nodes σ) "label" (path_name node_folder) = Ok None →
  let c := create_node project_id (path_name node_folder) 1 in
  let σ' := (export_node project_id node_folder σ).2 in
  (∃ rest, api_calls σ' = api_calls σ ++ c :: rest) ∧
  dradis_nodes σ' = dradis_nodes σ ∧
  (∃ rest, api_calls (export_node project_id node_folder σ').2 = api_calls σ' ++ c :: rest).
Proof.
  assert (Hfirst : ∀ σ0, dradis_nodes σ0 ≠ [] →
    get_item_from_dict_list (dradis_nodes σ0) "label" (path_name node_folder) = Ok None →
    ∃ rest, api_calls (export_node project_id node_folder σ0).2
            = api_calls σ0 ++ create_node project_id (path_name node_folder) 1 :: rest).
  { intros σ0 Hcache Habsent. unfold export_node.
    rewrite bind_run, fetch_dradis_nodes_cached by done.
    rewrite bind_run. unfold get_dradis_nodes at 1. rewrite bind_run, lift_run, Habsent.
    rewrite bind_run. rewrite (bind_run (api_item _)). unfold api_item at 1.
    destruct (reply_item _ _) as [result|e]; [|by exists []].
    rewrite lift_run. destruct (getitem result "id") as [node_id|e]; [|by exists []].
    set (σ1 := mkSession _ _ _ _ _).
    match goal with |- ∃ rest, api_calls (?k σ1).2 = _ => assert (Hk : steady Nodes k) end.
    { destruct (is_dir _); [|apply steady_ret].
      apply steady_bind; [apply steady_get_folders_in_folder|]. intros folders.
      apply steady_for_each. intros folder.
      apply steady_bind; [apply steady_get_files_in_folder|]. intros evidences.
      apply steady_for_each. intros file. apply steady_export_evidence. }
    destruct (Hk σ1) as (_ & new & -> & _); [done|].
    exists new. subst σ1. cbn [api_calls]. by rewrite <-app_assoc. }
  intros Hcache Habsent c σ'.
  destruct (steady_export_node Nodes project_id node_folder σ Hcache) as (Hsame & _).
  cbn [cached] in Hsame. fold σ' in Hsame.
  split_and!; [by apply Hfirst|done|].
  apply Hfirst; by rewrite Hsame.
Qed.

End Issues_and_nodes.

Lemma export_issue_updates_or_creates_witness :
  let text := issue_text "sql injection" in
  let σ := session_of [("proj/Issues/sqli.textile", text)] in
  api_calls (@export_issue small_remote "1" (Path_of_str "proj/Issues/sqli.textile") σ).2
  = [get_all_issues "1"; update_issue "1" (VInt 7) text].
Proof.
  intros text σ.
  destruct (@export_issue_updates_or_creates small_remote "1"
              (Path_of_str "proj/Issues/sqli.textile") text "sql injection" σ
              (@fetch_issue_list small_remote "1" σ).2) as [Hupdate _];
    [reflexivity | reflexivity | discriminate | reflexivity | discriminate | reflexivity |].
  rewrite (Hupdate sql_injection (VInt 7)); reflexivity.
Defined.

Lemma export_issue_twice_creates_twice_witness :
  let σ := mkSession [] [sql_injection] [] (files batch_session) [] in
  let file := Path_of_str "proj/Issues/a.textile" in
  api_calls ((@export_issue batch_remote "1" file ≫= λ _, @export_issue batch_remote "1" file) σ).2
  = [create_issue "1" (issue_text "A"); create_issue "1" (issue_text "A")].
Proof.
  intros σ file.
  rewrite (@export_issue_twice_creates_twice batch_remote "1" file (issue_text "A") "A" σ
             {[ "id" := VInt 1 ]});
    [reflexivity | reflexivity | reflexivity | discriminate | reflexivity | discriminate
    | discriminate | reflexivity | reflexivity].
Defined.

Lemma export_node_creates_again_witness :
  let σ := mkSession [] [] [web01] ∅ [] in
  let folder := Path_of_str "proj/Nodes/db02" in
  let σ' := (@export_node small_remote "1" folder σ).2 in
  ∃ rest, api_calls (@export_node small_remote "1" folder σ').2
          = api_calls σ' ++ create_node "1" "db02" 1 :: rest.
Proof.
  intros σ folder σ'.
  apply (@export_node_creates_again small_remote "1" folder σ);
    [discriminate | reflexivity].
Defined.

(** ** Titles *)

(** [get_title] returns the line that follows the first [#[Title]#]
    marker: further [#] after the marker and any run of line ends (LF, CR or
    both) are passed over, and the title runs to the end of its line.  When
    that line opens another field, the title is empty. *)
Theorem get_title_reads_line_after_marker (before hashes eols title rest : str) :
  "#"%char ∉ before →
  Forall (λ c, c = "#"%char) hashes →
  eols ≠ [] → Forall (λ c, c = CR ∨ c = LF) eols →
  title ≠ [] → Forall (λ c, c ≠ CR ∧ c ≠ LF) title →
  (rest = [] ∨ ∃ c r, rest = c :: r ∧ (c = CR ∨ c = LF)) →
  get_title (before ++ "#[Title]#" ++ hashes ++ eols ++ title ++ rest)
  = Ok (if startswith title "#[" then [] else title).
Proof.
  intros Hbefore Hhashes Hne Heols Hnt Htitle Hrest.
  assert (Hsearch : field_search TITLE_MARKER
            (before ++ "#[Title]#" ++ hashes ++ eols ++ title ++ rest) = Some title).
  { unfold TITLE_MARKER. cbn [scons snil]. rewrite field_search_skip by done.
    apply (field_search_here _ _ _ rest).
    apply (field_match_field ("#[Title]#") hashes eols title rest); try done.
    - eapply Forall_impl; [exact Hhashes|]. intros c ->. done.
    - eapply Forall_impl; [exact Heols|]. intros c Hc. unfold is_eol.
      by apply bool_decide_eq_true.
    - eapply Forall_impl; [exact Htitle|]. intros c [Hcr Hlf]. unfold not_eol, is_eol.
      apply negb_true_iff, bool_decide_eq_false. tauto.
    - destruct Hrest as [->|(c & r & -> & Hc)]; [done|]. unfold is_eol.
      by apply bool_decide_eq_true. }
  unfold get_title. rewrite Hsearch. by destruct (startswith title "#[").
Qed.

Lemma get_title_reads_line_after_marker_witness :
  get_title ("h1. Report" ++ [LF] ++ "#[Title]#" ++ [CR; LF] ++ "Weak TLS" ++ [CR; LF]
               ++ "#[Description]#") = Ok "Weak TLS".
Proof.
  apply (get_title_reads_line_after_marker ("h1. Report" ++ [LF]) [] [CR; LF] "Weak TLS"
           ([CR; LF] ++ "#[Description]#")).
  - apply not_elem_of_literal. reflexivity.
  - constructor.
  - discriminate.
  - apply Forall_cons; split; [by left|]. apply Forall_cons; split; [by right|]. constructor.
  - discriminate.
  - repeat (constructor; [split; discriminate|]). constructor.
  - right. eexists _, _. split; [reflexivity|]. by left.
Defined.

(** ** Paths given on the command line *)

Lemma rstrip_snoc (c : ascii) (s : str) : rstrip c (s ++ [c]) = rstrip c s.
Proof.
  unfold rstrip. rewrite reverse_app. cbn [reverse rev_append app].
  change (rev_append [c] []) with [c]. cbn [app span].
  rewrite bool_decide_eq_true_2 by done. by destruct (span _ (reverse s)).
Qed.

Lemma rstrip_replicate (c : ascii) (n : nat) (s : str) :
  rstrip c (s ++ replicate n c) = rstrip c s.
Proof.
  induction n as [|n IH]; [by rewrite app_nil_r|].
  rewrite replicate_S_end, app_assoc, rstrip_snoc. apply IH.
Qed.

Section Command_line.
Context `{Environment}.

(** Double quotes at the end of the path, as Windows tab completion
    leaves them, change nothing of what [update_project] does. *)
Theorem update_project_ignores_trailing_quotes (project_id path : str) (n : nat)
    (σ : session) :
  update_project project_id (path ++ replicate n DQUOTE) σ = update_project project_id path σ.
Proof. unfold update_project. by rewrite rstrip_replicate. Qed.

End Command_line.

(** ** Escapes that pandoc adds *)

Lemma replaced_length (old new s r : str) :
  length new ≤ length old → replaced old new s r → length r ≤ length s.
Proof.
  intros Hlen. induction 1 as [|rest r Hr IH|c s r Hc Hr IH]; [done| |simpl; lia].
  rewrite !length_app. lia.
Qed.

Lemma replace_length (old new s : str) :
  old ≠ [] → length new ≤ length old → length (replace old new s) ≤ length s.
Proof. intros Hold Hlen. eapply replaced_length; [done|]. by apply replace_replaced. Qed.

(** One replacement on a marked text takes back the escapes of its
    character and no other. *)
Lemma replace_escape_in (x : ascii) (chars : str) (marked : list (ascii * bool)) :
  "\"%char ∉ plain marked →
  replace ["\"%char; x] [x] (escape_in chars marked) = escape_in (remove_char x chars) marked.
Proof.
  unfold plain, escape_in. induction marked as [|[c b] marked IH]; intros Hplain.
  - by rewrite replace_unfold.
  - cbn [map fst] in Hplain. apply not_elem_of_cons in Hplain as [Hc Hplain].
    cbn [flat_map fst snd]. specialize (IH Hplain).
    assert (Hskip : ∀ rest, replace ["\"%char; x] [x] (c :: rest)
                            = c :: replace ["\"%char; x] [x] rest).
    { intros rest. by rewrite replace_unfold, strip_prefix_head. }
    destruct (b && bool_decide (c ∈ chars)) eqn:Hmark.
    + apply andb_true_iff in Hmark as [-> Hin%bool_decide_eq_true]. cbn [andb app].
      destruct (decide (c = x)) as [->|Hne].
      * change ("\"%char :: x :: ?r) with (["\"%char; x] ++ r).
        rewrite (replace_here ["\"%char; x] [x]) by done.
        rewrite bool_decide_eq_false_2.
        -- cbn [app]. by rewrite IH.
        -- unfold remove_char. rewrite list_elem_of_filter. tauto.
      * rewrite replace_unfold by done. cbn [strip_prefix].
        rewrite decide_True by done. rewrite decide_False by done.
        rewrite Hskip, IH. rewrite bool_decide_eq_true_2; [done|].
        unfold remove_char. by rewrite list_elem_of_filter.
    + cbn [app]. rewrite Hskip, IH.
      destruct (b && bool_decide (c ∈ remove_char x chars)) eqn:Hmark'; [|done].
      apply andb_true_iff in Hmark' as [-> Hin%bool_decide_eq_true].
      unfold remove_char in Hin. apply list_elem_of_filter in Hin as [_ Hin].
      cbn [andb] in Hmark. by apply bool_decide_eq_false in Hmark.
Qed.

(** A replacement whose text opens with a backslash and a character that
    carries no escape finds nothing in a marked text. *)
Lemma replace_escape_in_none (y : ascii) (old new chars : str) (marked : list (ascii * bool)) :
  "\"%char ∉ plain marked → y ∉ chars →
  replace ("\"%char :: y :: old) new (escape_in chars marked) = escape_in chars marked.
Proof.
  unfold plain, escape_in. induction marked as [|[c b] marked IH]; intros Hplain Hy.
  - by rewrite replace_unfold.
  - cbn [map fst] in Hplain. apply not_elem_of_cons in Hplain as [Hc Hplain].
    cbn [flat_map fst snd]. specialize (IH Hplain Hy).
    assert (Hskip : ∀ rest, replace ("\"%char :: y :: old) new (c :: rest)
                            = c :: replace ("\"%char :: y :: old) new rest).
    { intros rest. by rewrite replace_unfold, strip_prefix_head. }
    destruct (b && bool_decide (c ∈ chars)) eqn:Hmark.
    + apply andb_true_iff in Hmark as [-> Hin%bool_decide_eq_true]. cbn [app].
      rewrite replace_unfold by done. cbn [strip_prefix].
      rewrite decide_True by done. rewrite decide_False by (intros ->; done).
      by rewrite Hskip, IH.
    + cbn [app]. by rewrite Hskip, IH.
Qed.

Lemma escape_in_nil (marked : list (ascii * bool)) : escape_in [] marked = plain marked.
Proof.
  unfold escape_in, plain. induction marked as [|[c b] marked IH]; [done|].
  cbn [flat_map map fst snd]. rewrite bool_decide_eq_false_2 by apply not_elem_of_nil.
  rewrite andb_false_r. cbn [app]. by rewrite IH.
Qed.

(** [replace_unecessary_escape] leaves a text without backslash as it is,
    and never makes a text longer. *)
Theorem replace_unecessary_escape_plain_text (text : str) :
  ("\"%char ∉ text → replace_unecessary_escape text = text) ∧
  length (replace_unecessary_escape text) ≤ length text.
Proof.
  split.
  - intros Htext. unfold replace_unecessary_escape. cbn zeta.
    cbv [scons snil]. by rewrite !(replace_none "\"%char _ _ text Htext).
  - unfold replace_unecessary_escape. cbn zeta.
    repeat (etrans; [apply replace_length; [done|simpl; lia]|]). done.
Qed.

(** In a text that holds no backslash of its own, a backslash put before
    any occurrences of [< > * _ [ ] # | ~] is taken away again: the text
    comes back as it was before the escapes. *)
Theorem replace_unecessary_escape_undoes_escapes (marked : list (ascii * bool)) :
  "\"%char ∉ plain marked →
  replace_unecessary_escape (escape marked) = plain marked.
Proof.
  intros Hplain. unfold replace_unecessary_escape, escape, escaped_chars. cbn zeta.
  change ("\<") with ["\"%char; "<"%char]. change ("<" : str) with ["<"%char].
  rewrite (replace_escape_in "<") by done.
  change ("\>") with ["\"%char; ">"%char]. change (">" : str) with [">"%char].
  rewrite (replace_escape_in ">") by done.
  change ("\\") with ("\"%char :: "\"%char :: []).
  rewrite (replace_escape_in_none "\"%char []) by (done || by apply not_elem_of_literal).
  change ("\*") with ["\"%char; "*"%char]. change ("*" : str) with ["*"%char].
  rewrite (replace_escape_in "*") by done.
  change ("\_") with ["\"%char; "_"%char]. change ("_" : str) with ["_"%char].
  rewrite (replace_escape_in "_") by done.
  change ("\[") with ["\"%char; "["%char]. change ("[" : str) with ["["%char].
  rewrite (replace_escape_in "[") by done.
  change ("\]") with ["\"%char; "]"%char]. change ("]" : str) with ["]"%char].
  rewrite (replace_escape_in "]") by done.
  change ("\#") with ["\"%char; "#"%char]. change ("#" : str) with ["#"%char].
  rewrite (replace_escape_in "#") by done.
  change ("\|") with ["\"%char; "|"%char]. change ("|" : str) with ["|"%char].
  rewrite (replace_escape_in "|") by done.
  change ("\~") with ["\"%char; "~"%char]. change ("~" : str) with ["~"%char].
  rewrite (replace_escape_in "~") by done.
  change ("\.\.") with ("\"%char :: "."%char :: "\.").
  rewrite (replace_escape_in_none "."%char "\.") by (done || by apply not_elem_of_literal).
  apply escape_in_nil.
Qed.

Lemma replace_unecessary_escape_plain_text_witness :
  replace_unecessary_escape "a_b [c] #1" = "a_b [c] #1".
Proof.
  apply (replace_unecessary_escape_plain_text "a_b [c] #1").
  apply not_elem_of_literal. reflexivity.
Defined.

Lemma replace_unecessary_escape_undoes_escapes_witness :
  replace_unecessary_escape "\#\[Title\]\# a\_b < c" = "#[Title]# a_b < c".
Proof.
  apply (replace_unecessary_escape_undoes_escapes
           [("#"%char, true); ("["%char, true); ("T"%char, false); ("i"%char, false);
            ("t"%char, false); ("l"%char, false); ("e"%char, false); ("]"%char, true);
            ("#"%char, true); (" "%char, false); ("a"%char, false); ("_"%char, true);
            ("b"%char, false); (" "%char, false); ("<"%char, false); (" "%char, false);
            ("c"%char, false)]).
  apply not_elem_of_literal. reflexivity.
Defined.

(** ** Paths *)

Lemma split_on_plain (sep : ascii) (w : str) : sep ∉ w → split_on sep w = [w].
Proof.
  induction w as [|c w IH]; [done|]. intros [Hc Hw]%not_elem_of_cons.
  cbn [split_on]. rewrite decide_False by done. by rewrite IH.
Qed.

Lemma split_on_app (sep : ascii) (w rest : str) :
  sep ∉ w → split_on sep (w ++ sep :: rest) = w :: split_on sep rest.
Proof.
  induction w as [|c w IH]; intros Hw.
  - cbn [app split_on]. by rewrite decide_True.
  - apply not_elem_of_cons in Hw as [Hc Hw].
    cbn [app split_on]. rewrite decide_False by done. by rewrite IH.
Qed.

Lemma join_cons (sep w : str) (ws : list str) :
  ws ≠ [] → join sep (w :: ws) = w ++ sep ++ join sep ws.
Proof. by destruct ws. Qed.

Lemma split_on_join (sep : ascii) (ws : list str) :
  ws ≠ [] → Forall (λ w, sep ∉ w) ws → split_on sep (join [sep] ws) = ws.
Proof.
  induction ws as [|w ws IH]; [done|]. intros _ [Hw Hws]%Forall_cons.
  destruct ws as [|w' ws].
  - cbn [join]. by apply split_on_plain.
  - rewrite join_cons by done. cbn [app]. rewrite split_on_app by done.
    by rewrite IH.
Qed.

Lemma filter_all {A} (P : A → Prop) `{∀ x, Decision (P x)} (l : list A) :
  Forall P l → filter P l = l.
Proof.
  induction 1 as [|x l Hx _ IH]; [done|]. rewrite filter_cons_True by done. by rewrite IH.
Qed.

Lemma simple_names_kept (ps : list str) :
  Forall simple_name ps → filter (λ x : str, x ≠ [] ∧ x ≠ ".") ps = ps.
Proof.
  intros Hps. apply filter_all. eapply Forall_impl; [done|]. intros x (? & ? & _). done.
Qed.

(** A well-formed path is read back from its text. *)
Lemma Path_of_str_path_str (p : Path) : wf_path p → Path_of_str (path_str p) = p.
Proof.
  destruct p as [a ps]. intros [Ha Hps]. cbn [anchor parts] in *.
  destruct ps as [|x ps].
  - apply elem_of_cons in Ha as [->|Ha]; [done|].
    apply elem_of_cons in Ha as [->|Ha]; [done|].
    apply list_elem_of_singleton in Ha as ->. done.
  - assert (Hjoin : split_on "/" (join "/" (x :: ps)) = x :: ps).
    { apply (split_on_join "/"%char); [done|].
      eapply Forall_impl; [done|]. by intros y (_ & _ & ?). }
    assert (Hhead : ∃ c r, join "/" (x :: ps) = c :: r ∧ is_slash c = false).
    { apply Forall_cons in Hps as [(Hx & _ & Hslash) _]. destruct x as [|c x]; [done|].
      apply not_elem_of_cons in Hslash as [Hc _].
      destruct ps; eexists c, _; (split; [reflexivity|]); by apply bool_decide_eq_false. }
    destruct Hhead as (c & r & Hcr & Hc).
    assert (Hstr : path_str (mkPath a (x :: ps)) = a ++ join "/" (x :: ps)).
    { unfold path_str. cbn [anchor parts]. by destruct a. }
    rewrite Hstr. unfold Path_of_str.
    assert (Hspan : span is_slash (a ++ join "/" (x :: ps)) = (a, join "/" (x :: ps))).
    { apply span_exact.
      - apply elem_of_cons in Ha as [->|Ha]; [constructor|].
        apply elem_of_cons in Ha as [->|Ha]; [by repeat constructor|].
        apply list_elem_of_singleton in Ha as ->. by repeat constructor.
      - by rewrite Hcr. }
    rewrite Hspan. f_equal.
    + apply elem_of_cons in Ha as [->|Ha]; [done|].
      apply elem_of_cons in Ha as [->|Ha]; [done|].
      apply list_elem_of_singleton in Ha as ->. done.
    + apply elem_of_cons in Ha as [->|Ha].
      { cbn [app]. rewrite Hjoin. by apply simple_names_kept. }
      apply elem_of_cons in Ha as [->|Ha].
      { change ("/" ++ ?s) with ([] ++ "/"%char :: s).
        rewrite split_on_app by apply not_elem_of_nil. rewrite Hjoin.
        rewrite filter_cons_False by (intros [? _]; done). by apply simple_names_kept. }
      apply list_elem_of_singleton in Ha as ->.
      change ("//" ++ ?s) with ([] ++ "/"%char :: ([] ++ "/"%char :: s)).
      rewrite !split_on_app by apply not_elem_of_nil. rewrite Hjoin.
      rewrite !filter_cons_False by (intros [? _]; done). by apply simple_names_kept.
Qed.

Lemma split_on_no_sep (sep : ascii) (s w : str) : w ∈ split_on sep s → sep ∉ w.
Proof.
  revert w. induction s as [|x s IH]; intros w; cbn [split_on].
  - intros ->%list_elem_of_singleton. apply not_elem_of_nil.
  - case_decide as Hx.
    + intros [->|Hw]%elem_of_cons; [apply not_elem_of_nil|by apply IH].
    + destruct (split_on sep s) as [|w0 ws] eqn:Hs.
      * intros ->%list_elem_of_singleton. apply not_elem_of_cons. split; [done|].
        apply not_elem_of_nil.
      * intros [->|Hw]%elem_of_cons.
        -- apply not_elem_of_cons. split; [done|]. apply IH. by left.
        -- apply IH. by right.
Qed.

(** Every path read from a text is well-formed. *)
Lemma Path_of_str_wf (s : str) : wf_path (Path_of_str s).
Proof.
  unfold Path_of_str. destruct (span is_slash s) as [slashes rest]. split; cbn [anchor parts].
  - destruct slashes as [|? [|? [|? ?]]]; set_solver.
  - apply Forall_forall. intros x [[Hx Hdot] Hin]%list_elem_of_filter.
    split_and!; [done..|]. by eapply split_on_no_sep.
Qed.

Lemma path_parent_wf (p : Path) : wf_path p → wf_path (path_parent p).
Proof.
  intros [Ha Hps]. split; [done|]. cbn [path_parent parts].
  destruct (parts p) as [|x ps] using rev_ind; [done|].
  rewrite removelast_last. by apply Forall_app in Hps as [? _].
Qed.

Lemma Path_of_str_simple (x : str) : simple_name x → Path_of_str x = mkPath [] [x].
Proof.
  intros Hx. transitivity (Path_of_str (path_str (mkPath [] [x]))); [done|].
  apply Path_of_str_path_str.
  split; cbn [anchor parts]; [set_solver|]. apply Forall_cons. split; [done|constructor].
Qed.

Lemma path_join_simple (p : Path) (x : str) :
  simple_name x → path_join p x = mkPath (anchor p) (parts p ++ [x]).
Proof. intros Hx. unfold path_join. by rewrite Path_of_str_simple. Qed.

Lemma join_snoc (sep : str) (ps : list str) (x : str) :
  ps ≠ [] → join sep (ps ++ [x]) = join sep ps ++ sep ++ x.
Proof.
  induction ps as [|p ps IH]; [done|]. intros _. destruct ps as [|p' ps].
  - done.
  - rewrite <-!app_comm_cons. rewrite (join_cons sep p (p' :: ps ++ [x])) by done.
    rewrite (join_cons sep p (p' :: ps)) by done.
    rewrite app_comm_cons, IH by done. by rewrite <-!app_assoc.
Qed.

Lemma join_snoc_app (sep : str) (ps : list str) (x ext : str) :
  join sep (ps ++ [x]) ++ ext = join sep (ps ++ [x ++ ext]).
Proof.
  destruct ps as [|p ps]; [done|].
  rewrite !join_snoc by done. by rewrite <-!app_assoc.
Qed.

Lemma path_str_parts (a : str) (ps : list str) :
  ps ≠ [] → path_str (mkPath a ps) = a ++ join "/" ps.
Proof. intros Hps. unfold path_str. cbn [anchor parts]. destruct a; by destruct ps. Qed.

(** [Path(f"{p}/{name}")] adds the component [name], unless [p] is a bare
    root (where the two slashes that result are kept as the anchor). *)
Lemma path_child_simple (p : Path) (name : str) :
  wf_path p → parts p ≠ [] ∨ anchor p = [] → simple_name name →
  path_child p name = mkPath (anchor p) (parts p ++ [name]).
Proof.
  intros Hp Hroot Hname. unfold path_child.
  destruct (decide (parts p = [])) as [Hnil|Hparts].
  { destruct Hroot as [?|Hanchor]; [done|]. destruct p as [a ps]. cbn [anchor parts] in *.
    subst a ps. destruct Hname as (Hne & Hdot & Hslash).
    unfold Path_of_str. change (path_str (mkPath [] []) ++ "/" ++ name)
      with ("."%char :: "/"%char :: name).
    change (span is_slash ("."%char :: "/"%char :: name))
      with ([] : str, "."%char :: "/"%char :: name). cbv beta iota.
    change ("."%char :: "/"%char :: name) with (["."%char] ++ "/"%char :: name).
    rewrite split_on_app by (by apply not_elem_of_cons; split; [|apply not_elem_of_nil]).
    rewrite split_on_plain by done.
    rewrite filter_cons_False by (intros [_ ?]; done).
    by rewrite filter_cons_True. }
  rewrite <-(Path_of_str_path_str (mkPath (anchor p) (parts p ++ [name]))).
  - f_equal. rewrite (path_str_parts _ (parts p ++ [name])) by by destruct (parts p).
    destruct p as [a [|x ps]]; cbn [anchor parts] in *; [done|].
    rewrite path_str_parts by done. rewrite join_snoc by done. by rewrite <-!app_assoc.
  - destruct Hp as [Ha Hps]. split; [done|]. cbn [parts]. apply Forall_app. split; [done|].
    apply Forall_cons. split; [done|constructor].
Qed.

Lemma path_name_snoc (a : str) (ps : list str) (x : str) : path_name (mkPath a (ps ++ [x])) = x.
Proof. unfold path_name. cbn [parts]. apply last_last. Qed.

Lemma path_parent_snoc (a : str) (ps : list str) (x : str) :
  path_parent (mkPath a (ps ++ [x])) = mkPath a ps.
Proof. unfold path_parent. cbn [anchor parts]. by rewrite removelast_last. Qed.

(** The stem of a name is a component again, unless it is [.]. *)
Lemma path_stem_simple (p : Path) :
  simple_name (path_name p) → path_stem p ≠ "." → simple_name (path_stem p).
Proof.
  intros (Hne & Hdot & Hslash) Hstem. unfold path_stem in *.
  destruct (rfind "." (path_name p)) as [i|]; [|done].
  destruct ((0 <? i)%nat && (i <? length (path_name p) - 1)%nat) eqn:Hi; [|done].
  apply andb_true_iff in Hi as [Hpos%Nat.ltb_lt Hlt%Nat.ltb_lt].
  split_and!; [|done|].
  - destruct (path_name p) as [|c name]; [done|]. destruct i; [lia|done].
  - intros Hin. apply Hslash. rewrite <-(take_drop i (path_name p)).
    apply elem_of_app. by left.
Qed.

(** ** Conversion *)

Lemma additive_pure {A} (m : M A) : (∀ σ, (m σ).2 = σ) → additive m.
Proof. intros Hm σ. by rewrite Hm. Qed.

Lemma additive_ret {A} (a : A) : additive (mret a : M A).
Proof. by apply additive_pure. Qed.

Lemma additive_lift {A} (r : result A) : additive (lift r).
Proof. by apply additive_pure. Qed.

Lemma additive_bind {A B} (m : M A) (k : A → M B) :
  additive m → (∀ a, additive (k a)) → additive (m ≫= k).
Proof.
  intros Hm Hk σ. rewrite bind_run. destruct (Hm σ) as (Hc & Hi & Hn & Hf).
  destruct (m σ) as [[a|e] σ1]; [|done]. cbn [snd] in *.
  destruct (Hk a σ1) as (Hc' & Hi' & Hn' & Hf').
  split_and!; [congruence..|]. intros p Hp. by apply Hf', Hf.
Qed.

Lemma additive_try_except {A} (m : M A) (handler : exception → M A) :
  additive m → (∀ e, additive (handler e)) → additive (try_except m handler).
Proof.
  intros Hm Hk σ. unfold try_except. destruct (Hm σ) as (Hc & Hi & Hn & Hf).
  destruct (m σ) as [[a|e] σ1]; [done|]. cbn [snd] in *.
  destruct (Hk e σ1) as (Hc' & Hi' & Hn' & Hf').
  split_and!; [congruence..|]. intros p Hp. by apply Hf', Hf.
Qed.

Lemma additive_for_each {A} (xs : list A) (body : A → M ()) :
  (∀ x, additive (body x)) → additive (for_each xs body).
Proof.
  intros Hbody. induction xs as [|x xs IH]; [apply additive_ret|].
  cbn [for_each]. by apply additive_bind.
Qed.

Lemma additive_log_record (l : level) (msg : str) : additive (log_record l msg).
Proof. by intros σ. Qed.

Lemma additive_read_text (p : Path) : additive (read_text p).
Proof. apply additive_pure. intros σ. unfold read_text. by destruct (files σ !! p). Qed.

Lemma additive_is_file (p : Path) : additive (is_file p).
Proof. by apply additive_pure. Qed.

Lemma additive_write_text (p : Path) (text : str) : additive (write_text p text).
Proof.
  intros σ. split_and!; [done..|]. intros q Hq. cbn.
  destruct (decide (p = q)) as [->|Hne].
  - by rewrite lookup_insert_eq.
  - by rewrite lookup_insert_ne.
Qed.

Section Conversion_properties.
Context `{Environment} `{Converter}.

Lemma pandoc_installed_run (v : str) (σ : session) :
  get_pandoc_version = Ok v → Conversion.pandoc_installed σ = (Ok true, σ).
Proof. unfold Conversion.pandoc_installed. by intros ->. Qed.

Lemma convert_cases (v content input_format output_format : str) (σ : session) :
  get_pandoc_version = Ok v →
  (∃ r, Conversion.convert content input_format output_format σ = (Ok r, σ)) ∨
  Conversion.convert content input_format output_format σ
  = (Ok None,
     mkSession (api_calls σ) (issue_list σ) (dradis_nodes σ) (files σ)
       (log σ ++ [CONVERSION_FAILED])).
Proof.
  intros Hv. unfold Conversion.convert.
  rewrite bind_run, (pandoc_installed_run v) by done. cbn [negb].
  case_decide; [|left; by eexists].
  unfold try_except. rewrite bind_run, lift_run.
  destruct (sub_fields content) as [content'|e]; [|by right].
  rewrite bind_run, lift_run. destruct (convert_text _ _ _) as [output|e]; [|by right].
  left. by eexists.
Qed.

Lemma convert_same_format (v content format : str) (σ : session) :
  get_pandoc_version = Ok v → format ≠ "markdown" →
  Conversion.convert content format format σ = (Ok None, σ).
Proof.
  intros Hv Hformat. unfold Conversion.convert.
  rewrite bind_run, (pandoc_installed_run v) by done. cbn [negb].
  destruct (decide (format = "markdown")); [done|].
  by rewrite decide_False by (by intros ?).
Qed.

(** With pandoc at hand, [convert] never raises and touches nothing but
    the log: it returns with the session as it was, or it returns [None]
    after one error record, when the conversion raised. *)
Theorem convert_with_pandoc_never_raises (v content input_format output_format : str)
    (σ : session) :
  get_pandoc_version = Ok v →
  (∃ r, Conversion.convert content input_format output_format σ = (Ok r, σ)) ∨
  Conversion.convert content input_format output_format σ
  = (Ok None,
     mkSession (api_calls σ) (issue_list σ) (dradis_nodes σ) (files σ)
       (log σ ++ [CONVERSION_FAILED])).
Proof.
  intros Hv.
  destruct (convert_cases v content input_format output_format σ Hv) as [[r Hr]|Hr].
  - left. by exists r.
  - by right.
Qed.

(** Equal formats are not always skipped.  A conversion from a format
    other than markdown to itself returns [None] and pandoc is not run;
    markdown to markdown is run through pandoc, from [gfm] without two of
    its extensions to [gfm], and the escapes of the output are taken
    back. *)
Theorem convert_equal_formats (v content : str) (σ : session) :
  get_pandoc_version = Ok v →
  (∀ format : str, format ≠ "markdown" →
     Conversion.convert content format format σ = (Ok None, σ)) ∧
  (∀ content' output : str,
     sub_fields content = Ok content' →
     convert_text content' "gfm" "gfm-autolink_bare_uris-gfm_auto_identifiers" = Ok output →
     Conversion.convert content "markdown" "markdown" σ
     = (Ok (Some (replace_unecessary_escape output)), σ)).
Proof.
  intros Hv. split.
  - intros format Hformat. by apply (convert_same_format v).
  - intros content' output Hsub Htext. unfold Conversion.convert.
    rewrite bind_run, (pandoc_installed_run v) by done. cbn [negb].
    destruct (decide (("markdown" : str) = "markdown")); [|done].
    change (fold_left _ Conversion.disabled_pandoc_plugins "gfm")
      with ("gfm-autolink_bare_uris-gfm_auto_identifiers" : str).
    rewrite decide_True by done.
    unfold try_except. rewrite bind_run, lift_run, Hsub.
    rewrite bind_run, lift_run, Htext. by rewrite decide_False.
Qed.

Lemma convert_some_installed (content input_format output_format new : str)
    (σ σ' : session) :
  Conversion.convert content input_format output_format σ = (Ok (Some new), σ') →
  σ' = σ ∧ ∃ v, get_pandoc_version = Ok v.
Proof.
  unfold Conversion.convert, Conversion.pandoc_installed.
  destruct get_pandoc_version as [v|e].
  - rewrite bind_run, ret_run. cbn [negb]. intros Hrun. split; [|by exists v].
    case_decide; [|by injection Hrun].
    unfold try_except in Hrun. rewrite bind_run, lift_run in Hrun.
    destruct (sub_fields content) as [content'|e]; [|done].
    rewrite bind_run, lift_run in Hrun. destruct (convert_text _ _ _) as [output|e]; [|done].
    by injection Hrun.
  - rewrite bind_run. rewrite (bind_run (log_record _ _)). cbn [log_record].
    rewrite ret_run. cbn [negb]. rewrite bind_run. by destruct (get_pandoc _) as [[[]|?] ?].
Qed.

Lemma item_SUPPORTED_FORMAT (output_format extension : str) :
  item SUPPORTED_FORMAT output_format = Ok extension →
  extension ∈ [".textile"; ".md"; ".pdf"; ".docx"].
Proof.
  unfold SUPPORTED_FORMAT. cbn [item]. repeat case_decide; intros [= <-]; set_solver.
Qed.

(** The file that [convert_file] writes: beside the input, under the
    stem of its name and the extension of the format. *)
Lemma convert_file_target (file_path : Path) (extension : str) :
  wf_path file_path → parts file_path ≠ [] → path_stem file_path ≠ "." →
  extension ∈ [".textile"; ".md"; ".pdf"; ".docx"] →
  Path_of_str (path_str (path_join (path_parent file_path) (path_stem file_path))
                 ++ extension)
  = mkPath (anchor file_path) (removelast (parts file_path) ++ [path_stem file_path ++ extension]).
Proof.
  intros Hwf Hparts Hdot Hext.
  assert (Hname : simple_name (path_name file_path)).
  { destruct Hwf as [_ Hps]. unfold path_name.
    destruct (parts file_path) as [|x ps] using rev_ind; [done|].
    rewrite last_last. by apply Forall_app in Hps as [_ [? _]%Forall_cons]. }
  pose proof (path_stem_simple _ Hname Hdot) as (Hne & _ & Hslash).
  rewrite path_join_simple by by apply path_stem_simple.
  cbn [path_parent anchor parts].
  rewrite path_str_parts by (by destruct (removelast (parts file_path))).
  rewrite <-app_assoc, join_snoc_app.
  rewrite <-(path_str_parts (anchor file_path)) by (by destruct (removelast (parts file_path))).
  apply Path_of_str_path_str. destruct (path_parent_wf _ Hwf) as [Ha Hps].
  split; [done|]. cbn [parts path_parent] in *. apply Forall_app. split; [done|].
  apply Forall_cons. split; [|constructor]. split_and!.
  - by destruct (path_stem file_path).
  - destruct (path_stem file_path) as [|c [|c' stem]]; [done| |done].
    intros Heq. injection Heq as -> Heq. subst extension. set_solver.
  - rewrite elem_of_app. intros [?|Hin]; [done|].
    repeat (apply elem_of_cons in Hext as [->|Hext];
            [by apply (not_elem_of_literal "/"%char) in Hin|]).
    by apply elem_of_nil in Hext.
Qed.

(** Where [convert] returns nothing, [convert_file] raises [TypeError]
    out of [write_text]: no file is written and the input is not removed.
    This is the case when a file is converted to the format it has, other
    than markdown. *)
Theorem convert_file_raises_when_nothing_converted (v : str) (file_path : Path)
    (content input_format output_format extension : str) (delete_input_file : bool)
    (σ : session) :
  get_pandoc_version = Ok v →
  item SUPPORTED_FORMAT output_format = Ok extension →
  files σ !! file_path = Some content →
  (∀ σ', Conversion.convert content input_format output_format σ = (Ok None, σ') →
     Conversion.convert_file file_path input_format output_format delete_input_file σ
     = (Raise TypeError, σ') ∧ files σ' = files σ) ∧
  (input_format = output_format → output_format ≠ "markdown" →
     Conversion.convert_file file_path input_format output_format delete_input_file σ
     = (Raise TypeError, σ)).
Proof.
  intros Hv Hext Hfile.
  assert (Hnone : ∀ σ', Conversion.convert content input_format output_format σ = (Ok None, σ') →
     Conversion.convert_file file_path input_format output_format delete_input_file σ
     = (Raise TypeError, σ')).
  { intros σ' Hconvert. unfold Conversion.convert_file.
    rewrite bind_run, lift_run, Hext. rewrite bind_run. unfold read_text at 1. rewrite Hfile.
    by rewrite bind_run, Hconvert. }
  split.
  - intros σ' Hconvert. split; [by apply Hnone|].
    destruct (convert_cases v content input_format output_format σ Hv)
      as [[r Hr]|Hr]; rewrite Hr in Hconvert; by simplify_eq.
  - intros -> Hformat. apply Hnone. by apply (convert_same_format v).
Qed.

(** Where [convert] returns a text, [convert_file] writes it beside the
    input, under the stem of the input's name and the extension of the
    output format, and then removes the input if asked to.  With
    [delete_input_file], the input path holds no file afterwards, also when
    the output went to that very path. *)
Theorem convert_file_writes_beside_input (file_path : Path)
    (content input_format output_format extension new : str) (delete_input_file : bool)
    (σ σ' : session) :
  wf_path file_path → parts file_path ≠ [] → path_stem file_path ≠ "." →
  item SUPPORTED_FORMAT output_format = Ok extension →
  files σ !! file_path = Some content →
  Conversion.convert content input_format output_format σ = (Ok (Some new), σ') →
  let new_file :=
    mkPath (anchor file_path)
      (removelast (parts file_path) ++ [path_stem file_path ++ extension]) in
  let written := <[new_file := new]> (files σ) in
  Conversion.convert_file file_path input_format output_format delete_input_file σ
  = (Ok (),
     mkSession (api_calls σ) (issue_list σ) (dradis_nodes σ)
       (if delete_input_file then delete file_path written else written) (log σ)) ∧
  path_parent new_file = path_parent file_path ∧
  path_name new_file = path_stem file_path ++ extension.
Proof.
  intros Hwf Hparts Hdot Hext Hfile Hconvert new_file written.
  destruct (convert_some_installed _ _ _ _ _ _ Hconvert) as [-> _].
  split_and!.
  - unfold Conversion.convert_file.
    rewrite bind_run, lift_run, Hext. rewrite bind_run. unfold read_text at 1. rewrite Hfile.
    rewrite bind_run, Hconvert. cbn [write_text_value].
    rewrite convert_file_target by (done || by eapply item_SUPPORTED_FORMAT).
    fold new_file. rewrite bind_run. cbn [write_text]. fold written.
    destruct delete_input_file; [|done]. unfold unlink. cbn [files].
    destruct (decide (new_file = file_path)) as [Heq|Hne].
    + subst written. rewrite Heq. by rewrite lookup_insert_eq.
    + subst written. rewrite lookup_insert_ne by done. by rewrite Hfile.
  - subst new_file. by rewrite path_parent_snoc.
  - subst new_file. by rewrite path_name_snoc.
Qed.

Lemma additive_convert (v content input_format output_format : str) :
  get_pandoc_version = Ok v →
  additive (Conversion.convert content input_format output_format).
Proof.
  intros Hv σ.
  by destruct (convert_cases v content input_format output_format σ Hv) as [[r ->]| ->].
Qed.

Lemma additive_convert_file (v : str) (file_path : Path) (input_format output_format : str) :
  get_pandoc_version = Ok v →
  additive (Conversion.convert_file file_path input_format output_format false).
Proof.
  intros Hv. unfold Conversion.convert_file.
  apply additive_bind; [apply additive_lift|]. intros extension.
  apply additive_bind; [apply additive_read_text|]. intros content.
  apply additive_bind; [by apply (additive_convert v)|]. intros new_content.
  apply additive_bind; [|intros; apply additive_ret].
  destruct new_content; [apply additive_write_text|apply additive_lift].
Qed.

(** [convert_files] sends no request, keeps the caches and removes no
    file, whatever it is given; and on a machine without pandoc it raises at
    once, out of the debug record that shows the version of pandoc, before
    any file is read. *)
Theorem convert_files_removes_nothing (path output_format : str) :
  additive (Conversion.convert_files path output_format) ∧
  (∀ e σ, get_pandoc_version = Raise e →
     Conversion.convert_files path output_format σ = (Raise e, σ)).
Proof.
  assert (Hraise : ∀ e σ, get_pandoc_version = Raise e →
            Conversion.convert_files path output_format σ = (Raise e, σ)).
  { intros e σ He. unfold Conversion.convert_files. by rewrite bind_run, lift_run, He. }
  split; [|done].
  destruct get_pandoc_version as [v|e] eqn:Hv.
  - unfold Conversion.convert_files. rewrite Hv.
    apply additive_bind; [apply additive_lift|]. intros _.
    apply additive_bind; [apply additive_lift|]. intros _.
    apply additive_bind; [apply additive_lift|]. intros _.
    case_decide; [apply additive_log_record|].
    destruct (is_dir _).
    + apply additive_for_each. intros file. case_decide; [|apply additive_ret].
      apply additive_bind; [apply additive_lift|]. intros input_format.
      by apply (additive_convert_file v).
    + apply additive_bind; [apply additive_is_file|]. intros [|].
      * case_decide; [|apply additive_log_record].
        apply additive_bind; [apply additive_lift|]. intros input_format.
        by apply (additive_convert_file v).
      * apply additive_log_record.
  - intros σ. by rewrite (Hraise e σ).
Qed.

(** Converting a textile file to textile ends in [TypeError]: [convert]
    finds nothing to do and returns [None], which [write_text] refuses; the
    files stay as they were. *)
Theorem convert_files_to_own_format_raises (v pandoc_path pandoc_formats path content : str)
    (σ : session) :
  get_pandoc_version = Ok v → get_pandoc_path = Ok pandoc_path →
  get_pandoc_formats = Ok pandoc_formats →
  let file := Path_of_str (rstrip DQUOTE path) in
  is_dir file = false → files σ !! file = Some content → path_suffix file = ".textile" →
  Conversion.convert_files path "textile" σ = (Raise TypeError, σ).
Proof.
  intros Hv Hpath Hformats file Hdir Hfile Hsuffix. unfold Conversion.convert_files.
  fold file. rewrite Hv, Hpath, Hformats.
  rewrite bind_run, lift_run. rewrite bind_run, lift_run. rewrite bind_run, lift_run.
  rewrite decide_False by (intros Hin; apply Hin; set_solver).
  rewrite Hdir. rewrite bind_run. unfold is_file at 1. rewrite Hfile.
  rewrite bool_decide_eq_true_2 by done. rewrite Hsuffix.
  rewrite decide_True by set_solver.
  rewrite bind_run, lift_run.
  change (guess_format ".textile") with (Ok ("textile" : str) : result str).
  unfold Conversion.convert_file. rewrite bind_run, lift_run.
  change (item SUPPORTED_FORMAT "textile") with (Ok (".textile" : str) : result str).
  cbv beta iota. rewrite bind_run. unfold read_text at 1. rewrite Hfile.
  by rewrite bind_run, (convert_same_format v).
Qed.

End Conversion_properties.

Lemma convert_with_pandoc_never_raises_witness :
  ∃ r, @Conversion.convert heading_pandoc "# Report" "markdown" "textile" (session_of [])
       = (Ok r, session_of []).
Proof.
  destruct (@convert_with_pandoc_never_raises heading_pandoc "3.1.9" "# Report" "markdown"
              "textile" (session_of []) eq_refl) as [Hr|Hr]; [exact Hr|discriminate Hr].
Defined.

Lemma convert_equal_formats_witness :
  @Conversion.convert heading_pandoc "h1. Report" "textile" "textile" (session_of [])
  = (Ok None, session_of []).
Proof.
  apply (@convert_equal_formats heading_pandoc "3.1.9" "h1. Report" (session_of []) eq_refl).
  discriminate.
Defined.

Lemma convert_file_raises_when_nothing_converted_witness :
  let σ := session_of [("proj/Issues/a.textile", "h1. Report")] in
  @Conversion.convert_file heading_pandoc (Path_of_str "proj/Issues/a.textile")
    "textile" "textile" true σ
  = (Raise TypeError, σ).
Proof.
  intros σ.
  apply (@convert_file_raises_when_nothing_converted heading_pandoc "3.1.9"
           (Path_of_str "proj/Issues/a.textile") "h1. Report" "textile" "textile" ".textile"
           true σ eq_refl eq_refl eq_refl); [reflexivity|discriminate].
Defined.

Lemma convert_file_writes_beside_input_witness :
  let σ := session_of [("proj/Issues/a.md", "# Report")] in
  files (@Conversion.convert_file heading_pandoc (Path_of_str "proj/Issues/a.md")
           "markdown" "textile" true σ).2
  = {[ Path_of_str "proj/Issues/a.textile" := "h1. Report" ]}.
Proof.
  intros σ.
  destruct (@convert_file_writes_beside_input heading_pandoc (Path_of_str "proj/Issues/a.md")
              "# Report" "markdown" "textile" ".textile" "h1. Report" true σ σ) as [-> _].
  - apply Path_of_str_wf.
  - discriminate.
  - discriminate.
  - reflexivity.
  - reflexivity.
  - reflexivity.
  - cbn [snd files]. apply map_eq. intros p. vm_compute.
    repeat (case_match; try reflexivity; try discriminate).
Defined.

Lemma convert_files_removes_nothing_witness :
  let σ := session_of [("proj/Issues/a.md", "# Report")] in
  @Conversion.convert_files empty_remote no_pandoc "proj" "textile" σ
  = (Raise FileNotFoundError, σ).
Proof.
  intros σ.
  by apply (@convert_files_removes_nothing empty_remote no_pandoc "proj" "textile").
Defined.

Lemma convert_files_to_own_format_raises_witness :
  let σ := session_of [("proj/Issues/a.textile", "h1. Report")] in
  @Conversion.convert_files empty_remote heading_pandoc "proj/Issues/a.textile" "textile" σ
  = (Raise TypeError, σ).
Proof.
  intros σ.
  apply (@convert_files_to_own_format_raises empty_remote heading_pandoc "3.1.9"
           "/usr/bin/pandoc" "(['gfm', 'textile'], ['gfm', 'textile'])"
           "proj/Issues/a.textile" "h1. Report" σ); reflexivity.
Defined.

(** ** The properties file, written and read back *)

Lemma split_on_lines (lines : list str) :
  Forall (λ l, LF ∉ l) lines →
  split_on LF (flat_map (λ l, l ++ [LF]) lines) = lines ++ [[]].
Proof.
  induction 1 as [|l lines Hl _ IH]; [done|].
  cbn [flat_map]. rewrite <-app_assoc. cbn [app].
  rewrite split_on_app by done. by rewrite IH.
Qed.

Lemma file_lines_lines (lines : list str) :
  Forall (λ l, LF ∉ l) lines → file_lines (flat_map (λ l, l ++ [LF]) lines) = lines.
Proof.
  intros Hlines. unfold file_lines. rewrite split_on_lines by done.
  rewrite reverse_app. cbn [reverse rev_append app].
  change (rev_append [[]] []) with [[] : str]. cbn [app]. apply reverse_involutive.
Qed.

Lemma lstrip_ws_head (s : str) :
  s ≠ [] → lstrip_ws s = s → ∃ c r, s = c :: r ∧ is_space c = false.
Proof.
  destruct s as [|c r]; [done|]. intros _. unfold lstrip_ws. cbn [span].
  destruct (is_space c) eqn:Hc; [|by eexists _, _].
  intros Heq. exfalso. destruct (span is_space r) as [a b] eqn:Hspan. cbn [snd] in Heq.
  pose proof (span_app is_space r) as Happ. rewrite Hspan in Happ. cbn in Happ.
  apply (f_equal length) in Heq. rewrite <-Happ in Heq. cbn in Heq.
  rewrite length_app in Heq. lia.
Qed.

Lemma span_head_false (p : ascii → bool) (c : ascii) (s : str) :
  p c = false → span p (c :: s) = ([], c :: s).
Proof. intros Hc. cbn [span]. by rewrite Hc. Qed.

Lemma lstrip_ws_app (a b : str) : a ≠ [] → lstrip_ws a = a → lstrip_ws (a ++ b) = a ++ b.
Proof.
  intros Ha Hstrip. destruct (lstrip_ws_head a Ha Hstrip) as (c & r & -> & Hc).
  unfold lstrip_ws. cbn [app]. by rewrite span_head_false.
Qed.

Lemma rstrip_ws_lstrip (s : str) : rstrip_ws s = s → lstrip_ws (reverse s) = reverse s.
Proof.
  unfold rstrip_ws. intros Heq. apply (f_equal reverse) in Heq.
  by rewrite reverse_involutive in Heq.
Qed.

Lemma rstrip_ws_app (a b : str) : b ≠ [] → rstrip_ws b = b → rstrip_ws (a ++ b) = a ++ b.
Proof.
  intros Hb Hstrip. unfold rstrip_ws. rewrite reverse_app.
  rewrite lstrip_ws_app.
  - by rewrite <-reverse_app, reverse_involutive.
  - intros Hrev. apply Hb. apply (f_equal reverse) in Hrev.
    by rewrite reverse_involutive in Hrev.
  - by apply rstrip_ws_lstrip.
Qed.

Lemma startswith_char_app (c : ascii) (k rest : str) :
  k ≠ [] → startswith k [c] = false → startswith (k ++ rest) [c] = false.
Proof.
  destruct k as [|x k]; [done|]. intros _. unfold startswith. cbn [app strip_prefix].
  by case_decide.
Qed.

(** A line [key=value] with a plain key and a plain value, read in a
    section that does not have the key yet, adds the option as written. *)
Lemma ini_line_property (sect k v : str) (st : ini_state) :
  plain_key k → plain_value v → cursect st = Some sect → indent_level st = 0 →
  ¬ Exists (λ o, o_section o = sect ∧ lower (o_spelled o) = lower k) (ini_options st) →
  ini_line st (k ++ "=" ++ v)
  = Ok (mkIni (Some sect) true 0 (ini_headers st) (mkOption sect k [v] :: ini_options st)).
Proof.
  intros (Hk & Hkl & Hkr & Hchars & Hhash & Hsemi & Hbracket) (Hvl & Hvr & Hlf & Hcr)
    Hsect Hindent Hnew.
  destruct (lstrip_ws_head k Hk Hkl) as (c & r & -> & Hc).
  set (line := (c :: r) ++ "=" ++ v).
  assert (Hstripped : strip_ws line = line).
  { unfold strip_ws. subst line. rewrite lstrip_ws_app by done.
    destruct v as [|x v].
    - rewrite app_nil_r. apply rstrip_ws_app; done.
    - rewrite app_assoc. apply rstrip_ws_app; done. }
  assert (Hh : startswith line "#" = false)
    by (by apply (startswith_char_app "#"%char (c :: r))).
  assert (Hs : startswith line ";" = false)
    by (by apply (startswith_char_app ";"%char (c :: r))).
  unfold ini_line. rewrite Hstripped, Hh, Hs.
  cbn [orb negb]. subst line. cbn [app]. rewrite span_head_false by done.
  cbn [fst length]. rewrite Hindent. cbn [Nat.ltb Nat.leb]. rewrite andb_false_r.
  unfold ini_entry.
  assert (Hheader : section_header (c :: r ++ "=" ++ v) = None).
  { cbn [section_header]. case_decide as Hc'; [|done]. subst c.
    exfalso. revert Hbracket. unfold startswith. by vm_compute. }
  rewrite Hheader, Hsect.
  assert (Hoption : option_line (c :: r ++ "=" ++ v) = Some (c :: r, v)).
  { unfold option_line. rewrite (app_comm_cons r), (span_exact _ (c :: r) ("=" ++ v)).
    - change ("=" ++ v) with ("="%char :: v). cbv beta iota. rewrite Hkr.
      unfold strip_ws. by rewrite Hvl, Hvr.
    - eapply Forall_impl; [exact Hchars|]. intros x (? & ? & _).
      by apply bool_decide_eq_true.
    - change ("=" ++ v) with ("="%char :: v). cbv beta iota.
      apply bool_decide_eq_false. tauto. }
  rewrite Hoption. rewrite bool_decide_eq_false_2 by done.
  by rewrite bool_decide_eq_false_2 by done.
Qed.

(** The options that the lines of [kvs] add to a section. *)
Lemma ini_lines_properties (sect : str) (kvs done : list (str * str)) (st : ini_state) :
  Forall (λ kv, plain_key kv.1 ∧ plain_value kv.2) kvs →
  NoDup (map (λ kv, lower kv.1) (done ++ kvs)) →
  cursect st = Some sect → indent_level st = 0 →
  ini_options st = reverse (map (λ kv, mkOption sect kv.1 [kv.2]) done) →
  ∃ st', ini_lines st (map (λ kv, kv.1 ++ "=" ++ kv.2) kvs) = Ok st' ∧
         ini_headers st' = ini_headers st ∧
         ini_options st' = reverse (map (λ kv, mkOption sect kv.1 [kv.2]) (done ++ kvs)).
Proof.
  revert done st. induction kvs as [|[k v] kvs IH]; intros done st Hplain Hnodup Hsect Hindent Hopts.
  - exists st. by rewrite app_nil_r.
  - apply Forall_cons in Hplain as [[Hk Hv] Hplain]. cbn [map ini_lines fst snd].
    assert (Hnew : ¬ Exists (λ o, o_section o = sect ∧ lower (o_spelled o) = lower k)
                       (ini_options st)).
    { rewrite Hopts. intros Hex. apply Exists_exists in Hex as (o & Ho & _ & Hlow).
      rewrite elem_of_reverse in Ho. apply list_elem_of_fmap in Ho as ([k' v'] & -> & Hin).
      cbn [o_spelled fst] in Hlow. rewrite fmap_app in Hnodup. apply NoDup_app in Hnodup as (_ & Hdisj & _).
      apply (Hdisj (lower k')).
      - by apply (list_elem_of_fmap_2 (λ kv : str * str, lower kv.1) _ (k', v')).
      - change (lower k' ∈ lower k :: map (λ kv : str * str, lower kv.1) kvs).
        rewrite Hlow. by left. }
    rewrite (ini_line_property sect k v st) by done.
    destruct (IH (done ++ [(k, v)]) (mkIni (Some sect) true 0 (ini_headers st)
                (mkOption sect k [v] :: ini_options st))) as (st' & Hrun & Hheaders & Hopts').
    + done.
    + by rewrite <-app_assoc.
    + done.
    + done.
    + cbn [ini_options]. rewrite Hopts, fmap_app, reverse_app. done.
    + exists st'. split; [done|]. split; [done|]. rewrite Hopts'. by rewrite <-app_assoc.
Qed.

Lemma properties_file_fold (records : list (list (str * scalar))) (start : str) :
  fold_left (λ file_content document_property,
               fold_left (λ file_content kv, file_content ++ property_line kv)
                 document_property file_content) records start
  = start ++ flat_map property_line (concat records).
Proof.
  assert (Hinner : ∀ (kvs : list (str * scalar)) (start : str),
            fold_left (λ file_content kv, file_content ++ property_line kv) kvs start
            = start ++ flat_map property_line kvs).
  { induction kvs as [|kv kvs IH]; intros s; cbn [fold_left flat_map].
    - by rewrite app_nil_r.
    - by rewrite IH, <-app_assoc. }
  revert start. induction records as [|kvs records IH]; intros start; cbn [fold_left concat].
  - by rewrite app_nil_r.
  - rewrite IH, Hinner, flat_map_app. by rewrite <-app_assoc.
Qed.

(** The file of plain properties parses into its one section and the
    properties as they were written. *)
Lemma properties_file_read (kvs : list (str * scalar)) :
  Forall (λ kv, plain_key kv.1 ∧ plain_value (format kv.2)) kvs →
  NoDup (map (λ kv, lower kv.1) kvs) →
  ini_read (properties_file kvs)
  = Ok (mkIniFile ["DOCUMENT_PROPERTIES"]
          (map (λ kv, ("DOCUMENT_PROPERTIES" : str, kv.1, format kv.2)) kvs)).
Proof.
  intros Hplain Hnodup.
  set (pairs := map (λ kv : str * scalar, (kv.1, format kv.2)) kvs).
  assert (Htext : properties_file kvs
                  = flat_map (λ l, l ++ [LF])
                      ("[DOCUMENT_PROPERTIES]" :: map (λ kv, kv.1 ++ "=" ++ kv.2) pairs)).
  { unfold properties_file. cbn [flat_map]. rewrite <-app_assoc. do 2 f_equal.
    subst pairs. clear. induction kvs as [|kv kvs IH]; [done|].
    cbn [flat_map map fst snd]. rewrite IH. unfold property_line.
    by rewrite <-!app_assoc. }
  assert (Hlines : Forall (λ l, LF ∉ l)
            ("[DOCUMENT_PROPERTIES]" :: map (λ kv, kv.1 ++ "=" ++ kv.2) pairs)).
  { apply Forall_cons. split; [by apply not_elem_of_literal|].
    subst pairs. rewrite <-list_fmap_compose. apply Forall_fmap.
    eapply Forall_impl; [exact Hplain|]. intros [k v] [(_ & _ & _ & Hk & _) (_ & _ & Hv & _)].
    cbn [compose fst snd] in *. rewrite !elem_of_app. intros [Hin|[Hin|Hin]].
    - rewrite Forall_forall in Hk. destruct (Hk _ Hin) as (_ & _ & ? & _). done.
    - by apply (not_elem_of_literal LF "=").
    - done. }
  unfold ini_read. rewrite Htext, file_lines_lines by done. cbn [ini_lines].
  change (ini_line (mkIni None false 0 [] []) "[DOCUMENT_PROPERTIES]")
    with (Ok (mkIni (Some "DOCUMENT_PROPERTIES") false 0 ["DOCUMENT_PROPERTIES"] [])).
  assert (Hpairs : Forall (λ kv : str * str, plain_key kv.1 ∧ plain_value kv.2) pairs).
  { subst pairs. apply Forall_fmap. eapply Forall_impl; [exact Hplain|]. by intros [k v]. }
  assert (Hkeys : NoDup (map (λ kv : str * str, lower kv.1) ([] ++ pairs))).
  { subst pairs. cbn [app]. by rewrite <-list_fmap_compose. }
  destruct (ini_lines_properties "DOCUMENT_PROPERTIES" pairs []
              (mkIni (Some "DOCUMENT_PROPERTIES") false 0 ["DOCUMENT_PROPERTIES"] [])
              Hpairs Hkeys eq_refl eq_refl eq_refl) as (st' & -> & -> & ->).
  cbn [ini_headers app]. f_equal. f_equal. rewrite reverse_involutive.
  subst pairs. rewrite <-!list_fmap_compose. apply Forall_fmap_ext_1.
  eapply Forall_impl; [exact Hplain|]. intros [k v] [_ (_ & Hr & _)].
  cbn [compose fst snd o_section o_spelled o_lines join] in *. by rewrite Hr.
Qed.

Lemma section_options_own (sect : str) (kvs : list (str * str)) :
  section_options sect (map (λ kv, (sect, kv.1, kv.2)) kvs) = kvs.
Proof.
  unfold section_options. induction kvs as [|[k v] kvs IH]; [done|].
  rewrite fmap_cons. cbn [omap list_omap fst snd].
  destruct (decide (sect = sect)); [|done]. f_equal. exact IH.
Qed.

Lemma section_options_other (sect other : str) (kvs : list (str * str)) :
  sect ≠ other → section_options other (map (λ kv, (sect, kv.1, kv.2)) kvs) = [].
Proof.
  intros Hne. unfold section_options. induction kvs as [|[k v] kvs IH]; [done|].
  rewrite fmap_cons. cbn [omap list_omap fst snd].
  destruct (decide (sect = other)); [done|]. exact IH.
Qed.

Section Properties_round_trip.
Context `{Environment} `{Importer}.

Lemma import_document_properties_run (project_path : Path) (project_id : str)
    (records : list (list (str * scalar))) (σ σ1 : session) :
  get_all_docprops project_id σ = (Ok records, σ1) →
  import_document_properties project_path project_id σ
  = (Ok (),
     mkSession (api_calls σ1) (issue_list σ1) (dradis_nodes σ1)
       (<[path_child project_path "document_properties.ini" := properties_file (concat records)]>
          (files σ1)) (log σ1)).
Proof.
  intros Hlist. unfold import_document_properties. rewrite bind_run, Hlist.
  unfold write_text. by rewrite properties_file_fold.
Qed.

Lemma interpolate_plain (items todo : list (str * str)) :
  plain_interpolation → Forall (λ kv, "%"%char ∉ kv.2) todo →
  foldr (λ kv acc,
           match interpolate items kv.2, acc with
           | Ok v, Ok l => Ok ((kv.1, v) :: l)
           | Raise e, _ => Raise e
           | _, Raise e => Raise e
           end) (Ok []) todo = Ok todo.
Proof.
  intros Hplain. induction 1 as [|[k v] todo Hv _ IH]; [done|].
  cbn [foldr fst snd] in *. by rewrite IH, Hplain.
Qed.



End Properties_round_trip.



(** ** Issues, written and sent back *)

(** [Path(f"{p}/{name}")] ends in the component [name]. *)
Lemma path_child_parts (p : Path) (name : str) :
  wf_path p → simple_name name →
  parts (path_child p name) = parts p ++ [name] ∧ wf_path (path_child p name).
Proof.
  intros Hp Hname. split; [|apply Path_of_str_wf].
  destruct (decide (parts p ≠ [] ∨ anchor p = [])) as [Hroot|Hroot].
  { by rewrite path_child_simple. }
  destruct p as [a ps]. cbn [anchor parts] in *.
  assert (ps = []) as -> by (destruct ps; [done|]; exfalso; apply Hroot; by left).
  destruct Hp as [Ha _]. cbn [anchor] in Ha. destruct Hname as (Hne & Hdot & Hslash).
  assert (Hlist : ∀ l : list str, filter (λ x : str, x ≠ [] ∧ x ≠ ".") ([] :: l)
                                  = filter (λ x : str, x ≠ [] ∧ x ≠ ".") l).
  { intros l. by rewrite filter_cons_False by (intros [? _]; done). }
  unfold path_child, Path_of_str.
  destruct (span is_slash _) as [slashes rest]. cbn [parts app].
  apply elem_of_cons in Ha as [->|Ha]; [exfalso; apply Hroot; by right|].
  apply elem_of_cons in Ha as [->|Ha].
  - change (path_str (mkPath "/" []) ++ "/" ++ name)
      with ([] ++ "/"%char :: ([] ++ "/"%char :: name)).
    rewrite !split_on_app by apply not_elem_of_nil. rewrite split_on_plain by done.
    rewrite !Hlist. by rewrite filter_cons_True.
  - apply list_elem_of_singleton in Ha as ->.
    change (path_str (mkPath "//" []) ++ "/" ++ name)
      with ([] ++ "/"%char :: ([] ++ "/"%char :: ([] ++ "/"%char :: name))).
    rewrite !split_on_app by apply not_elem_of_nil. rewrite split_on_plain by done.
    rewrite !Hlist. by rewrite filter_cons_True.
Qed.

Lemma textile_name_simple (title : str) : simple_name (clean_filename title ++ ".textile").
Proof.
  split_and!.
  - by destruct (clean_filename title).
  - destruct (clean_filename title) as [|c [|c' s]]; done.
  - rewrite elem_of_app. intros [Hin|Hin].
    + apply clean_filename_legal in Hin. apply Hin. by apply elem_of_literal.
    + by apply (not_elem_of_literal "/"%char) in Hin.
Qed.

(** The file of an issue lies in the folder [Issues], under the sanitized
    title; two titles share a file exactly when they are sanitized to the
    same name. *)
Lemma issue_file_parts (path : Path) (title : str) :
  wf_path path →
  parts (issue_file path title) = parts path ++ ["Issues"; clean_filename title ++ ".textile"] ∧
  path_name (issue_file path title) = clean_filename title ++ ".textile" ∧
  path_name (path_parent (issue_file path title)) = "Issues".
Proof.
  intros Hpath. unfold issue_file.
  assert (Hissues : simple_name "Issues")
    by (split_and!; [done|done|by apply not_elem_of_literal]).
  destruct (path_child_parts path "Issues" Hpath Hissues) as [Hparts Hwf].
  destruct (path_child_parts (path_child path "Issues")
              (clean_filename title ++ ".textile") Hwf (textile_name_simple title))
    as [Hparts' _].
  rewrite Hparts in Hparts'. rewrite <-app_assoc in Hparts'. cbn [app] in Hparts'.
  split_and!; [done| |].
  - unfold path_name. rewrite Hparts'.
    change ["Issues"; ?x] with (["Issues" : str] ++ [x]). by rewrite app_assoc, last_last.
  - unfold path_name, path_parent. cbn [parts]. rewrite Hparts'.
    change ["Issues"; ?x] with (["Issues" : str] ++ [x]).
    by rewrite app_assoc, removelast_last, last_last.
Qed.

Lemma issue_file_inj (path : Path) (title title' : str) :
  wf_path path →
  issue_file path title = issue_file path title' ↔ clean_filename title = clean_filename title'.
Proof.
  intros Hpath. split.
  - intros Heq. apply (f_equal path_name) in Heq.
    rewrite !(proj1 (proj2 (issue_file_parts path _ Hpath))) in Heq.
    by apply app_inv_tail in Heq.
  - intros Heq. unfold issue_file. by rewrite Heq.
Qed.

Lemma rfind_none (c : ascii) (s : str) : c ∉ s → rfind c s = None.
Proof.
  induction s as [|x s IH]; [done|]. intros [Hx Hs]%not_elem_of_cons.
  cbn [rfind]. rewrite IH by done. by rewrite decide_False.
Qed.

Lemma rfind_last (c : ascii) (a b : str) : c ∉ b → rfind c (a ++ c :: b) = Some (length a).
Proof.
  intros Hb. induction a as [|x a IH]; cbn [app rfind length].
  - rewrite rfind_none by done. by rewrite decide_True.
  - by rewrite IH.
Qed.

(** The file of an issue with a name has the extension [.textile]; the
    file of an issue whose title sanitizes to nothing is [.textile], which
    has no extension. *)
Lemma issue_file_suffix (path : Path) (title : str) :
  wf_path path →
  path_suffix (issue_file path title)
  = if decide (clean_filename title = []) then [] else ".textile".
Proof.
  intros Hpath. unfold path_suffix.
  rewrite (proj1 (proj2 (issue_file_parts path title Hpath))).
  change (".textile") with ("."%char :: "textile") at 1 2 3.
  rewrite rfind_last by (by apply not_elem_of_literal).
  case_decide as Hclean.
  - by rewrite Hclean.
  - rewrite length_app. cbn [length].
    replace (0 <? length (clean_filename title))%nat with true
      by (symmetry; apply Nat.ltb_lt; destruct (clean_filename title); [done|simpl; lia]).
    match goal with
    | |- context [(?a <? ?b)%nat] =>
        replace (a <? b)%nat with true by (symmetry; apply Nat.ltb_lt; simpl; lia)
    end.
    cbn [andb]. by rewrite drop_app_length.
Qed.

Lemma issues_written_other (path : Path) (issues : list dict) (disk : gmap Path str) (p : Path) :
  (∀ issue title, issue ∈ issues → issue !! ("title" : str) = Some (VStr title) →
                  issue_file path title ≠ p) →
  issues_written path issues disk !! p = disk !! p.
Proof.
  revert disk. induction issues as [|issue issues IH]; intros disk Hother; [done|].
  unfold issues_written in *. cbn [fold_left]. rewrite IH.
  - destruct (issue !! ("title" : str)) as [[| |title]|] eqn:Htitle; [done..| |done].
    destruct (issue !! ("text" : str)) as [[| |text]|]; [done..| |done].
    apply lookup_insert_ne. apply (Hother issue); [by left|done].
  - intros issue' title' Hin. apply Hother. by right.
Qed.

(** The last issue of a name is the one whose text its file holds. *)
Lemma issues_written_last (path : Path) (issues : list dict) (disk : gmap Path str)
    (i : nat) (issue : dict) (title text : str) :
  wf_path path →
  issues !! i = Some issue →
  issue !! ("title" : str) = Some (VStr title) → issue !! ("text" : str) = Some (VStr text) →
  (∀ j issue' title', i < j → issues !! j = Some issue' →
     issue' !! ("title" : str) = Some (VStr title') →
     clean_filename title' ≠ clean_filename title) →
  issues_written path issues disk !! issue_file path title = Some text.
Proof.
  intros Hpath. revert disk i. induction issues as [|d issues IH]; intros disk i Hi Htitle Htext Hlast.
  - done.
  - destruct i as [|i].
    + injection Hi as ->. unfold issues_written. cbn [fold_left]. rewrite Htitle, Htext.
      fold (issues_written path issues (<[issue_file path title := text]> disk)).
      rewrite issues_written_other; [by rewrite lookup_insert_eq|].
      intros issue' title' Hin Htitle' Heq. apply list_elem_of_lookup in Hin as [j Hj].
      apply (Hlast (S j) issue' title'); [lia|done|done|]. by apply (issue_file_inj path).
    + unfold issues_written. cbn [fold_left].
      match goal with |- fold_left ?f issues ?m !! _ = _ =>
        change (fold_left f issues m) with (issues_written path issues m) end.
      apply (IH _ i); [done..|].
      intros j issue' title' Hj. apply (Hlast (S j)). lia.
Qed.

Section Issue_round_trip.
Context `{Environment} `{Converter} `{Importer}.

Lemma import_issues_loop (path : Path) (issues : list dict) (σ : session) :
  Forall (λ issue, ∃ title text, issue !! ("title" : str) = Some (VStr title)
                                 ∧ issue !! ("text" : str) = Some (VStr text)) issues →
  for_each issues (λ issue,
    title ← lift (getitem issue "title");
    issue_content ← lift (getitem issue "text");
    title ← lift (str_of title AttributeError);
    let filename := clean_filename title ++ ".textile" in
    issue_content ← lift (str_of issue_content TypeError);
    let file := path_child (path_child path "Issues") filename in
    write_text file issue_content;;
    if decide (("textile" : str) ≠ DRADIS_FORMAT)
    then Conversion.convert_file file "textile" "textile" true
    else mret ()) σ
  = (Ok (),
     mkSession (api_calls σ) (issue_list σ) (dradis_nodes σ)
       (issues_written path issues (files σ)) (log σ)).
Proof.
  intros Hissues. revert σ.
  induction Hissues as [|issue issues (title & text & Htitle & Htext) _ IH]; intros σ.
  - by destruct σ.
  - cbn [for_each]. rewrite bind_run.
    rewrite bind_run, lift_run. unfold getitem at 1. rewrite Htitle.
    rewrite bind_run, lift_run. unfold getitem at 1. rewrite Htext.
    rewrite bind_run, lift_run. cbn [str_of].
    rewrite bind_run, lift_run. cbn [str_of].
    rewrite bind_run. cbn [write_text]. rewrite decide_False by (by intros ?).
    rewrite ret_run. rewrite IH. cbn [api_calls issue_list dradis_nodes files log].
    unfold issues_written. cbn [fold_left]. by rewrite Htitle, Htext.
Qed.

Lemma import_issues_run (path : Path) (project_id : str) (σ σ1 : session) :
  mkdir (path_child path "Issues") = Ok () →
  fetch_issue_list project_id σ = (Ok (), σ1) →
  Forall (λ issue, ∃ title text, issue !! ("title" : str) = Some (VStr title)
                                 ∧ issue !! ("text" : str) = Some (VStr text))
    (issue_list σ1) →
  import_issues path project_id "textile" σ
  = (Ok (),
     mkSession (api_calls σ1) (issue_list σ1) (dradis_nodes σ1)
       (issues_written path (issue_list σ1) (files σ1)) (log σ1)).
Proof.
  intros Hmkdir Hfetch Hissues. unfold import_issues.
  rewrite bind_run, lift_run, Hmkdir. rewrite bind_run, Hfetch.
  rewrite bind_run. unfold get_issue_list at 1.
  by rewrite import_issues_loop.
Qed.

(** [import_issues] in the format of the platform writes one file per
    sanitized title.  The file of a title holds the text of the last issue
    of the listing that is sanitized to that name, so of two issues whose
    titles differ only in characters that [clean_filename] removes, the
    text of the first is lost; files of other names are left alone. *)
Theorem import_issues_last_title_wins (path : Path) (project_id : str) (σ σ1 : session) :
  wf_path path →
  mkdir (path_child path "Issues") = Ok () →
  fetch_issue_list project_id σ = (Ok (), σ1) →
  Forall (λ issue, ∃ title text, issue !! ("title" : str) = Some (VStr title)
                                 ∧ issue !! ("text" : str) = Some (VStr text))
    (issue_list σ1) →
  let run := import_issues path project_id "textile" σ in
  run.1 = Ok () ∧
  (∀ i issue title text,
     issue_list σ1 !! i = Some issue →
     issue !! ("title" : str) = Some (VStr title) → issue !! ("text" : str) = Some (VStr text) →
     (∀ j issue' title', i < j → issue_list σ1 !! j = Some issue' →
        issue' !! ("title" : str) = Some (VStr title') →
        clean_filename title' ≠ clean_filename title) →
     files run.2 !! issue_file path title = Some text) ∧
  (∀ p, (∀ issue title, issue ∈ issue_list σ1 → issue !! ("title" : str) = Some (VStr title) →
                        issue_file path title ≠ p) →
        files run.2 !! p = files σ1 !! p).
Proof.
  intros Hpath Hmkdir Hfetch Hissues run. subst run.
  rewrite (import_issues_run path project_id σ σ1) by done. cbn [fst snd files].
  split_and!; [done| |].
  - intros i issue title text. by apply issues_written_last.
  - intros p. apply issues_written_other.
Qed.


End Issue_round_trip.

Lemma import_issues_last_title_wins_witness :
  let σ' := (@import_issues colliding_remote heading_pandoc plain_importer
               (Path_of_str "proj") "1" "textile" (session_of [])).2 in
  files σ' !! Path_of_str "proj/Issues/XSS stored.textile" = Some (issue_text "XSS stored").
Proof.
  intros σ'.
  destruct (@import_issues_last_title_wins colliding_remote heading_pandoc plain_importer
              (Path_of_str "proj") "1" (session_of [])
              (@fetch_issue_list colliding_remote "1" (session_of [])).2)
    as (_ & Hlast & _).
  - apply Path_of_str_wf.
  - reflexivity.
  - reflexivity.
  - repeat (apply Forall_cons; split; [by eexists _, _|]). constructor.
  - apply (Hlast 1 (issue_record 4 "XSS stored" (issue_text "XSS stored")) "XSS stored");
      [reflexivity..|].
    intros j issue' title' Hj Hlookup. destruct j as [|[|j]]; [lia|lia|done].
Defined.


(** ** The local files of an export *)

Section Local_files.
Context `{Environment}.

Lemma keeps_names_pure {A} (m : M A) : (∀ σ, files (m σ).2 = files σ) → keeps_names m.
Proof. intros Hm σ. by rewrite Hm. Qed.

Lemma keeps_names_ret {A} (a : A) : keeps_names (mret a : M A).
Proof. by apply keeps_names_pure. Qed.

Lemma keeps_names_lift {A} (r : result A) : keeps_names (lift r).
Proof. by apply keeps_names_pure. Qed.

Lemma keeps_names_bind {A B} (m : M A) (k : A → M B) :
  keeps_names m → (∀ a, keeps_names (k a)) → keeps_names (m ≫= k).
Proof.
  intros Hm Hk σ. rewrite bind_run. specialize (Hm σ).
  destruct (m σ) as [[a|e] σ1]; [|done]. cbn [snd] in Hm. by rewrite Hk.
Qed.

Lemma keeps_names_try_except {A} (m : M A) (handler : exception → M A) :
  keeps_names m → (∀ e, keeps_names (handler e)) → keeps_names (try_except m handler).
Proof.
  intros Hm Hk σ. unfold try_except. specialize (Hm σ).
  destruct (m σ) as [[a|e] σ1]; [done|]. cbn [snd] in Hm. by rewrite Hk.
Qed.

Lemma keeps_names_for_each {A} (xs : list A) (body : A → M ()) :
  (∀ x, keeps_names (body x)) → keeps_names (for_each xs body).
Proof.
  intros Hbody. induction xs as [|x xs IH]; [apply keeps_names_ret|].
  cbn [for_each]. by apply keeps_names_bind.
Qed.

Lemma keeps_names_for_fold {A S} (xs : list A) (body : S → A → M S) (s : S) :
  (∀ s x, keeps_names (body s x)) → keeps_names (for_fold xs body s).
Proof.
  intros Hbody. revert s. induction xs as [|x xs IH]; intros s; [apply keeps_names_ret|].
  cbn [for_fold]. by apply keeps_names_bind.
Qed.

Lemma keeps_names_log_record (l : level) (msg : str) : keeps_names (log_record l msg).
Proof. by apply keeps_names_pure. Qed.

Lemma keeps_names_api_list (c : call) : keeps_names (api_list c).
Proof. by apply keeps_names_pure. Qed.

Lemma keeps_names_api_item (c : call) : keeps_names (api_item c).
Proof. by apply keeps_names_pure. Qed.

Lemma keeps_names_read_text (p : Path) : keeps_names (read_text p).
Proof. apply keeps_names_pure. intros σ. unfold read_text. by destruct (files σ !! p). Qed.

Lemma keeps_names_is_file (p : Path) : keeps_names (is_file p).
Proof. by apply keeps_names_pure. Qed.

Lemma keeps_names_get_issue_list : keeps_names get_issue_list.
Proof. by apply keeps_names_pure. Qed.

Lemma keeps_names_get_dradis_nodes : keeps_names get_dradis_nodes.
Proof. by apply keeps_names_pure. Qed.

Lemma keeps_names_get_files_in_folder (p : Path) : keeps_names (get_files_in_folder p).
Proof.
  apply keeps_names_pure. intros σ. unfold get_files_in_folder. by destruct (iterdir p).
Qed.

Lemma keeps_names_get_folders_in_folder (p : Path) : keeps_names (get_folders_in_folder p).
Proof.
  apply keeps_names_pure. intros σ. unfold get_folders_in_folder. by destruct (iterdir p).
Qed.

Lemma keeps_names_fetch_issue_list (project_id : str) :
  keeps_names (fetch_issue_list project_id).
Proof.
  apply keeps_names_pure. intros σ. unfold fetch_issue_list. rewrite bind_run. cbn.
  destruct (issue_list σ); [|done]. rewrite bind_run. unfold api_list.
  by destruct (reply_list _ _).
Qed.

Lemma keeps_names_fetch_dradis_nodes (project_id : str) :
  keeps_names (fetch_dradis_nodes project_id).
Proof.
  apply keeps_names_pure. intros σ. unfold fetch_dradis_nodes. rewrite bind_run. cbn.
  destruct (dradis_nodes σ); [|done]. rewrite bind_run. unfold api_list.
  by destruct (reply_list _ _).
Qed.

(** [new_evidence] writes the file it has just read. *)
Lemma keeps_names_new_evidence (project_id : str) (node_id issue_id : scalar)
    (content : str) (evidence : Path) (erase : bool) :
  keeps_names (new_evidence project_id node_id issue_id content evidence erase).
Proof.
  intros σ. unfold new_evidence. rewrite bind_run. unfold api_item at 1.
  destruct (reply_item _ _) as [result|e]; [|done].
  rewrite bind_run. unfold read_text at 1. cbn [files].
  destruct (files σ !! evidence) as [text|] eqn:Hfile; [|done].
  cbn [write_text snd files]. rewrite dom_insert_L.
  apply elem_of_dom_2 in Hfile. by apply subseteq_union_1_L, singleton_subseteq_l.
Qed.

Ltac names_step :=
  first
    [ simple apply keeps_names_ret
    | simple apply keeps_names_lift
    | simple apply keeps_names_log_record
    | simple apply keeps_names_api_list
    | simple apply keeps_names_api_item
    | simple apply keeps_names_read_text
    | simple apply keeps_names_is_file
    | simple apply keeps_names_get_issue_list
    | simple apply keeps_names_get_dradis_nodes
    | simple apply keeps_names_get_files_in_folder
    | simple apply keeps_names_get_folders_in_folder
    | simple apply keeps_names_fetch_issue_list
    | simple apply keeps_names_fetch_dradis_nodes
    | simple apply keeps_names_new_evidence
    | simple apply keeps_names_bind; [|intros ?]
    | simple apply keeps_names_try_except; [|intros ?]
    | simple apply keeps_names_for_each; intros ?
    | simple apply keeps_names_for_fold; intros ? ?
    | match goal with
      | |- keeps_names (match ?x with _ => _ end) => destruct x
      | |- keeps_names (let '(_, _) := ?x in _) => destruct x
      end ].

Ltac names := repeat names_step.

Lemma keeps_names_get_textile_content (file : Path) : keeps_names (get_textile_content file).
Proof. unfold get_textile_content. names. Qed.

Lemma keeps_names_handle_attachments (project_id : str) (node_id : scalar) (content : str)
    (file_path : Path) :
  keeps_names (handle_attachments project_id node_id content file_path).
Proof. unfold handle_attachments, handle_attachment. names. Qed.

Lemma keeps_names_get_node_id_from_file (project_id : str) (file_path : Path) :
  keeps_names (get_node_id_from_file project_id file_path).
Proof. unfold get_node_id_from_file. names. Qed.

Lemma keeps_names_export_content_block (project_id : str) (file : Path) :
  keeps_names (export_content_block project_id file).
Proof.
  unfold export_content_block.
  apply keeps_names_bind; [apply keeps_names_get_textile_content|]. intros content.
  destruct content as [[|c content]|]; names.
  - apply keeps_names_get_node_id_from_file.
  - apply keeps_names_handle_attachments.
Qed.

Lemma keeps_names_export_issue (project_id : str) (file : Path) :
  keeps_names (export_issue project_id file).
Proof.
  unfold export_issue.
  apply keeps_names_bind; [apply keeps_names_get_textile_content|]. intros content.
  destruct content as [[|c content]|]; names.
Qed.

Lemma keeps_names_export_evidence (project_id : str) (node_id : scalar) (name : str)
    (file : Path) :
  keeps_names (export_evidence project_id node_id name file).
Proof.
  unfold export_evidence.
  apply keeps_names_bind; [apply keeps_names_get_textile_content|]. intros content.
  destruct content as [[|c content]|]; names.
  all: apply keeps_names_handle_attachments.
Qed.

Lemma keeps_names_export_node (project_id : str) (node_folder : Path) :
  keeps_names (export_node project_id node_folder).
Proof. unfold export_node. names. all: apply keeps_names_export_evidence. Qed.

Lemma keeps_names_export_document_properties (project_id : str) (path : Path) :
  keeps_names (export_document_properties project_id path).
Proof.
  unfold export_document_properties.
  apply keeps_names_bind; [by apply keeps_names_pure|]. intros text. names.
Qed.

Lemma keeps_names_update_item (project_id : str) (path : Path) :
  keeps_names (update_item project_id path).
Proof.
  unfold update_item. names.
  - apply keeps_names_export_document_properties.
  - apply keeps_names_export_content_block.
  - apply keeps_names_export_issue.
  - apply keeps_names_get_node_id_from_file.
  - apply keeps_names_export_evidence.
Qed.

Lemma keeps_names_update_project (project_id path : str) :
  keeps_names (update_project project_id path).
Proof.
  unfold update_project. names.
  all: first [ apply keeps_names_update_item | apply keeps_names_export_content_block
             | apply keeps_names_export_document_properties | apply keeps_names_export_issue
             | apply keeps_names_export_node ].
Qed.

(** No export operation creates or removes a local file: after any of
    them, whether it returned or raised, the files that exist are the files
    that existed before. *)
Theorem export_keeps_local_files (project_id : str) (op : operation) (σ : session) :
  dom (files (run project_id op σ).2) = dom (files σ).
Proof.
  revert σ. change (keeps_names (run project_id op)). destruct op; cbn [run].
  - apply keeps_names_export_content_block.
  - apply keeps_names_export_document_properties.
  - apply keeps_names_export_issue.
  - apply keeps_names_export_node.
  - apply keeps_names_export_evidence.
  - apply keeps_names_bind; [apply keeps_names_get_node_id_from_file|].
    intros. apply keeps_names_ret.
  - apply keeps_names_update_item.
  - apply keeps_names_update_project.
Qed.

End Local_files.
